(** * Cows in the maze: the state space search of [cows.cpp]

    A shallow embedding of the C++ program that solves the maze puzzle of
    Scientific American, December 1996: two pencils rest on boxes of a
    maze, each box holds a rule that says where the pencil on it goes
    next, and the program searches the states that can be reached from
    the start.

    [int] and [long] values are modelled as [Z], the [BOOL] flags and the
    [unsigned char] flags that hold 0 or 1 as [bool], an array of two as
    two fields, the other C arrays as lists read with [!!] and written
    with [<[ _ := _ ]>], and a call of [abort()] as [None] in the option
    monad.  The two recursive functions take fuel; the lemmas
    [DetermineNextStates_fuel_enough], [RecTraverse_fuel_mono] and
    [RecTraverse_returns] say how much is enough.  The definitions come
    first, the lemmas after them. *)

From Stdlib Require Import ZArith Lia List Bool.
From stdpp Require Import base option list zmap.

Local Open Scope Z_scope.

(** ** Constants *)

Definition TRACE_ENTRIES : Z := 300.

Definition GOAL_MAZEPOINT : Z := 100.
Definition ILLEGAL_MAZEPOINT : Z := 101.
Definition START_PENCIL_0 : Z := 1.
Definition START_PENCIL_1 : Z := 7.

Definition PATH_YES : Z := 0.
Definition PATH_NO : Z := 1.
Definition PATH_LUGNUT : Z := 2.
Definition PATH_NONE : Z := 3.

Definition MAZEPOINT_COUNT : Z := 16.
Definition MAZEPOINT : list Z :=
  [1; 2; 5; 7; 9; 15; 25; 26; 35; 40; 50; 55; 60; 61; 65; 75].

(** Reading a C array at an [int] index; an index outside the array is
    undefined behaviour in the source and [None] here. *)
Definition at_index {A : Type} (l : list A) (i : Z) : option A :=
  if i <? 0 then None else l !! Z.to_nat i.

(** Writing a C array at an [int] index, [None] outside the array. *)
Definition set_index {A : Type} (l : list A) (i : Z) (x : A) : option (list A) :=
  if (0 <=? i) && (i <? Z.of_nat (length l))
  then Some (<[Z.to_nat i := x]> l) else None.

(** The guard [if (p<0 || 1<p) abort();] that opens every accessor taking
    a pencil number. *)
Definition check_pencil (p : Z) : option unit :=
  if (p <? 0) || (1 <? p) then None else Some tt.

(** ** class State *)

Record State : Type := mkState {
  pencil0 : Z;
  pencil1 : Z;
  rule60active : bool;
  pencilMoved0 : bool;
  pencilMoved1 : bool
}.

Module State.

(** The search loop of [State::GetMazePointIndex]: the first [i] with
    [MAZEPOINT[i]==m], or the count when there is none. *)
Fixpoint search (m : Z) (l : list Z) (i : Z) : Z :=
  match l with
  | [] => i
  | x :: l' => if x =? m then i else search m l' (i + 1)
  end.

Definition GetMazePointIndex (m : Z) : option Z :=
  let i := search m MAZEPOINT 0 in
  if i =? MAZEPOINT_COUNT then None else Some i.

(** [State::State(void)] *)
Definition new : State :=
  {| pencil0 := ILLEGAL_MAZEPOINT; pencil1 := ILLEGAL_MAZEPOINT;
     rule60active := false; pencilMoved0 := false; pencilMoved1 := false |}.

Definition raw (p : Z) (s : State) : Z :=
  if p =? 0 then pencil0 s else pencil1 s.

Definition Pencil (p : Z) (s : State) : option Z :=
  _ ← check_pencil p;
  if (raw p s =? ILLEGAL_MAZEPOINT) || (raw p s =? GOAL_MAZEPOINT)
  then Some (raw p s)
  else at_index MAZEPOINT (raw p s).

Definition MovementP (p : Z) (s : State) : option bool :=
  _ ← check_pencil p;
  Some (if p =? 0 then pencilMoved0 s else pencilMoved1 s).

Definition Rule60P (s : State) : bool := rule60active s.

Definition set_raw (p : Z) (x : Z) (s : State) : State :=
  if p =? 0
  then {| pencil0 := x; pencil1 := pencil1 s; rule60active := rule60active s;
          pencilMoved0 := pencilMoved0 s; pencilMoved1 := pencilMoved1 s |}
  else {| pencil0 := pencil0 s; pencil1 := x; rule60active := rule60active s;
          pencilMoved0 := pencilMoved0 s; pencilMoved1 := pencilMoved1 s |}.

Definition SetPencil (p : Z) (x : Z) (s : State) : option State :=
  _ ← check_pencil p;
  if (x =? ILLEGAL_MAZEPOINT) || (x =? GOAL_MAZEPOINT)
  then Some (set_raw p x s)
  else i ← GetMazePointIndex x; Some (set_raw p i s).

Definition SetMovement (p : Z) (x : bool) (s : State) : option State :=
  _ ← check_pencil p;
  Some (if p =? 0
        then {| pencil0 := pencil0 s; pencil1 := pencil1 s;
                rule60active := rule60active s;
                pencilMoved0 := x; pencilMoved1 := pencilMoved1 s |}
        else {| pencil0 := pencil0 s; pencil1 := pencil1 s;
                rule60active := rule60active s;
                pencilMoved0 := pencilMoved0 s; pencilMoved1 := x |}).

Definition SetRule60 (x : bool) (s : State) : State :=
  {| pencil0 := pencil0 s; pencil1 := pencil1 s; rule60active := x;
     pencilMoved0 := pencilMoved0 s; pencilMoved1 := pencilMoved1 s |}.

Definition IllegalP (s : State) : bool :=
  (pencil0 s =? ILLEGAL_MAZEPOINT) || (pencil1 s =? ILLEGAL_MAZEPOINT).

Definition GoalP (s : State) : bool :=
  (pencil0 s =? GOAL_MAZEPOINT) || (pencil1 s =? GOAL_MAZEPOINT).

End State.

(** ** class Transition *)

Record Transition : Type := mkTransition {
  current : State;
  next0 : State;
  next1 : State;
  altNext0 : State;
  altNext1 : State;
  visited : Z;
  altNextValid0 : bool;
  altNextValid1 : bool
}.

Module Transition.

(** [Transition::Transition(void)] *)
Definition new : Transition :=
  {| current := State.new; next0 := State.new; next1 := State.new;
     altNext0 := State.new; altNext1 := State.new;
     visited := 0; altNextValid0 := false; altNextValid1 := false |}.

Definition SetCurrentState (c : State) (t : Transition) : Transition :=
  {| current := c; next0 := next0 t; next1 := next1 t;
     altNext0 := altNext0 t; altNext1 := altNext1 t;
     visited := visited t;
     altNextValid0 := altNextValid0 t; altNextValid1 := altNextValid1 t |}.

Definition SetNextState (chosenPencil : Z) (n : State) (t : Transition)
  : option Transition :=
  _ ← check_pencil chosenPencil;
  Some (if chosenPencil =? 0
        then {| current := current t; next0 := n; next1 := next1 t;
                altNext0 := altNext0 t; altNext1 := altNext1 t;
                visited := visited t;
                altNextValid0 := altNextValid0 t;
                altNextValid1 := altNextValid1 t |}
        else {| current := current t; next0 := next0 t; next1 := n;
                altNext0 := altNext0 t; altNext1 := altNext1 t;
                visited := visited t;
                altNextValid0 := altNextValid0 t;
                altNextValid1 := altNextValid1 t |}).

Definition SetAltNextState (chosenPencil : Z) (n : State) (t : Transition)
  : option Transition :=
  _ ← check_pencil chosenPencil;
  Some (if chosenPencil =? 0
        then {| current := current t; next0 := next0 t; next1 := next1 t;
                altNext0 := n; altNext1 := altNext1 t;
                visited := visited t;
                altNextValid0 := true;
                altNextValid1 := altNextValid1 t |}
        else {| current := current t; next0 := next0 t; next1 := next1 t;
                altNext0 := altNext0 t; altNext1 := n;
                visited := visited t;
                altNextValid0 := altNextValid0 t;
                altNextValid1 := true |}).

Definition SetVisited (x : Z) (t : Transition) : Transition :=
  {| current := current t; next0 := next0 t; next1 := next1 t;
     altNext0 := altNext0 t; altNext1 := altNext1 t;
     visited := x;
     altNextValid0 := altNextValid0 t; altNextValid1 := altNextValid1 t |}.

Definition Visited (t : Transition) : Z := visited t.

Definition CurrentState (t : Transition) : State := current t.

Definition NextState (chosenPencil : Z) (t : Transition) : option State :=
  _ ← check_pencil chosenPencil;
  Some (if chosenPencil =? 0 then next0 t else next1 t).

Definition AltNextState (chosenPencil : Z) (t : Transition) : option State :=
  _ ← check_pencil chosenPencil;
  Some (if chosenPencil =? 0 then altNext0 t else altNext1 t).

Definition AltNextValidP (chosenPencil : Z) (t : Transition) : option bool :=
  _ ← check_pencil chosenPencil;
  Some (if chosenPencil =? 0 then altNextValid0 t else altNextValid1 t).

End Transition.

(** ** class Searcher: the index of a state *)

Definition TotalStates : Z :=
  MAZEPOINT_COUNT * MAZEPOINT_COUNT * 2 * 2 * 2.

Definition ComputeIndex (c : State) : option Z :=
  let result := 0 in
  let result := result * 2 in
  m0 ← State.MovementP 0 c;
  let result := if (m0 : bool) then result + 1 else result in
  let result := result * 2 in
  m1 ← State.MovementP 1 c;
  let result := if (m1 : bool) then result + 1 else result in
  let result := result * MAZEPOINT_COUNT in
  p0 ← State.Pencil 0 c;
  i0 ← State.GetMazePointIndex p0;
  let result := result + i0 in
  let result := result * MAZEPOINT_COUNT in
  p1 ← State.Pencil 1 c;
  i1 ← State.GetMazePointIndex p1;
  let result := result + i1 in
  let result := result * 2 in
  let result := if State.Rule60P c then result + 1 else result in
  Some result.

(** ** The decisions printed in the boxes *)

Definition HasBoxRedTextOrGreenTextP (x : Z) : bool :=
  (x =? 7) || (x =? 26) || (x =? 61) || (x =? 25) ||
  (x =? 50) || (x =? 60) || (x =? 9) || (x =? 40).

Definition HasBoxGreenTextOrGreenWordP (x : Z) : bool :=
  (x =? 60) || (x =? 5) || (x =? 25) || (x =? 2) ||
  (x =? 65) || (x =? 40) || (x =? 1).

Definition HasBoxRedWordOrGreenWordP (x : Z) : bool :=
  (x =? 5) || (x =? 25) || (x =? 2) || (x =? 60) ||
  (x =? 1) || (x =? 40) || (x =? 65).

Definition HasBoxOddNumberP (x : Z) : bool := Z.rem x 2 =? 1.

Definition HasBoxWordWordP (x : Z) : bool := (x =? 35) || (x =? 5).

Definition HasBoxMultipleOfFiveNumberP (x : Z) : bool := Z.rem x 5 =? 0.

Definition DoesBoxReferToCowsP (x : Z) : bool := x =? 50.

Definition GetYesPath (x : Z) : option Z :=
  match x with
  | 1 => Some 2
  | 2 => Some 7
  | 5 => Some 25
  | 7 => Some 26
  | 9 => Some 2
  | 15 => Some 5
  | 25 => Some 7
  | 26 => Some 61
  | 35 => Some 40
  | 40 => Some 65
  | 50 => Some GOAL_MAZEPOINT
  | 55 => Some 15
  | 60 => Some 25
  | 61 => Some 1
  | 65 => Some 75
  | 75 => Some 1
  | _ => None
  end.

Definition HasBoxIfSentenceP (x : Z) : bool :=
  (x =? 61) || (x =? 26) || (x =? 65).

(** ** Searcher::DetermineNextStates *)

(** [(chosenPencil+1)%2] *)
Definition other (chosenPencil : Z) : Z := Z.rem (chosenPencil + 1) 2.

(** The three statements that end nearly every branch of the switch:
    put the chosen pencil on box [mp], record that it moved, and store
    the state as the next state of [trs]; [path] is the value left in
    [pathTaken]. *)
Definition leave (chosenPencil mp : Z) (path : Z) (next : State)
    (trs : Transition) : option (Transition * Z) :=
  next ← State.SetPencil chosenPencil mp next;
  next ← State.SetMovement chosenPencil true next;
  trs ← Transition.SetNextState chosenPencil next trs;
  Some (trs, path).

(** Box 26 calls the function again on a copy of the transition, for the
    other pencil; [fuel] bounds the nesting of these calls.  [abort()] and
    an exhausted [fuel] both give [None]. *)
Fixpoint DetermineNextStates_fuel (fuel : nat) (chosenPencil : Z)
    (trs : Transition) : option (Transition * Z) :=
  match fuel with
  | O => None
  | S fuel' =>
    let current := Transition.CurrentState trs in
    let next := current in
    next ← State.SetMovement 0 false next;
    next ← State.SetMovement 1 false next;
    let otherPencil := other chosenPencil in
    if State.IllegalP current || State.GoalP current then None else
    box ← State.Pencil chosenPencil current;
    match box with
    | 1 =>
      other ← State.Pencil otherPencil current;
      if HasBoxRedTextOrGreenTextP other
      then leave chosenPencil 2 PATH_YES next trs
      else leave chosenPencil 9 PATH_NO next trs
    | 2 =>
      other ← State.Pencil otherPencil current;
      if HasBoxGreenTextOrGreenWordP other
      then leave chosenPencil 7 PATH_YES next trs
      else leave chosenPencil 15 PATH_NO next trs
    | 5 =>
      other ← State.Pencil otherPencil current;
      if HasBoxRedWordOrGreenWordP other
      then leave chosenPencil 25 PATH_YES next trs
      else leave chosenPencil 2 PATH_NO next trs
    | 7 =>
      if State.Rule60P current
      then leave chosenPencil 26 PATH_YES next trs
      else
      other ← State.Pencil otherPencil current;
      if HasBoxOddNumberP other
      then leave chosenPencil 26 PATH_YES next trs
      else leave chosenPencil 5 PATH_NO next trs
    | 9 =>
      if State.Rule60P current
      then leave chosenPencil 2 PATH_YES next trs
      else
        moved ← State.MovementP otherPencil current;
        if (moved : bool)
        then leave chosenPencil 2 PATH_YES next trs
        else leave chosenPencil 35 PATH_NO next trs
    | 15 =>
      other ← State.Pencil otherPencil current;
      if HasBoxMultipleOfFiveNumberP other
      then leave chosenPencil 5 PATH_YES next trs
      else leave chosenPencil 40 PATH_NO next trs
    | 25 =>
      if State.Rule60P current
      then leave chosenPencil 7 PATH_YES next trs
      else
      other ← State.Pencil otherPencil current;
      if HasBoxRedTextOrGreenTextP other
      then leave chosenPencil 7 PATH_YES next trs
      else leave chosenPencil 50 PATH_NO next trs
    | 26 =>
      if State.Rule60P current
      then leave chosenPencil 61 PATH_YES next trs
      else
      other ← State.Pencil otherPencil current;
      if other =? 26
      then
        next ← State.SetPencil chosenPencil ILLEGAL_MAZEPOINT next;
        next ← State.SetPencil otherPencil ILLEGAL_MAZEPOINT next;
        trs ← Transition.SetNextState chosenPencil next trs;
        Some (trs, PATH_NONE)
      else
        let tmp := trs in
        r ← DetermineNextStates_fuel fuel' otherPencil tmp;
        let otherPath := r.2 in
        if otherPath =? PATH_NO
        then leave chosenPencil 61 PATH_YES next trs
        else leave chosenPencil 55 PATH_NO next trs
    | 35 =>
      other ← State.Pencil otherPencil current;
      if HasBoxWordWordP other
      then leave chosenPencil 40 PATH_YES next trs
      else leave chosenPencil 1 PATH_NO next trs
    | 40 =>
      if State.Rule60P current
      then leave chosenPencil 65 PATH_YES next trs
      else leave chosenPencil 60 PATH_NO next trs
    | 50 =>
      if State.Rule60P current
      then leave chosenPencil GOAL_MAZEPOINT PATH_YES next trs
      else
      other ← State.Pencil otherPencil current;
      if DoesBoxReferToCowsP other
      then leave chosenPencil GOAL_MAZEPOINT PATH_YES next trs
      else leave chosenPencil 26 PATH_NO next trs
    | 55 =>
      next ← State.SetPencil chosenPencil 15 next;
      next ← State.SetMovement chosenPencil true next;
      trs ← Transition.SetNextState chosenPencil next trs;
      next ← State.SetPencil chosenPencil 7 next;
      trs ← Transition.SetAltNextState chosenPencil next trs;
      Some (trs, PATH_LUGNUT)
    | 60 =>
      next ← State.SetPencil chosenPencil 25 next;
      next ← State.SetMovement chosenPencil true next;
      let next := State.SetRule60 true next in
      trs ← Transition.SetNextState chosenPencil next trs;
      Some (trs, PATH_YES)
    | 61 =>
      if State.Rule60P current
      then leave chosenPencil 1 PATH_YES next trs
      else
        next ← State.SetPencil chosenPencil 1 next;
        next ← State.SetMovement chosenPencil true next;
        other ← State.Pencil otherPencil current;
        yes ← GetYesPath other;
        next ← State.SetPencil otherPencil yes next;
        next ← State.SetMovement otherPencil true next;
        trs ← Transition.SetNextState chosenPencil next trs;
        Some (trs, PATH_YES)
    | 65 =>
      next ← State.SetPencil chosenPencil 75 next;
      let next := State.SetRule60 false next in
      next ← State.SetMovement chosenPencil true next;
      trs ← Transition.SetNextState chosenPencil next trs;
      Some (trs, PATH_YES)
    | 75 =>
      other ← State.Pencil otherPencil current;
      if HasBoxIfSentenceP other
      then leave chosenPencil 1 PATH_YES next trs
      else leave chosenPencil 50 PATH_NO next trs
    | _ => None
    end
  end.

(** The nested call of box 26 is made only when the other pencil is not
    itself on box 26, so it never nests again: two levels are enough
    (lemma [DetermineNextStates_fuel_enough]). *)
Definition DetermineNextStates (chosenPencil : Z) (trs : Transition)
    : option (Transition * Z) :=
  DetermineNextStates_fuel 2 chosenPencil trs.

(** ** Legal states *)

(** Both pencils are stored as an index into [MAZEPOINT]. *)
Definition legal (s : State) : Prop :=
  (0 <= pencil0 s < MAZEPOINT_COUNT) /\ (0 <= pencil1 s < MAZEPOINT_COUNT).

(** The values of a loop variable that runs from 0 to
    [MAZEPOINT_COUNT - 1]. *)
Definition indices : list Z := Eval vm_compute in map Z.of_nat (seq 0 16).

(** The 2048 legal states, in the order in which
    [Searcher::EnumerateTransitions] goes through them. *)
Definition all_states : list State :=
  m0 ← [true; false];
  m1 ← [true; false];
  p0 ← indices;
  p1 ← indices;
  r ← [true; false];
  [mkState p0 p1 r m0 m1].


(** ** Searcher::EnumerateTransitions *)

(** A loop whose body may abort, run over the values of the loop variable
    in order. *)
Fixpoint loop {A S : Type} (body : A -> S -> option S) (l : list A) (s : S)
    : option S :=
  match l with
  | [] => Some s
  | x :: l' => s' ← body x s; loop body l' s'
  end.

(** The body of the innermost loop. *)
Definition enumerate_body (pencil0mv pencil1mv : bool) (curP0 curP1 : Z)
    (curR60 : bool) (space : list Transition) : option (list Transition) :=
  let current := State.new in
  mp0 ← at_index MAZEPOINT curP0;
  current ← State.SetPencil 0 mp0 current;
  mp1 ← at_index MAZEPOINT curP1;
  current ← State.SetPencil 1 mp1 current;
  let current := State.SetRule60 curR60 current in
  current ← State.SetMovement 0 pencil0mv current;
  current ← State.SetMovement 1 pencil1mv current;
  index ← ComputeIndex current;
  (* assert(index<TotalStates()) *)
  if negb (index <? TotalStates) then None else
  t ← at_index space index;
  let t := Transition.SetCurrentState current t in
  r ← DetermineNextStates 0 t;
  r ← DetermineNextStates 1 r.1;
  set_index space index r.1.

(** Each [do { ... x = !x; } while (!x);] loop starts at [TRUE] and runs
    its body for [TRUE], then for [FALSE]. *)
Definition EnumerateTransitions (space : list Transition)
    : option (list Transition) :=
  loop (fun pencil0mv =>
    loop (fun pencil1mv =>
      loop (fun curP0 =>
        loop (fun curP1 =>
          loop (fun curR60 =>
            enumerate_body pencil0mv pencil1mv curP0 curP1 curR60)
            [true; false])
          indices)
        indices)
      [true; false])
    [true; false] space.

(** [Searcher::Searcher(void)]: allocate the state space and fill it. *)
Definition Searcher_new : option (list Transition) :=
  EnumerateTransitions (replicate (Z.to_nat TotalStates) Transition.new).

(** ** The traversal *)

(** What the traversal writes: the two messages sent to [cerr] and the
    stack trace that [DumpStackTrace] sends to [cout]. *)
Inductive Output : Type :=
| IllegalEncountered
| GoalEncountered (depth : Z)
| StackTrace (depth : Z) (trace : list State).

(** What [RecTraverse] reads and writes: the state space of the searcher,
    the [maxDepth] reference, the stack tracer and the output so far
    (latest first). *)
Record Run : Type := mkRun {
  space : list Transition;
  maxDepth : Z;
  stackTrace : list State;
  output : list Output
}.

Definition with_space (sp : list Transition) (r : Run) : Run :=
  {| space := sp; maxDepth := maxDepth r; stackTrace := stackTrace r;
     output := output r |}.

Definition with_maxDepth (d : Z) (r : Run) : Run :=
  {| space := space r; maxDepth := d; stackTrace := stackTrace r;
     output := output r |}.

Definition with_stackTrace (st : list State) (r : Run) : Run :=
  {| space := space r; maxDepth := maxDepth r; stackTrace := st;
     output := output r |}.

Definition print (o : list Output) (r : Run) : Run :=
  {| space := space r; maxDepth := maxDepth r; stackTrace := stackTrace r;
     output := o ++ output r |}.

Definition DumpStackTrace (stackTrace : list State) (depth : Z) : list Output :=
  if depth >? 37 then []
  else [StackTrace depth (take (Z.to_nat depth) stackTrace)].

(** How a piece of the body of [RecTraverse] ends: with [return], or by
    falling through to the next statement. *)
Inductive flow : Type :=
| Return (r : Run)
| Continue (r : Run).

(** The [if / else if / else] applied to a next state [s]; [rec] is the
    recursive call. *)
Definition dispatch (rec : Z -> Z -> Run -> option Run) (s : State)
    (depth : Z) (r : Run) : option flow :=
  if State.IllegalP s then
    Some (Return (print [IllegalEncountered] r))
  else if State.GoalP s then
    let r := print [GoalEncountered depth] r in
    Some (Return (print (DumpStackTrace (stackTrace r) depth) r))
  else
    nextState ← ComputeIndex s;
    r ← rec nextState (depth + 1) r;
    Some (Continue r).

(** The body of the [for] loop over the two pencils. *)
Definition pencil_body (rec : Z -> Z -> Run -> option Run) (index depth : Z)
    (pencil : Z) (r : Run) : option flow :=
  t ← at_index (space r) index;
  n ← Transition.NextState pencil t;
  f ← dispatch rec n depth r;
  match f with
  | Return r => Some (Return r)
  | Continue r =>
    t ← at_index (space r) index;
    valid ← Transition.AltNextValidP pencil t;
    if (valid : bool) then
      a ← Transition.AltNextState pencil t;
      dispatch rec a depth r
    else Some (Continue r)
  end.

Fixpoint for_pencils (body : Z -> Run -> option flow) (pencils : list Z)
    (r : Run) : option Run :=
  match pencils with
  | [] => Some r
  | pencil :: rest =>
    f ← body pencil r;
    match f with
    | Return r => Some r
    | Continue r => for_pencils body rest r
    end
  end.

(** The three statements that open the [else] branch of [RecTraverse]:
    store the depth in the transition, record a maximal depth, record the
    current state in the stack tracer. *)
Definition record_visit (index depth : Z) (t : Transition) (r : Run)
    : option Run :=
  sp ← set_index (space r) index (Transition.SetVisited depth t);
  let r := with_space sp r in
  let r := if maxDepth r <? depth then with_maxDepth depth r else r in
  if depth <=? TRACE_ENTRIES
  then st ← set_index (stackTrace r) (depth - 1) (Transition.CurrentState t);
       Some (with_stackTrace st r)
  else Some r.

(** [fuel] bounds the depth of the recursion; [None] is [abort()], an
    access outside an array, or an exhausted [fuel]. *)
Fixpoint RecTraverse (fuel : nat) (index depth : Z) (r : Run) : option Run :=
  match fuel with
  | O => None
  | S fuel' =>
    t ← at_index (space r) index;
    if (Transition.Visited t >? 0) && (Transition.Visited t <=? depth)
    then Some r
    else
      r ← record_visit index depth t r;
      for_pencils (pencil_body (RecTraverse fuel') index depth) [0; 1] r
  end.

(** The run in which [StartTraversal] makes the first call. *)
Definition first_run (sp : list Transition) : Run :=
  {| space := sp; maxDepth := 0;
     stackTrace := replicate (Z.to_nat TRACE_ENTRIES) State.new;
     output := [] |}.

(** [Searcher::StartTraversal], on the state space [sp] of the searcher;
    the result carries the maximal depth that the function prints. *)
Definition StartTraversal (fuel : nat) (sp : list Transition) : option Run :=
  let start := State.new in
  start ← State.SetPencil 0 START_PENCIL_0 start;
  start ← State.SetPencil 1 START_PENCIL_1 start;
  index ← ComputeIndex start;
  RecTraverse fuel index 1 (first_run sp).

(** ** The outcome of one rule evaluation *)

(** A transition that holds only its current state. *)
Definition fresh (c : State) : Transition :=
  Transition.SetCurrentState c Transition.new.

(** What [DetermineNextStates] computes from the current state [c] for
    the chosen pencil: the next state, the alternate next state when it
    sets one, and the path taken. *)
Definition evaluate (chosenPencil : Z) (c : State)
    : option (State * option State * Z) :=
  r ← DetermineNextStates chosenPencil (fresh c);
  n ← Transition.NextState chosenPencil r.1;
  valid ← Transition.AltNextValidP chosenPencil r.1;
  a ← Transition.AltNextState chosenPencil r.1;
  Some (n, if (valid : bool) then Some a else None, r.2).

(** Storing such an outcome in a transition. *)
Definition store (chosenPencil : Z) (n : State) (a : option State)
    (trs : Transition) : option Transition :=
  trs ← Transition.SetNextState chosenPencil n trs;
  match a with
  | Some a => Transition.SetAltNextState chosenPencil a trs
  | None => Some trs
  end.

Global Instance State_eq_dec : EqDecision State.
Proof. solve_decision. Defined.

(** [P] holds of the outcome of every rule evaluation on a legal state,
    decided by going through the 2048 states and the two pencils. *)
Definition outcomes_all (P : Z -> State -> State * option State * Z -> Prop)
    `{!forall p c o, Decision (P p c o)} : bool :=
  forallb (fun c =>
    forallb (fun p =>
      match evaluate p c with
      | Some o => bool_decide (P p c o)
      | None => false
      end) [0; 1]) all_states.

(** ** Properties of one rule evaluation

    Each is a property of the pencil [p], the current state [c] and the
    outcome [o] (next state, alternate next state if any, path taken). *)

Definition outcome : Type := State * option State * Z.

(** Both pencils on box 26: a deadly embrace (no path, both pencils of
    the next state illegal, no alternate) while rule 60 is off; with rule
    60 on, the chosen pencil leaves through Yes to box 61. *)
Definition both_at_26 (p : Z) (c : State) (o : outcome) : Prop :=
  State.Pencil 0 c = Some 26 -> State.Pencil 1 c = Some 26 ->
  (State.Rule60P c = false ->
     o.2 = PATH_NONE /\ o.1.2 = None /\
     State.Pencil 0 o.1.1 = Some ILLEGAL_MAZEPOINT /\
     State.Pencil 1 o.1.1 = Some ILLEGAL_MAZEPOINT) /\
  (State.Rule60P c = true ->
     o.2 = PATH_YES /\ o.1.2 = None /\
     State.Pencil p o.1.1 = Some 61 /\
     State.Pencil (other p) o.1.1 = Some 26).

Global Instance both_at_26_dec p c o : Decision (both_at_26 p c o).
Proof. unfold both_at_26. apply _. Defined.

(** Box 55 gives the next state on box 15 and the alternate next state,
    which is the next state with the chosen pencil put on box 7; no other
    box gives an alternate next state. *)
Definition choice_at_55 (p : Z) (c : State) (o : outcome) : Prop :=
  (State.Pencil p c = Some 55 ->
     o.2 = PATH_LUGNUT /\ State.Pencil p o.1.1 = Some 15 /\
     is_Some o.1.2 /\
     o.1.2 = State.SetPencil p 7 o.1.1 /\
     o.1.2 ≫= State.Pencil p = Some 7) /\
  (State.Pencil p c <> Some 55 -> o.2 <> PATH_LUGNUT /\ o.1.2 = None).

Global Instance choice_at_55_dec p c o : Decision (choice_at_55 p c o).
Proof. unfold choice_at_55. apply _. Defined.

(** The lookup table for the other pencil at box 61, as the
    specification lists it. *)
Definition jump_table : list (Z * Z) :=
  [(1, 2); (2, 7); (5, 25); (7, 26); (9, 2); (15, 5); (25, 7); (26, 61);
   (35, 40); (40, 65); (50, GOAL_MAZEPOINT); (55, 15); (60, 25); (61, 1);
   (65, 75); (75, 1)].

Definition jump (x : Z) : option Z :=
  snd <$> find (fun e => e.1 =? x) jump_table.

(** Box 61: the chosen pencil goes to box 1 and has moved; while rule 60
    is off the other pencil jumps as the table says and has moved too,
    with rule 60 on it stays where it is and has not moved. *)
Definition cross_move_at_61 (p : Z) (c : State) (o : outcome) : Prop :=
  State.Pencil p c = Some 61 ->
  o.2 = PATH_YES /\ o.1.2 = None /\
  State.Pencil p o.1.1 = Some 1 /\ State.MovementP p o.1.1 = Some true /\
  (State.Rule60P c = false ->
     is_Some (State.Pencil (other p) o.1.1) /\
     State.Pencil (other p) o.1.1 = State.Pencil (other p) c ≫= jump /\
     State.Pencil (other p) o.1.1 = State.Pencil (other p) c ≫= GetYesPath /\
     State.MovementP (other p) o.1.1 = Some true) /\
  (State.Rule60P c = true ->
     State.Pencil (other p) o.1.1 = State.Pencil (other p) c /\
     State.MovementP (other p) o.1.1 = Some false).

Global Instance cross_move_at_61_dec p c o : Decision (cross_move_at_61 p c o).
Proof. unfold cross_move_at_61. apply _. Defined.

(** The deadly embrace: both pencils on box 26 while rule 60 is off. *)
Definition embrace (c : State) : Prop :=
  State.Pencil 0 c = Some 26 /\ State.Pencil 1 c = Some 26 /\
  State.Rule60P c = false.

(** The flags of a state say that pencil [p] moved, and that the other
    pencil moved exactly if [b]. *)
Definition moved (p : Z) (b : bool) (s : State) : Prop :=
  State.MovementP p s = Some true /\ State.MovementP (other p) s = Some b.

(** Movement flags of the states produced: in the deadly embrace no
    pencil has moved; otherwise the chosen pencil has, and the other
    pencil has exactly in the cross move of box 61 with rule 60 off; the
    free choice has an alternate next state, in which only the chosen
    pencil has moved. *)
Definition movement_flags (p : Z) (c : State) (o : outcome) : Prop :=
  (o.2 = PATH_NONE <-> embrace c) /\
  (o.2 = PATH_NONE ->
     State.MovementP 0 o.1.1 = Some false /\
     State.MovementP 1 o.1.1 = Some false) /\
  (o.2 <> PATH_NONE ->
     moved p (bool_decide (State.Pencil p c = Some 61 /\
                           State.Rule60P c = false)) o.1.1) /\
  (o.2 = PATH_LUGNUT -> is_Some o.1.2) /\
  from_option (moved p false) True o.1.2.

Global Instance movement_flags_dec p c o : Decision (movement_flags p c o).
Proof.
  unfold movement_flags, embrace, moved.
  destruct o as [[n [a|]] path]; simpl; apply _.
Defined.

(** ** Rule 60 along paths *)

(** The rule 60 flag after the rule of box [box] has been followed, from
    the flag before. *)
Definition rule60_after (box : Z) (before : bool) : bool :=
  if box =? 60 then true else if box =? 65 then false else before.

(** The rule 60 flag of the states produced: the next state has the flag
    that [rule60_after] gives; an alternate next state exists exactly on
    the path PATH_LUGNUT, which is taken on box 55 only, and has the flag
    of the current state. *)
Definition mode_flag (p : Z) (c : State) (o : outcome) : Prop :=
  (box ← State.Pencil p c; Some (rule60_after box (State.Rule60P c)))
    = Some (State.Rule60P o.1.1) /\
  (o.2 = PATH_LUGNUT -> is_Some o.1.2 /\ State.Pencil p c = Some 55) /\
  from_option (fun a => State.Rule60P a = State.Rule60P c) True o.1.2.

Global Instance mode_flag_dec p c o : Decision (mode_flag p c o).
Proof.
  unfold mode_flag. destruct o as [[n [a|]] path]; simpl; apply _.
Defined.

(** [produces c box c']: following the rule of the box [box] on which one
    of the pencils of the legal state [c] is, [DetermineNextStates]
    stores [c'] as next state, or as alternate next state of a free
    choice. *)
Inductive produces (c : State) (box : Z) (c' : State) : Prop :=
| produces_next (p : Z) (trs trs' : Transition) (path : Z) :
    p = 0 \/ p = 1 -> legal c -> current trs = c ->
    State.Pencil p c = Some box ->
    DetermineNextStates p trs = Some (trs', path) ->
    Transition.NextState p trs' = Some c' ->
    produces c box c'
| produces_alt (p : Z) (trs trs' : Transition) :
    p = 0 \/ p = 1 -> legal c -> current trs = c ->
    State.Pencil p c = Some box ->
    DetermineNextStates p trs = Some (trs', PATH_LUGNUT) ->
    Transition.AltNextState p trs' = Some c' ->
    produces c box c'.

(** A path of transitions, with the boxes whose rules were followed. *)
Inductive transition_path : State -> list Z -> State -> Prop :=
| path_here (c : State) : transition_path c [] c
| path_step (c : State) (box : Z) (c' : State) (boxes : list Z) (c'' : State) :
    produces c box c' -> transition_path c' boxes c'' ->
    transition_path c (box :: boxes) c''.

(** The flag at the end of a path, from the flag at its start. *)
Definition rule60_along (boxes : list Z) (before : bool) : bool :=
  fold_left (fun flag box => rule60_after box flag) boxes before.

(** ** The state space of the program *)

Global Instance legal_dec (c : State) : Decision (legal c).
Proof. unfold legal. apply _. Defined.

(** The state space that the constructor builds, computed (lemma
    [Searcher_new_table]). *)
Definition table : list Transition :=
  Eval vm_compute in default [] Searcher_new.

(** The indices of the state space. *)
Definition all_indices : list Z := map Z.of_nat (seq 0 (Z.to_nat TotalStates)).

(** The transition stored at the index of [c] has [c] as current state. *)
Definition indexed (sp : list Transition) (c : State) : Prop :=
  (i ← ComputeIndex c; t ← at_index sp i; Some (Transition.CurrentState t))
    = Some c.

Global Instance indexed_dec sp c : Decision (indexed sp c).
Proof. unfold indexed. apply _. Defined.

(** The transition stored at index [i] is that of a legal state, whose
    index is [i]. *)
Definition index_of_legal (sp : list Transition) (i : Z) : Prop :=
  (t ← at_index sp i; Some (bool_decide (legal (Transition.CurrentState t)),
                            ComputeIndex (Transition.CurrentState t)))
    = Some (true, Some i).

Global Instance index_of_legal_dec sp i : Decision (index_of_legal sp i).
Proof. unfold index_of_legal. apply _. Defined.

Global Instance Transition_eq_dec : EqDecision Transition.
Proof. solve_decision. Defined.

(** The transition stored at the index of [c] is the fresh transition of
    [c] in which the outcome for pencil 0 and then the outcome for
    pencil 1 have been stored. *)
Definition holds_outcomes (sp : list Transition) (c : State) : Prop :=
  (i ← ComputeIndex c; at_index sp i) =
  (o0 ← evaluate 0 c;
   o1 ← evaluate 1 c;
   t ← store 0 o0.1.1 o0.1.2 (fresh c);
   store 1 o1.1.1 o1.1.2 t).

Global Instance holds_outcomes_dec sp c : Decision (holds_outcomes sp c).
Proof. unfold holds_outcomes. apply _. Defined.

(** ** Invariants of the traversal *)

Definition flow_run (f : flow) : Run :=
  match f with
  | Return r => r
  | Continue r => r
  end.

(** A next state that [RecTraverse] can handle: it is illegal, or a goal,
    or it has an index in the state space. *)
Definition enterable (s : State) : bool :=
  State.IllegalP s || State.GoalP s ||
  match ComputeIndex s with
  | Some i => (0 <=? i) && (i <? TotalStates)
  | None => false
  end.

(** A transition whose next states, and valid alternate next states, can
    all be handled. *)
Definition closed (t : Transition) : bool :=
  enterable (next0 t) && enterable (next1 t) &&
  (negb (altNextValid0 t) || enterable (altNext0 t)) &&
  (negb (altNextValid1 t) || enterable (altNext1 t)).

(** [t'] is [t] with another visited counter, which, if [t] was visited,
    is still positive and not larger. *)
Definition no_deeper (t t' : Transition) : Prop :=
  t' = Transition.SetVisited (visited t') t /\
  (0 < visited t -> 0 < visited t' <= visited t).

(** What a traversal does to a run: the transitions keep everything but
    their visited counters, which obey [no_deeper]; the stack tracer
    keeps its size. *)
Definition settles (r r' : Run) : Prop :=
  Forall2 no_deeper (space r) (space r') /\
  length (stackTrace r') = length (stackTrace r).

(** A run on a state space of [TotalStates] closed transitions, with a
    stack tracer of [TRACE_ENTRIES] states. *)
Definition ready (r : Run) : Prop :=
  Z.of_nat (length (space r)) = TotalStates /\
  Forall (fun t => closed t = true) (space r) /\
  Z.of_nat (length (stackTrace r)) = TRACE_ENTRIES.

(** The states at the indices [path] have been visited at a depth less
    than [depth]. *)
Definition stamped (path : list Z) (depth : Z) (r : Run) : Prop :=
  forall i, i ∈ path ->
    exists t, at_index (space r) i = Some t /\ 0 < visited t < depth.

(** What a visit at depth [depth] or deeper writes: a visited counter
    that changes is set to [depth] or more, and it was not positive or
    was greater than what it is set to. *)
Definition written (depth : Z) (r r' : Run) : Prop :=
  forall i t t',
    at_index (space r) i = Some t -> at_index (space r') i = Some t' ->
    visited t' = visited t \/
    (depth <= visited t' /\ ~ (0 < visited t <= visited t')).

(** ** The traversal on a map

    The traversal once more, with the state space held in a map from
    indices to transitions instead of a list; it computes faster, and
    does the same (lemma [RecTraverse_sim]). *)

Module Fast.

Record Run : Type := mkRun {
  cells : Zmap Transition;
  deepest : Z;
  trace : list State;
  printed : list Output
}.

Definition set_cell (m : Zmap Transition) (i : Z) (x : Transition)
    : option (Zmap Transition) :=
  match m !! i with
  | Some _ => Some (<[i := x]> m)
  | None => None
  end.

Fixpoint cells_from (i : Z) (l : list Transition) : Zmap Transition :=
  match l with
  | [] => ∅
  | t :: l' => <[i := t]> (cells_from (i + 1) l')
  end.

Definition print (o : list Output) (r : Run) : Run :=
  {| cells := cells r; deepest := deepest r; trace := trace r;
     printed := o ++ printed r |}.

Inductive flow : Type :=
| Return (r : Run)
| Continue (r : Run).

Definition flow_run (f : flow) : Run :=
  match f with
  | Return r => r
  | Continue r => r
  end.

Definition dispatch (rec : Z -> Z -> Run -> option Run) (s : State)
    (depth : Z) (r : Run) : option flow :=
  if State.IllegalP s then
    Some (Return (print [IllegalEncountered] r))
  else if State.GoalP s then
    let r := print [GoalEncountered depth] r in
    Some (Return (print (DumpStackTrace (trace r) depth) r))
  else
    nextState ← ComputeIndex s;
    r ← rec nextState (depth + 1) r;
    Some (Continue r).

Definition pencil_body (rec : Z -> Z -> Run -> option Run)
    (index depth : Z) (pencil : Z) (r : Run) : option flow :=
  t ← cells r !! index;
  n ← Transition.NextState pencil t;
  f ← dispatch rec n depth r;
  match f with
  | Return r => Some (Return r)
  | Continue r =>
    t ← cells r !! index;
    valid ← Transition.AltNextValidP pencil t;
    if (valid : bool) then
      a ← Transition.AltNextState pencil t;
      dispatch rec a depth r
    else Some (Continue r)
  end.

Fixpoint for_pencils (body : Z -> Run -> option flow) (pencils : list Z)
    (r : Run) : option Run :=
  match pencils with
  | [] => Some r
  | pencil :: rest =>
    f ← body pencil r;
    match f with
    | Return r => Some r
    | Continue r => for_pencils body rest r
    end
  end.

Definition record_visit (index depth : Z) (t : Transition) (r : Run)
    : option Run :=
  sp ← set_cell (cells r) index (Transition.SetVisited depth t);
  let r := {| cells := sp; deepest := deepest r; trace := trace r;
              printed := printed r |} in
  let r := if deepest r <? depth
           then {| cells := cells r; deepest := depth; trace := trace r;
                   printed := printed r |}
           else r in
  if depth <=? TRACE_ENTRIES
  then st ← set_index (trace r) (depth - 1) (Transition.CurrentState t);
       Some {| cells := cells r; deepest := deepest r; trace := st;
               printed := printed r |}
  else Some r.

Fixpoint RecTraverse (fuel : nat) (index depth : Z) (r : Run) : option Run :=
  match fuel with
  | O => None
  | S fuel' =>
    t ← cells r !! index;
    if (Transition.Visited t >? 0) && (Transition.Visited t <=? depth)
    then Some r
    else
      r ← record_visit index depth t r;
      for_pencils (pencil_body (RecTraverse fuel') index depth) [0; 1] r
  end.

End Fast.

(** The run [r], with its state space put in a map. *)
Definition fast_of (r : Run) : Fast.Run :=
  {| Fast.cells := Fast.cells_from 0 (space r);
     Fast.deepest := maxDepth r;
     Fast.trace := stackTrace r;
     Fast.printed := output r |}.

(** The two runs hold the same. *)
Definition sim (r : Run) (f : Fast.Run) : Prop :=
  (forall i, at_index (space r) i = Fast.cells f !! i) /\
  maxDepth r = Fast.deepest f /\
  stackTrace r = Fast.trace f /\
  output r = Fast.printed f.

Definition sim_flow (a : flow) (b : Fast.flow) : Prop :=
  match a, b with
  | Return r, Fast.Return f => sim r f
  | Continue r, Fast.Continue f => sim r f
  | _, _ => False
  end.

(** Two results that both are [None], or are related by [R]. *)
Definition opt_rel {A B : Type} (R : A -> B -> Prop) (a : option A)
    (b : option B) : Prop :=
  match a, b with
  | Some x, Some y => R x y
  | None, None => True
  | _, _ => False
  end.

(** ** The run of the program *)

(** The index of the start state of [StartTraversal]: pencil 0 on box 1,
    pencil 1 on box 7, nothing moved, rule 60 off. *)
Definition start_index : Z := 6.

(** The run of the program on the map: the first run, the run after the
    start state has been recorded at depth 1, after the loop body of
    pencil 0, and after the loop body of pencil 1, computed (lemmas
    [fast_first_spec] to [fast_end_spec]). *)
Definition fast_first : Fast.Run :=
  Eval vm_compute in fast_of (first_run table).

Definition fast_start : Fast.Run :=
  Eval vm_compute in
    default fast_first
      (t ← Fast.cells fast_first !! start_index;
       Fast.record_visit start_index 1 t fast_first).

Definition fast_mid : Fast.Run :=
  Eval vm_compute in
    default fast_first
      (Fast.flow_run <$>
         Fast.pencil_body (Fast.RecTraverse 272) start_index 1 0 fast_start).

Definition fast_end : Fast.Run :=
  Eval vm_compute in
    default fast_first
      (Fast.flow_run <$>
         Fast.pencil_body (Fast.RecTraverse 272) start_index 1 1 fast_mid).

Definition is_goal (o : Output) : bool :=
  match o with
  | GoalEncountered _ => true
  | _ => false
  end.

Definition is_illegal (o : Output) : bool :=
  match o with
  | IllegalEncountered => true
  | _ => false
  end.

(** The visited counter of the transition at [index], 0 outside the
    state space. *)
Definition visited_at (r : Run) (index : Z) : Z :=
  default 0 (Transition.Visited <$> at_index (space r) index).

(** ** The visit that goes on after an illegal state

    The visit as the specification describes it: an illegal next state
    is reported and the visit goes on with what follows.  The program
    returns instead. *)

Definition dispatch_going_on (rec : Z -> Z -> Run -> option Run) (s : State)
    (depth : Z) (r : Run) : option flow :=
  if State.IllegalP s then
    Some (Continue (print [IllegalEncountered] r))
  else dispatch rec s depth r.

Definition pencil_body_going_on (rec : Z -> Z -> Run -> option Run)
    (index depth : Z) (pencil : Z) (r : Run) : option flow :=
  t ← at_index (space r) index;
  n ← Transition.NextState pencil t;
  f ← dispatch_going_on rec n depth r;
  match f with
  | Return r => Some (Return r)
  | Continue r =>
    t ← at_index (space r) index;
    valid ← Transition.AltNextValidP pencil t;
    if (valid : bool) then
      a ← Transition.AltNextState pencil t;
      dispatch_going_on rec a depth r
    else Some (Continue r)
  end.

Fixpoint RecTraverse_going_on (fuel : nat) (index depth : Z) (r : Run)
    : option Run :=
  match fuel with
  | O => None
  | S fuel' =>
    t ← at_index (space r) index;
    if (Transition.Visited t >? 0) && (Transition.Visited t <=? depth)
    then Some r
    else
      r ← record_visit index depth t r;
      for_pencils (pencil_body_going_on (RecTraverse_going_on fuel') index depth)
        [0; 1] r
  end.

(** The index of the state with both pencils on box 26, nothing moved,
    rule 60 off. *)
Definition embrace_index : Z := 238.


(** ** Further properties of one rule evaluation *)

(** The pencil number and the box are ones that [State::SetPencil]
    accepts. *)
Definition settable (p x : Z) : Prop :=
  (p = 0 \/ p = 1) /\
  (x ∈ MAZEPOINT \/ x = GOAL_MAZEPOINT \/ x = ILLEGAL_MAZEPOINT).

(** The outcome is the one that [evaluate] computes. *)
Definition is_outcome (p : Z) (c : State) (o : outcome) : Prop :=
  evaluate p c = Some o.

Global Instance is_outcome_dec p c o : Decision (is_outcome p c o).
Proof. unfold is_outcome. apply _. Defined.

(** One move reaches the goal: the chosen pencil is on box 50 and rule 60
    is on or the other pencil is on box 50 too; or the chosen pencil is
    on box 61 with rule 60 off and moves the other pencil from box 50. *)
Definition goal_move (p : Z) (c : State) : Prop :=
  (State.Pencil p c = Some 50 /\
   (State.Rule60P c = true \/ State.Pencil (other p) c = Some 50)) \/
  (State.Pencil p c = Some 61 /\ State.Rule60P c = false /\
   State.Pencil (other p) c = Some 50).

(** What kind of state the next state is: illegal exactly in the deadly
    embrace, a goal exactly after a goal move, and a legal state
    otherwise; an alternate next state is legal. *)
Definition next_kind (p : Z) (c : State) (o : outcome) : Prop :=
  (State.IllegalP o.1.1 = true <-> embrace c) /\
  (State.GoalP o.1.1 = true <-> goal_move p c) /\
  (State.IllegalP o.1.1 = false -> State.GoalP o.1.1 = false -> legal o.1.1) /\
  (o.2 = PATH_LUGNUT -> is_Some o.1.2) /\
  from_option legal True o.1.2.

Global Instance next_kind_dec p c o : Decision (next_kind p c o).
Proof.
  unfold next_kind, embrace, goal_move.
  destruct o as [[n [a|]] path]; simpl; apply _.
Defined.

(** The other pencil stays on its box, except in the deadly embrace and
    in the cross move of box 61 with rule 60 off. *)
Definition other_stays (p : Z) (c : State) (o : outcome) : Prop :=
  ~ embrace c ->
  ~ (State.Pencil p c = Some 61 /\ State.Rule60P c = false) ->
  State.Pencil (other p) o.1.1 = State.Pencil (other p) c /\
  (o.2 = PATH_LUGNUT -> is_Some o.1.2) /\
  from_option
    (fun a => State.Pencil (other p) a = State.Pencil (other p) c) True o.1.2.

Global Instance other_stays_dec p c o : Decision (other_stays p c o).
Proof.
  unfold other_stays, embrace. destruct o as [[n [a|]] path]; simpl; apply _.
Defined.

(** The exits: on the paths Yes and Lugnut the chosen pencil of the next
    state is on the box that [GetYesPath] gives for its box; on the path
    No it is on another box, one of the sixteen (a box that has an
    index); the path is one of the four codes. *)
Definition exits (p : Z) (c : State) (o : outcome) : Prop :=
  (o.2 = PATH_YES \/ o.2 = PATH_NO \/ o.2 = PATH_LUGNUT \/ o.2 = PATH_NONE) /\
  (o.2 = PATH_YES \/ o.2 = PATH_LUGNUT ->
     State.Pencil p o.1.1 = State.Pencil p c ≫= GetYesPath) /\
  (o.2 = PATH_NO ->
     State.Pencil p o.1.1 <> State.Pencil p c ≫= GetYesPath /\
     is_Some (State.Pencil p o.1.1 ≫= State.GetMazePointIndex)).

Global Instance exits_dec p c o : Decision (exits p c o).
Proof. unfold exits. apply _. Defined.

(** The state [c] with the rule 60 flag turned over. *)
Definition flip_rule60 (c : State) : State :=
  State.SetRule60 (negb (State.Rule60P c)) c.

(** An outcome without its rule 60 flags. *)
Definition without_rule60 (o : outcome) : outcome :=
  (State.SetRule60 false o.1.1, State.SetRule60 false <$> o.1.2, o.2).

(** Rule 60 on: a pencil on a box with red or green text leaves through
    Yes. *)
Definition rule60_override (p : Z) (c : State) (o : outcome) : Prop :=
  State.Rule60P c = true ->
  HasBoxRedTextOrGreenTextP <$> State.Pencil p c = Some true ->
  o.2 = PATH_YES /\
  State.Pencil p o.1.1 = State.Pencil p c ≫= GetYesPath.

Global Instance rule60_override_dec p c o : Decision (rule60_override p c o).
Proof. unfold rule60_override. apply _. Defined.

(** On the other boxes the rule makes no difference but for the flag of
    the states produced. *)
Definition rule60_unread (p : Z) (c : State) (o : outcome) : Prop :=
  is_outcome p c o /\
  (HasBoxRedTextOrGreenTextP <$> State.Pencil p c = Some false ->
   without_rule60 <$> evaluate p (flip_rule60 c) = Some (without_rule60 o)).

Global Instance rule60_unread_dec p c o : Decision (rule60_unread p c o).
Proof. unfold rule60_unread. apply _. Defined.

(** Box 26 with rule 60 off, the other pencil not on box 26: the chosen
    pencil goes to box 61 through Yes if the rule of the other pencil
    takes the path No, and to box 55 through No otherwise. *)
Definition asks_the_other (p : Z) (c : State) (o : outcome) : Prop :=
  State.Pencil p c = Some 26 -> State.Rule60P c = false ->
  State.Pencil (other p) c <> Some 26 ->
  is_Some (evaluate (other p) c) /\
  (snd <$> evaluate (other p) c = Some PATH_NO ->
     o.2 = PATH_YES /\ State.Pencil p o.1.1 = Some 61) /\
  (snd <$> evaluate (other p) c <> Some PATH_NO ->
     o.2 = PATH_NO /\ State.Pencil p o.1.1 = Some 55).

Global Instance asks_the_other_dec p c o : Decision (asks_the_other p c o).
Proof. unfold asks_the_other. apply _. Defined.

(** ** The stack traces that the traversal prints *)

(** [link sp s s']: the state space [sp] holds a transition of current
    state [s] that has [s'] as a next state, or as a valid alternate
    next state. *)
Definition link (sp : list Transition) (s s' : State) : Prop :=
  exists i t p,
    at_index sp i = Some t /\ Transition.CurrentState t = s /\
    (Transition.NextState p t = Some s' \/
     (Transition.AltNextValidP p t = Some true /\
      Transition.AltNextState p t = Some s')).

(** A list of states in which each state is related to the one that
    follows. *)
Inductive chain (R : State -> State -> Prop) : list State -> Prop :=
| chain_nil : chain R []
| chain_one (s : State) : chain R [s]
| chain_cons (s s' : State) (l : list State) :
    R s s' -> chain R (s' :: l) -> chain R (s :: s' :: l).

(** The run [r] is on the state space [sp], the visited counters apart,
    and has a stack tracer of [TRACE_ENTRIES] states. *)
Definition tracing (sp : list Transition) (r : Run) : Prop :=
  Forall2 (fun t0 t => t = Transition.SetVisited (visited t) t0) sp (space r) /\
  Z.of_nat (length (stackTrace r)) = TRACE_ENTRIES.

(** Every transition of [sp] is stored at the index of its current
    state. *)
Definition indexed_space (sp : list Transition) : Prop :=
  forall i t, at_index sp i = Some t ->
    ComputeIndex (Transition.CurrentState t) = Some i.

(** What is printed by a visit at depth [depth] or deeper, when the
    stack tracer holds [pre] on entry: a stack trace has the depth of a
    visit as its length, starts with [pre], follows the transitions of
    [sp], and its last state has a goal as a next state. *)
Definition solution (sp : list Transition) (depth : Z) (pre : list State)
    (o : Output) : Prop :=
  match o with
  | StackTrace d trace =>
    depth <= d <= 37 /\ Z.of_nat (length trace) = d /\
    pre `prefix_of` trace /\ chain (link sp) trace /\
    exists s g, last trace = Some s /\ link sp s g /\ State.GoalP g = true
  | _ => True
  end.

(** What a visit does to the stack tracer and to the output: the first
    [keep] entries of the stack tracer stay, and the output grows at its
    front by messages and by stack traces that are solutions. *)
Definition traces (sp : list Transition) (depth : Z) (pre : list State)
    (keep : Z) (r r' : Run) : Prop :=
  take (Z.to_nat keep) (stackTrace r') = take (Z.to_nat keep) (stackTrace r) /\
  exists new, output r' = new ++ output r /\ Forall (solution sp depth pre) new.

(** What every visit does, whatever the stack tracer holds: the first
    [keep] entries of the stack tracer stay, and the output grows at its
    front. *)
Definition kept (keep : Z) (r r' : Run) : Prop :=
  take (Z.to_nat keep) (stackTrace r') = take (Z.to_nat keep) (stackTrace r) /\
  exists new, output r' = new ++ output r.

(** One move of the puzzle: the rule of the box of one of the pencils is
    followed. *)
Definition move (s s' : State) : Prop := exists box, produces s box s'.

(** A solution of the puzzle from [start]: a list of states, the first
    one [start], each one a move from the one before, and the goal one
    move from the last. *)
Definition is_solution (start : State) (trace : list State) : Prop :=
  head trace = Some start /\ chain move trace /\
  exists s g, last trace = Some s /\ move s g /\ State.GoalP g = true.

(** A printed stack trace is a solution of the puzzle from [start], of
    at most 37 states. *)
Definition printed_solution (start : State) (o : Output) : Prop :=
  match o with
  | StackTrace depth trace =>
    1 <= depth <= 37 /\ Z.of_nat (length trace) = depth /\
    is_solution start trace
  | _ => True
  end.

(** ** The maximal depth *)

(** No visited counter of the run is above its maximal depth. *)
Definition bounded (r : Run) : Prop :=
  Forall (fun t => visited t <= maxDepth r) (space r).

(** The depth that a message reports lies between [depth] and [top]. *)
Definition reported (depth top : Z) (o : Output) : Prop :=
  match o with
  | IllegalEncountered => True
  | GoalEncountered d => depth <= d <= top
  | StackTrace d _ => depth <= d <= top
  end.

(** What a visit at depth [depth] or deeper does to the maximal depth:
    it does not go down, it stays above the visited counters, and it is
    at least the depth of every message added to the output. *)
Definition deepens (depth : Z) (r r' : Run) : Prop :=
  maxDepth r <= maxDepth r' /\
  (bounded r -> bounded r') /\
  exists new,
    output r' = new ++ output r /\
    Forall (reported depth (maxDepth r')) new.

(** ** Searcher::DumpTransitions *)

(** The statements that open the body of the innermost loop, in
    [DumpTransitions] as in [EnumerateTransitions]: the state of the
    loop variables is built. *)
Definition loop_state (pencil0mv pencil1mv : bool) (curP0 curP1 : Z)
    (curR60 : bool) : option State :=
  let current := State.new in
  mp0 ← at_index MAZEPOINT curP0;
  current ← State.SetPencil 0 mp0 current;
  mp1 ← at_index MAZEPOINT curP1;
  current ← State.SetPencil 1 mp1 current;
  let current := State.SetRule60 curR60 current in
  current ← State.SetMovement 0 pencil0mv current;
  State.SetMovement 1 pencil1mv current.

(** The body of the innermost loop; [os] is what has been printed, the
    latest line first: each line is one transition. *)
Definition dump_body (pencil0mv pencil1mv : bool) (curP0 curP1 : Z)
    (curR60 : bool) (space : list Transition) (os : list Transition)
    : option (list Transition) :=
  current ← loop_state pencil0mv pencil1mv curP0 curP1 curR60;
  index ← ComputeIndex current;
  (* assert(index<TotalStates()) *)
  if negb (index <? TotalStates) then None else
  t ← at_index space index;
  if Transition.Visited t >? 0 then Some (t :: os) else Some os.

Definition DumpTransitions (space : list Transition)
    : option (list Transition) :=
  loop (fun pencil0mv =>
    loop (fun pencil1mv =>
      loop (fun curP0 =>
        loop (fun curP1 =>
          loop (fun curR60 =>
            dump_body pencil0mv pencil1mv curP0 curP1 curR60 space)
            [true; false])
          indices)
        indices)
      [true; false])
    [true; false] [].

(** The legal states in the order of their indices. *)
Definition states_by_index : list State :=
  m0 ← [false; true];
  m1 ← [false; true];
  p0 ← indices;
  p1 ← indices;
  r ← [false; true];
  [mkState p0 p1 r m0 m1].

(** The transitions that the state space [sp] holds for the states [l]. *)
Definition entries (sp : list Transition) (l : list State) : list Transition :=
  omap (fun c => ComputeIndex c ≫= at_index sp) l.

(** [main]: build the state space, traverse it, dump the transitions;
    the result is the final run and the dump. *)
Definition main (fuel : nat) : option (Run * list Transition) :=
  x ← Searcher_new;
  r ← StartTraversal fuel x;
  os ← DumpTransitions (space r);
  Some (r, os).

(** ** The shortest solution *)

(** The depth at which the state [s] was first seen in the run of the
    program, 0 if it was not seen. *)
Definition final_depth (s : State) : Z :=
  default 0 (i ← ComputeIndex s;
             t ← Fast.cells fast_end !! i;
             Some (Transition.Visited t)).

(** The next states of a transition, the valid alternate ones
    included. *)
Definition successors (t : Transition) : list State :=
  [next0 t] ++ (if altNextValid0 t then [altNext0 t] else []) ++
  [next1 t] ++ (if altNextValid1 t then [altNext1 t] else []).

(** In the run of the program, every next state of the state of index
    [i], if that state was seen, is illegal, a goal, or a state first
    seen at most one deeper. *)
Definition closed_at (i : Z) : bool :=
  match Fast.cells fast_end !! i with
  | None => false
  | Some t =>
    if 0 <? visited t then
      forallb (fun n =>
        State.IllegalP n || State.GoalP n ||
        ((0 <? final_depth n) && (final_depth n <=? visited t + 1)))
        (successors t)
    else true
  end.

(** In the run of the program, the state of index [i], if it was seen
    and has a goal among its next states, was first seen at depth 37 or
    deeper. *)
Definition goal_not_before_37 (i : Z) : bool :=
  match Fast.cells fast_end !! i with
  | None => false
  | Some t =>
    if (0 <? visited t) && existsb State.GoalP (successors t)
    then 37 <=? visited t
    else true
  end.

Global Instance Output_eq_dec : EqDecision Output.
Proof. solve_decision. Defined.

(** The stack traces of depth 37 that the program prints, and the first
    of them. *)
Definition traces_of_37 (os : list Output) : list (list State) :=
  omap (fun o => match o with
                 | StackTrace 37 trace => Some trace
                 | _ => None
                 end) os.

Definition shortest_solution : list State :=
  Eval vm_compute in default [] (head (traces_of_37 (Fast.printed fast_end))).

(** ** The visited counters are depths of paths *)

(** A chain of [n] states, from [start] to [s], by the relation [R]. *)
Definition path_to (R : State -> State -> Prop) (start : State) (n : Z)
    (s : State) : Prop :=
  exists l,
    Z.of_nat (length l) = n /\ head l = Some start /\ last l = Some s /\
    chain R l.

(** Every visited transition of the run has a path of transitions of
    [sp] from [start] to its current state, as long as its visited
    counter. *)
Definition justified (sp : list Transition) (start : State) (r : Run) : Prop :=
  forall i t,
    at_index (space r) i = Some t -> 0 < visited t ->
    path_to (link sp) start (visited t) (Transition.CurrentState t).
(** ** The legal states *)

Lemma index_cases (i : Z) :
  0 <= i < MAZEPOINT_COUNT -> In i indices.
Proof.
  unfold MAZEPOINT_COUNT, indices. intros H. simpl.
  assert (Hi : i = 0 \/ i = 1 \/ i = 2 \/ i = 3 \/ i = 4 \/ i = 5 \/ i = 6 \/ i = 7 \/
          i = 8 \/ i = 9 \/ i = 10 \/ i = 11 \/ i = 12 \/ i = 13 \/ i = 14 \/ i = 15) by lia.
  intuition auto.
Qed.

Lemma legal_all_states s : legal s -> s ∈ all_states.
Proof.
  intros [H0 H1]. destruct s as [p0 p1 r m0 m1]; simpl in *.
  apply index_cases in H0, H1.
  unfold all_states.
  apply list_elem_of_bind. exists m0. split; [|destruct m0; repeat constructor].
  apply list_elem_of_bind. exists m1. split; [|destruct m1; repeat constructor].
  apply list_elem_of_bind. exists p0. split; [|by apply list_elem_of_In].
  apply list_elem_of_bind. exists p1. split; [|by apply list_elem_of_In].
  apply list_elem_of_bind. exists r. split; [|destruct r; repeat constructor].
  constructor.
Qed.

Lemma all_states_forallb (P : State -> bool) :
  forallb P all_states = true -> forall s, legal s -> P s = true.
Proof.
  intros H s Hs. rewrite forallb_forall in H.
  apply H, list_elem_of_In, legal_all_states, Hs.
Qed.

Lemma length_all_states : length all_states = 2048%nat.
Proof. reflexivity. Qed.

(** A pencil that is stored as an index is on one of the sixteen boxes. *)
Lemma Pencil_of_index (p : Z) (c : State) :
  p = 0 \/ p = 1 ->
  0 <= State.raw p c < MAZEPOINT_COUNT ->
  exists x, State.Pencil p c = Some x /\ x ∈ MAZEPOINT.
Proof.
  intros Hp Hr. unfold State.Pencil.
  replace (check_pencil p) with (Some tt) by (destruct Hp as [-> | ->]; reflexivity).
  generalize dependent (State.raw p c). intros i Hi.
  apply index_cases in Hi. simpl in Hi.
  repeat (destruct Hi as [Hi | Hi];
          [subst i; eexists; split; [reflexivity | repeat constructor] | ]).
  destruct Hi.
Qed.

(** ** [DetermineNextStates] reads the current state only *)

(** On a legal state the function returns, with any fuel from 2 on, and
    what it does to the transition is to store the outcome of
    [evaluate]. *)
Lemma DetermineNextStates_frame (fuel : nat) (chosenPencil : Z) (trs : Transition) :
  chosenPencil = 0 \/ chosenPencil = 1 ->
  legal (current trs) ->
  DetermineNextStates_fuel (S (S fuel)) chosenPencil trs =
    o ← evaluate chosenPencil (current trs);
    trs' ← store chosenPencil o.1.1 o.1.2 trs;
    Some (trs', o.2).
Proof.
  intros Hp [H0 H1].
  destruct trs as [[p0 p1 r m0 m1] n0 n1 a0 a1 v av0 av1]; simpl in H0, H1.
  apply index_cases in H0, H1. simpl in H0, H1.
  repeat (destruct H0 as [H0 | H0]; [symmetry in H0; subst p0 | ]);
    [ .. | destruct H0];
    (repeat (destruct H1 as [H1 | H1]; [symmetry in H1; subst p1 | ]);
     [ .. | destruct H1]);
    destruct Hp as [-> | ->]; destruct r, m0, m1; vm_compute; reflexivity.
Qed.

(** Two levels of calls are enough on a legal state. *)
Lemma DetermineNextStates_fuel_enough (fuel : nat) (chosenPencil : Z)
    (trs : Transition) :
  chosenPencil = 0 \/ chosenPencil = 1 ->
  legal (current trs) ->
  DetermineNextStates_fuel (S (S fuel)) chosenPencil trs
    = DetermineNextStates chosenPencil trs.
Proof.
  intros Hp Hl. unfold DetermineNextStates.
  rewrite !DetermineNextStates_frame by assumption. reflexivity.
Qed.

Lemma store_spec (p : Z) (n : State) (a : option State) (trs trs' : Transition) :
  store p n a trs = Some trs' ->
  Transition.NextState p trs' = Some n /\
  current trs' = current trs /\ visited trs' = visited trs /\
  match a with
  | Some x =>
    Transition.AltNextState p trs' = Some x /\
    Transition.AltNextValidP p trs' = Some true
  | None =>
    altNextValid0 trs' = altNextValid0 trs /\
    altNextValid1 trs' = altNextValid1 trs /\
    altNext0 trs' = altNext0 trs /\ altNext1 trs' = altNext1 trs
  end.
Proof.
  unfold store, Transition.SetNextState, Transition.SetAltNextState,
    Transition.NextState, Transition.AltNextState, Transition.AltNextValidP.
  destruct (check_pencil p) as [[]|]; simpl; [|discriminate].
  destruct a as [x|]; simpl; intros [= <-]; destruct (p =? 0); simpl;
    repeat split; reflexivity.
Qed.

(** Every rule evaluation on a legal state returns, and a property
    checked on the 2048 states holds of what it stores. *)
Lemma outcomes_all_spec (P : Z -> State -> State * option State * Z -> Prop)
    `{!forall p c o, Decision (P p c o)} :
  outcomes_all P = true ->
  forall (p : Z) (trs : Transition),
    p = 0 \/ p = 1 -> legal (current trs) ->
    exists n a path trs',
      DetermineNextStates p trs = Some (trs', path) /\
      store p n a trs = Some trs' /\
      P p (current trs) (n, a, path).
Proof.
  intros Hall p trs Hp Hl. unfold outcomes_all in Hall.
  rewrite forallb_forall in Hall.
  specialize (Hall _ (proj1 (list_elem_of_In _ _) (legal_all_states _ Hl))).
  rewrite forallb_forall in Hall.
  assert (Hin : In p [0; 1]) by (simpl; intuition auto).
  specialize (Hall p Hin).
  pose proof (DetermineNextStates_frame 0 p trs Hp Hl) as Hf.
  fold (DetermineNextStates p trs) in Hf.
  destruct (evaluate p (current trs)) as [[[n a] path]|]; [|discriminate].
  apply bool_decide_eq_true in Hall. simpl in Hf.
  assert (Hs : is_Some (store p n a trs)).
  { unfold store, Transition.SetNextState, Transition.SetAltNextState.
    destruct Hp as [-> | ->]; destruct a; simpl; eauto. }
  destruct Hs as [trs' Hs]. rewrite Hs in Hf. simpl in Hf.
  exists n, a, path, trs'. auto.
Qed.

(** ** The rules of the boxes *)

Lemma both_at_26_checked : outcomes_all both_at_26 = true.
Proof. vm_compute. reflexivity. Qed.

Lemma choice_at_55_checked : outcomes_all choice_at_55 = true.
Proof. vm_compute. reflexivity. Qed.

Lemma cross_move_at_61_checked : outcomes_all cross_move_at_61 = true.
Proof. vm_compute. reflexivity. Qed.

Lemma movement_flags_checked : outcomes_all movement_flags = true.
Proof. vm_compute. reflexivity. Qed.

Lemma Pencil_on_box (p : Z) (c : State) (x : Z) :
  State.Pencil p c = Some x -> x <> ILLEGAL_MAZEPOINT -> x <> GOAL_MAZEPOINT ->
  0 <= State.raw p c < MAZEPOINT_COUNT.
Proof.
  unfold State.Pencil, at_index. destruct (check_pencil p); simpl; [|discriminate].
  destruct (_ || _) eqn:E.
  - intros [= <-] H1 H2. apply orb_true_iff in E as [E|E]; apply Z.eqb_eq in E; contradiction.
  - destruct (State.raw p c <? 0) eqn:E'; [discriminate|].
    intros H _ _. apply lookup_lt_Some in H. simpl in H.
    apply Z.ltb_ge in E'. unfold MAZEPOINT_COUNT. lia.
Qed.

Lemma both_on_boxes_legal (c : State) (x y : Z) :
  State.Pencil 0 c = Some x -> State.Pencil 1 c = Some y ->
  x <> ILLEGAL_MAZEPOINT -> x <> GOAL_MAZEPOINT ->
  y <> ILLEGAL_MAZEPOINT -> y <> GOAL_MAZEPOINT ->
  legal c.
Proof.
  intros H0 H1 ? ? ? ?. split.
  - apply (Pencil_on_box 0 c x); assumption.
  - apply (Pencil_on_box 1 c y); assumption.
Qed.

(** The legal states are those with both pencils on one of the sixteen
    boxes. *)
Lemma legal_iff (c : State) :
  legal c <->
  exists x y,
    State.Pencil 0 c = Some x /\ State.Pencil 1 c = Some y /\
    x ∈ MAZEPOINT /\ y ∈ MAZEPOINT.
Proof.
  split.
  - intros [H0 H1].
    destruct (Pencil_of_index 0 c (or_introl eq_refl) H0) as (x & Hx & Hxin).
    destruct (Pencil_of_index 1 c (or_intror eq_refl) H1) as (y & Hy & Hyin).
    exists x, y. auto.
  - intros (x & y & Hx & Hy & Hxin & Hyin).
    assert (Hno : forall z, z ∈ MAZEPOINT ->
                    z <> ILLEGAL_MAZEPOINT /\ z <> GOAL_MAZEPOINT).
    { unfold MAZEPOINT. intros z Hz.
      repeat (apply elem_of_cons in Hz as [-> | Hz]; [split; discriminate|]).
      inversion Hz. }
    destruct (Hno x Hxin), (Hno y Hyin).
    apply (both_on_boxes_legal c x y); assumption.
Qed.

(** C4, as stated, fails with rule 60 on: both pencils are on box 26, and
    choosing pencil 0 takes the path Yes to box 61; no pencil of the next
    state is illegal. *)
Lemma both_at_26_rule60_is_no_deadlock :
  let c := {| pencil0 := 7; pencil1 := 7; rule60active := true;
              pencilMoved0 := false; pencilMoved1 := false |} in
  State.Pencil 0 c = Some 26 /\ State.Pencil 1 c = Some 26 /\
  exists trs' n,
    DetermineNextStates 0 (fresh c) = Some (trs', PATH_YES) /\
    PATH_YES <> PATH_NONE /\
    Transition.NextState 0 trs' = Some n /\
    State.Pencil 0 n = Some 61 /\ State.Pencil 1 n = Some 26 /\
    State.IllegalP n = false.
Proof.
  simpl. split; [reflexivity|]. split; [reflexivity|].
  eexists. eexists. split; [vm_compute; reflexivity|].
  split; [discriminate|]. repeat split.
Qed.

(** C4, amended: with both pencils on box 26 and rule 60 off, evaluating
    either pencil is a deadly embrace, PATH_NONE, and both pencils of the
    next state are on ILLEGAL_MAZEPOINT; with rule 60 on, the chosen
    pencil takes Yes to box 61 and the other pencil stays on box 26. *)
Theorem both_at_26_deadlock_unless_rule60 (p : Z) (trs : Transition) :
  p = 0 \/ p = 1 ->
  State.Pencil 0 (current trs) = Some 26 ->
  State.Pencil 1 (current trs) = Some 26 ->
  exists trs' path n,
    DetermineNextStates p trs = Some (trs', path) /\
    Transition.NextState p trs' = Some n /\
    (State.Rule60P (current trs) = false ->
       path = PATH_NONE /\
       State.Pencil 0 n = Some ILLEGAL_MAZEPOINT /\
       State.Pencil 1 n = Some ILLEGAL_MAZEPOINT) /\
    (State.Rule60P (current trs) = true ->
       path = PATH_YES /\
       State.Pencil p n = Some 61 /\ State.Pencil (other p) n = Some 26).
Proof.
  intros Hp H0 H1.
  assert (Hl : legal (current trs))
    by (apply (both_on_boxes_legal _ 26 26); auto; discriminate).
  destruct (outcomes_all_spec both_at_26 both_at_26_checked p trs Hp Hl)
    as (n & a & path & trs' & Hd & Hs & HP).
  apply store_spec in Hs as (Hn & _).
  unfold both_at_26 in HP. simpl in HP.
  destruct (HP H0 H1) as [Hoff Hon].
  exists trs', path, n. split; [exact Hd|]. split; [exact Hn|]. split.
  - intros Hr. destruct (Hoff Hr) as (? & _ & ? & ?). auto.
  - intros Hr. destruct (Hon Hr) as (? & _ & ? & ?). auto.
Qed.

Lemma both_at_26_deadlock_unless_rule60_witness :
  exists trs' path n,
    DetermineNextStates 0 (fresh (mkState 7 7 false true false)) = Some (trs', path) /\
    Transition.NextState 0 trs' = Some n /\
    (false = false ->
       path = PATH_NONE /\
       State.Pencil 0 n = Some ILLEGAL_MAZEPOINT /\
       State.Pencil 1 n = Some ILLEGAL_MAZEPOINT) /\
    (false = true ->
       path = PATH_YES /\
       State.Pencil 0 n = Some 61 /\ State.Pencil (other 0) n = Some 26).
Proof.
  apply (both_at_26_deadlock_unless_rule60 0 (fresh (mkState 7 7 false true false)));
    [left; reflexivity | reflexivity | reflexivity].
Defined.

(** C5: on a legal state every evaluation returns; when the chosen pencil
    is on box 55 the path is PATH_LUGNUT, the next state has the chosen
    pencil on box 15, the alternate next state is valid and is the next
    state with the chosen pencil put on box 7 instead; on any other box
    the path is not PATH_LUGNUT and both alternate-valid flags of the
    transition are left as they were. *)
Theorem box_55_is_the_only_choice (p : Z) (trs : Transition) :
  p = 0 \/ p = 1 ->
  legal (current trs) ->
  exists trs' path n,
    DetermineNextStates p trs = Some (trs', path) /\
    Transition.NextState p trs' = Some n /\
    (State.Pencil p (current trs) = Some 55 ->
       path = PATH_LUGNUT /\
       State.Pencil p n = Some 15 /\
       Transition.AltNextValidP p trs' = Some true /\
       exists a,
         Transition.AltNextState p trs' = Some a /\
         State.Pencil p a = Some 7 /\
         State.SetPencil p 7 n = Some a) /\
    (State.Pencil p (current trs) <> Some 55 ->
       path <> PATH_LUGNUT /\
       altNextValid0 trs' = altNextValid0 trs /\
       altNextValid1 trs' = altNextValid1 trs).
Proof.
  intros Hp Hl.
  destruct (outcomes_all_spec choice_at_55 choice_at_55_checked p trs Hp Hl)
    as (n & a & path & trs' & Hd & Hs & H55 & Hne).
  apply store_spec in Hs as (Hn & _ & _ & Ha). simpl in H55, Hne.
  exists trs', path, n. split; [exact Hd|]. split; [exact Hn|]. split.
  - intros Hb. destruct (H55 Hb) as (Hpath & H15 & [x Hx] & Hset & H7).
    rewrite Hx in Ha, Hset, H7. destruct Ha as [Ha Hv]. simpl in H7.
    repeat split; auto. exists x. auto.
  - intros Hb. destruct (Hne Hb) as [Hpath ->].
    destruct Ha as (? & ? & _). auto.
Qed.

Lemma box_55_is_the_only_choice_witness :
  exists trs' path n,
    DetermineNextStates 1 (fresh (mkState 0 11 false false false)) = Some (trs', path) /\
    Transition.NextState 1 trs' = Some n /\
    (Some 55 = Some 55 ->
       path = PATH_LUGNUT /\
       State.Pencil 1 n = Some 15 /\
       Transition.AltNextValidP 1 trs' = Some true /\
       exists a,
         Transition.AltNextState 1 trs' = Some a /\
         State.Pencil 1 a = Some 7 /\
         State.SetPencil 1 7 n = Some a) /\
    (Some 55 <> Some 55 ->
       path <> PATH_LUGNUT /\
       altNextValid0 trs' = false /\
       altNextValid1 trs' = false).
Proof.
  apply (box_55_is_the_only_choice 1 (fresh (mkState 0 11 false false false)));
    [right; reflexivity | unfold legal, MAZEPOINT_COUNT; simpl; lia].
Defined.

(** On the sixteen boxes the table of [GetYesPath] is the table of the
    specification. *)
Lemma GetYesPath_jump (x : Z) : x ∈ MAZEPOINT -> GetYesPath x = jump x.
Proof.
  unfold MAZEPOINT. intros Hin.
  repeat (apply elem_of_cons in Hin as [-> | Hin]; [reflexivity|]).
  inversion Hin.
Qed.

(** C6: with the chosen pencil on box 61 the evaluation takes Yes; the
    chosen pencil of the next state is on box 1 and has moved.  With rule
    60 off the other pencil is on the box that the lookup table gives for
    the box [b] it was on, and has moved; with rule 60 on the other
    pencil is still on [b] and has not moved. *)
Theorem box_61_moves_the_other_pencil (p : Z) (trs : Transition) (b : Z) :
  p = 0 \/ p = 1 ->
  legal (current trs) ->
  State.Pencil p (current trs) = Some 61 ->
  State.Pencil (other p) (current trs) = Some b ->
  exists trs' n,
    DetermineNextStates p trs = Some (trs', PATH_YES) /\
    Transition.NextState p trs' = Some n /\
    State.Pencil p n = Some 1 /\
    State.MovementP p n = Some true /\
    (State.Rule60P (current trs) = false ->
       exists target,
         jump b = Some target /\
         State.Pencil (other p) n = Some target /\
         State.MovementP (other p) n = Some true) /\
    (State.Rule60P (current trs) = true ->
       State.Pencil (other p) n = Some b /\
       State.MovementP (other p) n = Some false).
Proof.
  intros Hp Hl H61 Hb.
  destruct (outcomes_all_spec cross_move_at_61 cross_move_at_61_checked p trs Hp Hl)
    as (n & a & path & trs' & Hd & Hs & HP).
  apply store_spec in Hs as (Hn & _).
  unfold cross_move_at_61 in HP. simpl in HP.
  destruct (HP H61) as (-> & _ & H1 & Hm & Hoff & Hon).
  exists trs', n. do 4 (split; [assumption|]). split.
  - intros Hr. destruct (Hoff Hr) as ([target Ht] & Hj & _ & Hmo).
    rewrite Hb in Hj. simpl in Hj. exists target.
    rewrite <- Hj. auto.
  - intros Hr. destruct (Hon Hr) as [Ho Hmo]. rewrite Hb in Ho. auto.
Qed.

Lemma box_61_moves_the_other_pencil_witness :
  exists trs' n,
    DetermineNextStates 0 (fresh (mkState 13 10 false false false))
      = Some (trs', PATH_YES) /\
    Transition.NextState 0 trs' = Some n /\
    State.Pencil 0 n = Some 1 /\
    State.MovementP 0 n = Some true /\
    (false = false ->
       exists target,
         jump 50 = Some target /\
         State.Pencil (other 0) n = Some target /\
         State.MovementP (other 0) n = Some true) /\
    (false = true ->
       State.Pencil (other 0) n = Some 50 /\
       State.MovementP (other 0) n = Some false).
Proof.
  apply (box_61_moves_the_other_pencil 0 (fresh (mkState 13 10 false false false)) 50);
    [left; reflexivity | unfold legal, MAZEPOINT_COUNT; simpl; lia
    | reflexivity | reflexivity].
Defined.

(** C10, as stated, fails in the deadly embrace: both pencils on box 26,
    rule 60 off, pencil 0 chosen; the path is PATH_NONE and the movement
    flag of the chosen pencil is false in the next state. *)
Lemma deadlock_sets_no_movement_flag :
  let c := {| pencil0 := 7; pencil1 := 7; rule60active := false;
              pencilMoved0 := true; pencilMoved1 := true |} in
  legal c /\
  exists trs' n,
    DetermineNextStates 0 (fresh c) = Some (trs', PATH_NONE) /\
    Transition.NextState 0 trs' = Some n /\
    State.MovementP 0 n = Some false /\
    State.MovementP 0 n <> Some true.
Proof.
  simpl. split; [unfold legal, MAZEPOINT_COUNT; simpl; lia|].
  eexists. eexists. split; [vm_compute; reflexivity|].
  repeat split. discriminate.
Qed.

(** C10, amended: every evaluation on a legal state returns; the path is
    PATH_NONE exactly in the deadly embrace (both pencils on box 26, rule
    60 off), and then both movement flags of the next state are false;
    on every other path the chosen pencil's flag is true and the other
    pencil's flag is true exactly when the chosen pencil is on box 61
    with rule 60 off; in the alternate next state of box 55 the chosen
    pencil's flag is true and the other pencil's flag is false. *)
Theorem movement_flags_of_next_states (p : Z) (trs : Transition) :
  p = 0 \/ p = 1 ->
  legal (current trs) ->
  exists trs' path n,
    DetermineNextStates p trs = Some (trs', path) /\
    Transition.NextState p trs' = Some n /\
    (path = PATH_NONE <-> embrace (current trs)) /\
    (path = PATH_NONE ->
       State.MovementP 0 n = Some false /\ State.MovementP 1 n = Some false) /\
    (path <> PATH_NONE ->
       State.MovementP p n = Some true /\
       State.MovementP (other p) n =
         Some (bool_decide (State.Pencil p (current trs) = Some 61 /\
                            State.Rule60P (current trs) = false))) /\
    (path = PATH_LUGNUT ->
       exists a,
         Transition.AltNextState p trs' = Some a /\
         State.MovementP p a = Some true /\
         State.MovementP (other p) a = Some false).
Proof.
  intros Hp Hl.
  destruct (outcomes_all_spec movement_flags movement_flags_checked p trs Hp Hl)
    as (n & a & path & trs' & Hd & Hs & HP).
  apply store_spec in Hs as (Hn & _ & _ & Ha).
  unfold movement_flags, moved in HP. simpl in HP.
  destruct HP as (Hiff & Hnone & Hmoved & Hsome & Halt).
  exists trs', path, n. do 5 (split; [assumption|]).
  intros Hl'. destruct (Hsome Hl') as [x ->]. simpl in Halt.
  exists x. destruct Ha as [Ha _]. destruct Halt. auto.
Qed.

Lemma movement_flags_of_next_states_witness :
  exists trs' path n,
    DetermineNextStates 1 (fresh (mkState 0 3 false false false)) = Some (trs', path) /\
    Transition.NextState 1 trs' = Some n /\
    (path = PATH_NONE <-> embrace (mkState 0 3 false false false)) /\
    (path = PATH_NONE ->
       State.MovementP 0 n = Some false /\ State.MovementP 1 n = Some false) /\
    (path <> PATH_NONE ->
       State.MovementP 1 n = Some true /\
       State.MovementP (other 1) n = Some false) /\
    (path = PATH_LUGNUT ->
       exists a,
         Transition.AltNextState 1 trs' = Some a /\
         State.MovementP 1 a = Some true /\
         State.MovementP (other 1) a = Some false).
Proof.
  apply (movement_flags_of_next_states 1 (fresh (mkState 0 3 false false false)));
    [right; reflexivity | unfold legal, MAZEPOINT_COUNT; simpl; lia].
Defined.

(** ** Rule 60 stays on until box 65 *)

Lemma mode_flag_checked : outcomes_all mode_flag = true.
Proof. vm_compute. reflexivity. Qed.

Lemma produces_rule60 (c : State) (box : Z) (c' : State) :
  produces c box c' ->
  State.Rule60P c' = rule60_after box (State.Rule60P c).
Proof.
  intros [p trs trs' path Hp Hl <- Hb Hd Hn | p trs trs' Hp Hl <- Hb Hd Hn];
    destruct (outcomes_all_spec mode_flag mode_flag_checked p trs Hp Hl)
      as (n & a & path' & trs'' & Hd' & Hs & HP);
    rewrite Hd in Hd'; injection Hd' as <- <-;
    apply store_spec in Hs as (Hn' & _ & _ & Ha);
    unfold mode_flag in HP; simpl in HP; destruct HP as (Hflag & Hlug & Halt);
    rewrite Hb in Hflag; simpl in Hflag.
  - rewrite Hn in Hn'. injection Hn' as ->. congruence.
  - destruct (Hlug eq_refl) as [[x ->] H55]. simpl in Halt.
    destruct Ha as [Ha _]. rewrite Hn in Ha. injection Ha as ->.
    rewrite Hb in H55. injection H55 as ->. exact Halt.
Qed.

Lemma rule60_along_app (front rest : list Z) (b : bool) :
  rule60_along (front ++ rest) b = rule60_along rest (rule60_along front b).
Proof. apply fold_left_app. Qed.

Lemma rule60_along_no_65 (boxes : list Z) :
  65 ∉ boxes -> rule60_along boxes true = true.
Proof.
  induction boxes as [|box boxes IH]; [reflexivity|].
  intros Hn. apply not_elem_of_cons in Hn as [Hne Hn].
  unfold rule60_along in *. simpl. unfold rule60_after at 2.
  destruct (box =? 60); [apply IH, Hn|].
  destruct (Z.eqb_spec box 65) as [-> | _]; [contradiction | apply IH, Hn].
Qed.

Lemma transition_path_rule60 (c : State) (boxes : list Z) (c' : State) :
  transition_path c boxes c' ->
  State.Rule60P c' = rule60_along boxes (State.Rule60P c).
Proof.
  induction 1 as [c | c box c' boxes c'' Hstep _ IH]; [reflexivity|].
  rewrite IH. apply produces_rule60 in Hstep. rewrite Hstep. reflexivity.
Qed.

(** C7: every rule evaluation on a legal state returns, and the rule 60
    flag of the next state is the flag of the current state, except that
    box 60 turns it on and box 65 turns it off ([rule60_after]); the
    alternate next state of the free choice has the flag of the current
    state.  So along a path of transitions the flag changes as
    [rule60_after] says, box by box: after a transition through box 60
    the flag is on and stays on as long as no transition goes through
    box 65; a transition after which the flag is off, when it was on
    before, goes through box 65, and after box 65 the flag is off. *)
Theorem rule60_persists (p : Z) (trs : Transition) :
  p = 0 \/ p = 1 ->
  legal (current trs) ->
  (exists box trs' path n,
     State.Pencil p (current trs) = Some box /\
     DetermineNextStates p trs = Some (trs', path) /\
     Transition.NextState p trs' = Some n /\
     produces (current trs) box n /\
     State.Rule60P n = rule60_after box (State.Rule60P (current trs)) /\
     (box = 60 -> State.Rule60P n = true) /\
     (box = 65 -> State.Rule60P n = false) /\
     (box <> 60 -> box <> 65 ->
      State.Rule60P n = State.Rule60P (current trs)) /\
     (path = PATH_LUGNUT ->
      exists a,
        Transition.AltNextState p trs' = Some a /\
        produces (current trs) box a /\
        State.Rule60P a = State.Rule60P (current trs))) /\
  (forall (c : State) (boxes : list Z) (c' : State),
     transition_path c boxes c' ->
     State.Rule60P c' = rule60_along boxes (State.Rule60P c) /\
     (forall box, boxes = [box] ->
        State.Rule60P c' = rule60_after box (State.Rule60P c)) /\
     (forall front rest, boxes = front ++ 60 :: rest -> 65 ∉ rest ->
        State.Rule60P c' = true) /\
     (State.Rule60P c = true -> 65 ∉ boxes -> State.Rule60P c' = true) /\
     (forall front last, boxes = front ++ [last] ->
        rule60_along front (State.Rule60P c) = true ->
        (State.Rule60P c' = false <-> last = 65))).
Proof.
  intros Hp Hl. split.
  - destruct (outcomes_all_spec mode_flag mode_flag_checked p trs Hp Hl)
      as (n & a & path & trs' & Hd & Hs & HP).
    apply store_spec in Hs as (Hn & _ & _ & Ha).
    unfold mode_flag in HP. simpl in HP. destruct HP as (Hflag & Hlug & Halt).
    destruct (State.Pencil p (current trs)) as [box|] eqn:Hbox;
      [|discriminate].
    simpl in Hflag. injection Hflag as Hflag.
    assert (Hprod : produces (current trs) box n)
      by (apply (produces_next _ _ _ p trs trs' path); auto).
    exists box, trs', path, n. do 4 (split; [auto|]).
    split; [auto|]. unfold rule60_after in Hflag.
    split; [intros ->; rewrite <- Hflag; reflexivity|].
    split; [intros ->; rewrite <- Hflag; reflexivity|].
    split.
    + intros H60 H65. rewrite <- Hflag.
      destruct (Z.eqb_spec box 60); [contradiction|].
      destruct (Z.eqb_spec box 65); [contradiction | reflexivity].
    + intros ->. destruct (Hlug eq_refl) as [[x ->] _]. simpl in Halt.
      destruct Ha as [Ha _]. exists x. split; [exact Ha|]. split; [|exact Halt].
      apply (produces_alt _ _ _ p trs trs'); auto.
  - intros c boxes c' Hpath.
    pose proof (transition_path_rule60 _ _ _ Hpath) as Hflag.
    split; [exact Hflag|]. split; [|split; [|split]].
    + intros box ->. exact Hflag.
    + intros front rest -> Hno. rewrite Hflag, rule60_along_app.
      unfold rule60_along at 1. simpl. unfold rule60_after at 1. simpl.
      apply rule60_along_no_65, Hno.
    + intros Hon Hno. rewrite Hflag, Hon. apply rule60_along_no_65, Hno.
    + intros front last -> Hon. rewrite Hflag, rule60_along_app, Hon.
      unfold rule60_along. simpl. unfold rule60_after.
      destruct (Z.eqb_spec last 60) as [-> | _]; [split; discriminate|].
      destruct (Z.eqb_spec last 65) as [-> | Hne]; [tauto|].
      split; [discriminate | contradiction].
Qed.

(** ** The index of a state *)

Lemma Searcher_new_table : Searcher_new = Some table.
Proof. vm_compute. reflexivity. Qed.

Lemma TotalStates_2048 : TotalStates = 2048.
Proof. reflexivity. Qed.

Lemma all_indices_spec (i : Z) : 0 <= i < TotalStates -> In i all_indices.
Proof.
  intros H. unfold all_indices. apply in_map_iff.
  exists (Z.to_nat i). split; [lia|]. apply in_seq. lia.
Qed.

Lemma table_indexed :
  forallb (fun c => bool_decide (indexed table c)) all_states = true.
Proof. vm_compute. reflexivity. Qed.

Lemma table_index_of_legal :
  forallb (fun i => bool_decide (index_of_legal table i)) all_indices = true.
Proof. vm_compute. reflexivity. Qed.

Lemma table_outcomes_checked :
  forallb (fun c => bool_decide (holds_outcomes table c)) all_states = true.
Proof. vm_compute. reflexivity. Qed.

(** The state space holds, for every legal state, the outcomes of the two
    rule evaluations. *)
Lemma table_holds_outcomes (c : State) : legal c -> holds_outcomes table c.
Proof.
  intros Hl. pose proof (all_states_forallb _ table_outcomes_checked c Hl) as H.
  apply bool_decide_eq_true in H. exact H.
Qed.

Lemma at_index_Some {A : Type} (l : list A) (i : Z) (x : A) :
  at_index l i = Some x -> 0 <= i < Z.of_nat (length l).
Proof.
  unfold at_index. destruct (Z.ltb_spec i 0); [discriminate|].
  intros H'. apply lookup_lt_Some in H'. lia.
Qed.

Lemma length_table : Z.of_nat (length table) = TotalStates.
Proof. reflexivity. Qed.

(** C2: on the legal states [ComputeIndex] is a bijection onto the
    indices from 0 to 2047.  The index [i] of a legal state [c] is in
    this range, the transition that the state space holds at [i] gives
    [c] back as its current state (the decoding of the index), no other
    legal state has the index [i], and every index of the range is the
    index of a legal state. *)
Theorem ComputeIndex_bijection (sp : list Transition) (c : State) :
  Searcher_new = Some sp ->
  legal c ->
  TotalStates = 2048 /\
  (exists i t,
     ComputeIndex c = Some i /\ 0 <= i < TotalStates /\
     at_index sp i = Some t /\ Transition.CurrentState t = c /\
     (forall c', legal c' -> ComputeIndex c' = Some i -> c' = c)) /\
  (forall j, 0 <= j < TotalStates ->
     exists c', legal c' /\ ComputeIndex c' = Some j).
Proof.
  rewrite Searcher_new_table. intros [= <-] Hl.
  split; [reflexivity|].
  pose proof (all_states_forallb _ table_indexed) as Hdec.
  split.
  - pose proof (Hdec c Hl) as Hc. apply bool_decide_eq_true in Hc.
    unfold indexed in Hc.
    destruct (ComputeIndex c) as [i|] eqn:Hi; [|discriminate]. simpl in Hc.
    destruct (at_index table i) as [t|] eqn:Ht; [|discriminate].
    injection Hc as Hc. exists i, t.
    pose proof (at_index_Some _ _ _ Ht) as Hr. rewrite length_table in Hr.
    repeat split; try assumption; try lia.
    intros c' Hl' Hi'. pose proof (Hdec c' Hl') as Hc'.
    apply bool_decide_eq_true in Hc'. unfold indexed in Hc'.
    rewrite Hi' in Hc'. simpl in Hc'. rewrite Ht in Hc'. simpl in Hc'.
    congruence.
  - intros j Hj. pose proof table_index_of_legal as Hall.
    rewrite forallb_forall in Hall.
    specialize (Hall j (all_indices_spec j Hj)).
    apply bool_decide_eq_true in Hall. unfold index_of_legal in Hall.
    destruct (at_index table j) as [t|]; [|discriminate].
    injection Hall as Hleg Hidx. apply bool_decide_eq_true in Hleg.
    exists (Transition.CurrentState t). auto.
Qed.

Lemma ComputeIndex_bijection_witness :
  TotalStates = 2048 /\
  (exists i t,
     ComputeIndex (mkState 0 3 false false false) = Some i /\
     0 <= i < TotalStates /\
     at_index table i = Some t /\
     Transition.CurrentState t = mkState 0 3 false false false /\
     (forall c', legal c' -> ComputeIndex c' = Some i ->
                 c' = mkState 0 3 false false false)) /\
  (forall j, 0 <= j < TotalStates ->
     exists c', legal c' /\ ComputeIndex c' = Some j).
Proof.
  apply (ComputeIndex_bijection table (mkState 0 3 false false false));
    [vm_compute; reflexivity | unfold legal, MAZEPOINT_COUNT; simpl; lia].
Defined.

(** ** The traversal: what a visit changes *)

Lemma set_index_Some {A : Type} (l l' : list A) (i : Z) (x : A) :
  set_index l i x = Some l' ->
  0 <= i < Z.of_nat (length l) /\ l' = <[Z.to_nat i := x]> l.
Proof.
  unfold set_index. destruct (_ && _) eqn:E; [|discriminate].
  intros [= <-]. apply andb_true_iff in E as [E1 E2].
  apply Z.leb_le in E1. apply Z.ltb_lt in E2. auto.
Qed.

Lemma set_index_is_Some {A : Type} (l : list A) (i : Z) (x : A) :
  0 <= i < Z.of_nat (length l) ->
  set_index l i x = Some (<[Z.to_nat i := x]> l).
Proof.
  intros [H1 H2]. unfold set_index.
  apply Z.leb_le in H1. apply Z.ltb_lt in H2. rewrite H1, H2. reflexivity.
Qed.

Lemma at_index_is_Some {A : Type} (l : list A) (i : Z) :
  0 <= i < Z.of_nat (length l) -> exists x, at_index l i = Some x.
Proof.
  intros [H1 H2]. unfold at_index.
  destruct (Z.ltb_spec i 0); [lia|].
  apply lookup_lt_is_Some_2. lia.
Qed.

Lemma at_index_insert_eq {A : Type} (l : list A) (i : Z) (x : A) :
  0 <= i < Z.of_nat (length l) ->
  at_index (<[Z.to_nat i := x]> l) i = Some x.
Proof.
  intros [H1 H2]. unfold at_index.
  destruct (Z.ltb_spec i 0); [lia|].
  apply list_lookup_insert_eq. lia.
Qed.

Lemma at_index_insert_ne {A : Type} (l : list A) (i j : Z) (x : A) :
  0 <= i -> i <> j ->
  at_index (<[Z.to_nat i := x]> l) j = at_index l j.
Proof.
  intros H1 H2. unfold at_index.
  destruct (Z.ltb_spec j 0); [reflexivity|].
  apply list_lookup_insert_ne. lia.
Qed.

Lemma no_deeper_refl (t : Transition) : no_deeper t t.
Proof. split; [destruct t; reflexivity | lia]. Qed.

Lemma no_deeper_trans (t1 t2 t3 : Transition) :
  no_deeper t1 t2 -> no_deeper t2 t3 -> no_deeper t1 t3.
Proof.
  intros [E12 H12] [E23 H23]. split.
  - rewrite E23, E12. reflexivity.
  - intros H. specialize (H12 H). lia.
Qed.

Lemma settles_refl (r : Run) : settles r r.
Proof.
  split; [|reflexivity].
  apply Forall_Forall2_diag, Forall_forall. intros; apply no_deeper_refl.
Qed.

Lemma settles_trans (r1 r2 r3 : Run) :
  settles r1 r2 -> settles r2 r3 -> settles r1 r3.
Proof.
  intros [F12 L12] [F23 L23]. split; [|congruence].
  eapply Forall2_trans; [|exact F12|exact F23].
  intros; eapply no_deeper_trans; eassumption.
Qed.

Lemma settles_print (o : list Output) (r : Run) : settles r (print o r).
Proof. exact (settles_refl r). Qed.

Lemma settles_at_index (r r' : Run) (i : Z) (t : Transition) :
  settles r r' -> at_index (space r) i = Some t ->
  exists t', at_index (space r') i = Some t' /\ no_deeper t t'.
Proof.
  intros [F _]. unfold at_index. destruct (i <? 0); [discriminate|].
  intros H. destruct (Forall2_lookup_l _ _ _ _ _ F H) as (t' & ? & ?).
  exists t'. auto.
Qed.

Lemma closed_SetVisited (x : Z) (t : Transition) :
  closed (Transition.SetVisited x t) = closed t.
Proof. reflexivity. Qed.

Lemma ready_settles (r r' : Run) : ready r -> settles r r' -> ready r'.
Proof.
  intros (Hlen & Hcl & Htr) [F L]. split; [|split].
  - rewrite <- (Forall2_length _ _ _ F). exact Hlen.
  - apply Forall_lookup. intros i t' Hi.
    destruct (Forall2_lookup_r _ _ _ _ _ F Hi) as (t & Ht & [E _]).
    rewrite E, closed_SetVisited.
    eapply Forall_lookup_1 in Hcl; eauto.
  - rewrite L. exact Htr.
Qed.

Lemma stamped_settles (path : list Z) (depth : Z) (r r' : Run) :
  stamped path depth r -> settles r r' -> stamped path depth r'.
Proof.
  intros Hst Hse i Hi. destruct (Hst i Hi) as (t & Ht & Hv).
  destruct (settles_at_index _ _ _ _ Hse Ht) as (t' & Ht' & _ & Hle).
  exists t'. split; [exact Ht'|]. lia.
Qed.

(** Recording a visit that is not pruned stores the depth, and settles. *)
Lemma record_visit_spec (index depth : Z) (t : Transition) (r r1 : Run) :
  at_index (space r) index = Some t ->
  (Transition.Visited t >? 0) && (Transition.Visited t <=? depth) = false ->
  0 < depth ->
  record_visit index depth t r = Some r1 ->
  settles r r1 /\
  at_index (space r1) index = Some (Transition.SetVisited depth t) /\
  output r1 = output r.
Proof.
  intros Ht Hnot Hd. unfold record_visit.
  destruct (set_index (space r) index _) as [sp|] eqn:Hsp; [|discriminate].
  simpl. apply set_index_Some in Hsp as [Hi ->].
  set (r' := if _ <? depth then _ else _).
  assert (Hsp : space r' = <[Z.to_nat index := Transition.SetVisited depth t]> (space r))
    by (subst r'; destruct (_ <? depth); reflexivity).
  assert (Hst : stackTrace r' = stackTrace r)
    by (subst r'; destruct (_ <? depth); reflexivity).
  assert (Hout : output r' = output r)
    by (subst r'; destruct (_ <? depth); reflexivity).
  assert (Hno : no_deeper t (Transition.SetVisited depth t)).
  { split; [reflexivity|]. simpl. unfold Transition.Visited in Hnot.
    intros Hpos. apply andb_false_iff in Hnot as [H | H].
    - rewrite Z.gtb_ltb in H. apply Z.ltb_ge in H. lia.
    - apply Z.leb_gt in H. lia. }
  assert (HF : Forall2 no_deeper (space r) (space r')).
  { rewrite Hsp. unfold at_index in Ht. destruct (index <? 0); [discriminate|].
    rewrite <- (list_insert_id (space r) _ _ Ht) at 1.
    apply Forall2_insert; [|exact Hno].
    apply Forall_Forall2_diag, Forall_forall. intros; apply no_deeper_refl. }
  clearbody r'.
  destruct (depth <=? TRACE_ENTRIES).
  - destruct (set_index (stackTrace r') _ _) as [st|] eqn:Est; [|discriminate].
    simpl. intros [= <-]. simpl. apply set_index_Some in Est as [_ ->].
    split; [split; [exact HF | simpl; rewrite length_insert; congruence]|].
    split; [rewrite Hsp; apply at_index_insert_eq, Hi | exact Hout].
  - intros [= <-]. split; [split; [exact HF | congruence]|].
    split; [rewrite Hsp; apply at_index_insert_eq, Hi | exact Hout].
Qed.

Lemma record_visit_returns (index depth : Z) (t : Transition) (r : Run) :
  ready r -> 0 <= index < TotalStates -> 0 < depth ->
  exists r1, record_visit index depth t r = Some r1.
Proof.
  intros (Hlen & _ & Htr) Hi Hd. unfold record_visit.
  rewrite set_index_is_Some by lia. simpl.
  set (r' := if _ <? depth then _ else _).
  assert (Hst : stackTrace r' = stackTrace r)
    by (subst r'; destruct (_ <? depth); reflexivity).
  clearbody r'.
  destruct (Z.leb_spec depth TRACE_ENTRIES); [|eauto].
  rewrite set_index_is_Some by (rewrite Hst; lia). simpl. eauto.
Qed.

Lemma settles_same (r r' : Run) :
  space r' = space r -> stackTrace r' = stackTrace r -> settles r r'.
Proof.
  intros Hs Ht. split; [|congruence]. rewrite Hs.
  apply Forall_Forall2_diag, Forall_forall. intros; apply no_deeper_refl.
Qed.

Lemma for_pencils_nil (body : Z -> Run -> option flow) (r : Run) :
  for_pencils body [] r = Some r.
Proof. reflexivity. Qed.

Lemma for_pencils_cons (body : Z -> Run -> option flow) (p : Z)
    (rest : list Z) (r : Run) :
  for_pencils body (p :: rest) r =
    f ← body p r;
    match f with
    | Return r => Some r
    | Continue r => for_pencils body rest r
    end.
Proof. reflexivity. Qed.

Lemma RecTraverse_S (fuel : nat) (index depth : Z) (r : Run) :
  RecTraverse (S fuel) index depth r =
    t ← at_index (space r) index;
    if (Transition.Visited t >? 0) && (Transition.Visited t <=? depth)
    then Some r
    else
      r ← record_visit index depth t r;
      for_pencils (pencil_body (RecTraverse fuel) index depth) [0; 1] r.
Proof. reflexivity. Qed.

Arguments for_pencils : simpl never.
Arguments RecTraverse : simpl never.

Section visit_settles.

Variable rec : Z -> Z -> Run -> option Run.
Variable depth : Z.
Hypothesis rec_settles :
  forall j r r', rec j (depth + 1) r = Some r' -> settles r r'.

Lemma dispatch_settles (s : State) (r : Run) (f : flow) :
  dispatch rec s depth r = Some f -> settles r (flow_run f).
Proof.
  unfold dispatch. destruct (State.IllegalP s).
  { intros [= <-]. apply settles_print. }
  destruct (State.GoalP s).
  { intros [= <-]. apply settles_same; reflexivity. }
  destruct (ComputeIndex s) as [j|]; simpl; [|discriminate].
  destruct (rec j (depth + 1) r) as [r'|] eqn:E; simpl; [|discriminate].
  intros [= <-]. apply (rec_settles _ _ _ E).
Qed.

Lemma pencil_body_settles (index p : Z) (r : Run) (f : flow) :
  pencil_body rec index depth p r = Some f -> settles r (flow_run f).
Proof.
  unfold pencil_body.
  destruct (at_index (space r) index) as [t|]; simpl; [|discriminate].
  destruct (Transition.NextState p t) as [n|]; simpl; [|discriminate].
  destruct (dispatch rec n depth r) as [f1|] eqn:E1; simpl; [|discriminate].
  apply dispatch_settles in E1.
  destruct f1 as [r1|r1]; simpl in E1; [intros [= <-]; exact E1|].
  destruct (at_index (space r1) index) as [t1|]; simpl; [|discriminate].
  destruct (Transition.AltNextValidP p t1) as [[|]|]; simpl; [| |discriminate].
  - destruct (Transition.AltNextState p t1) as [a|]; simpl; [|discriminate].
    intros E2. apply dispatch_settles in E2.
    eapply settles_trans; eassumption.
  - intros [= <-]. exact E1.
Qed.

Lemma for_pencils_settles (index : Z) (pencils : list Z) (r r' : Run) :
  for_pencils (pencil_body rec index depth) pencils r = Some r' ->
  settles r r'.
Proof.
  revert r. induction pencils as [|p rest IH]; intros r.
  { intros [= <-]. apply settles_refl. }
  rewrite for_pencils_cons.
  destruct (pencil_body rec index depth p r) as [f|] eqn:E; simpl; [|discriminate].
  apply pencil_body_settles in E.
  destruct f as [r1|r1]; simpl in E.
  - intros [= <-]. exact E.
  - intros H. apply IH in H. eapply settles_trans; eassumption.
Qed.

End visit_settles.

(** A traversal settles the run it starts from. *)
Lemma RecTraverse_settles (fuel : nat) :
  forall (index depth : Z) (r r' : Run),
    0 < depth -> RecTraverse fuel index depth r = Some r' -> settles r r'.
Proof.
  induction fuel as [|fuel IH]; intros index depth r r' Hd; [discriminate|].
  rewrite RecTraverse_S.
  destruct (at_index (space r) index) as [t|] eqn:Ht; simpl; [|discriminate].
  destruct (_ && _) eqn:Hpruned; [intros [= <-]; apply settles_refl|].
  destruct (record_visit index depth t r) as [r1|] eqn:Erv; simpl; [|discriminate].
  apply (record_visit_spec _ _ _ _ _ Ht Hpruned Hd) in Erv as (S1 & _).
  intros H. eapply settles_trans; [exact S1|].
  eapply for_pencils_settles; [|exact H].
  intros j r0 r0' Hrec. apply IH in Hrec; [exact Hrec | lia].
Qed.

(** ** The traversal: more fuel gives the same result *)

Section visit_mono.

Variables rec rec' : Z -> Z -> Run -> option Run.
Variable depth : Z.
Hypothesis rec_mono :
  forall j d r r', rec j d r = Some r' -> rec' j d r = Some r'.

Lemma dispatch_mono (s : State) (r : Run) (f : flow) :
  dispatch rec s depth r = Some f -> dispatch rec' s depth r = Some f.
Proof.
  unfold dispatch. destruct (State.IllegalP s); [auto|].
  destruct (State.GoalP s); [auto|].
  destruct (ComputeIndex s) as [j|]; simpl; [|discriminate].
  destruct (rec j (depth + 1) r) as [r'|] eqn:E; simpl; [|discriminate].
  rewrite (rec_mono _ _ _ _ E). auto.
Qed.

Lemma pencil_body_mono (index p : Z) (r : Run) (f : flow) :
  pencil_body rec index depth p r = Some f ->
  pencil_body rec' index depth p r = Some f.
Proof.
  unfold pencil_body.
  destruct (at_index (space r) index) as [t|]; simpl; [|discriminate].
  destruct (Transition.NextState p t) as [n|]; simpl; [|discriminate].
  destruct (dispatch rec n depth r) as [f1|] eqn:E1; simpl; [|discriminate].
  rewrite (dispatch_mono _ _ _ E1). simpl.
  destruct f1 as [r1|r1]; [auto|].
  destruct (at_index (space r1) index) as [t1|]; simpl; [|discriminate].
  destruct (Transition.AltNextValidP p t1) as [[|]|]; simpl; [| auto |discriminate].
  destruct (Transition.AltNextState p t1) as [a|]; simpl; [|discriminate].
  apply dispatch_mono.
Qed.

Lemma for_pencils_mono (index : Z) (pencils : list Z) (r r' : Run) :
  for_pencils (pencil_body rec index depth) pencils r = Some r' ->
  for_pencils (pencil_body rec' index depth) pencils r = Some r'.
Proof.
  revert r. induction pencils as [|p rest IH]; intros r; [auto|].
  rewrite !for_pencils_cons.
  destruct (pencil_body rec index depth p r) as [f|] eqn:E; simpl; [|discriminate].
  rewrite (pencil_body_mono _ _ _ _ E). simpl.
  destruct f; [auto | apply IH].
Qed.

End visit_mono.

Lemma RecTraverse_fuel_S (fuel : nat) :
  forall (index depth : Z) (r r' : Run),
    RecTraverse fuel index depth r = Some r' ->
    RecTraverse (S fuel) index depth r = Some r'.
Proof.
  induction fuel as [|fuel IH]; intros index depth r r'; [discriminate|].
  rewrite !RecTraverse_S.
  destruct (at_index (space r) index) as [t|]; simpl; [|discriminate].
  destruct (_ && _); [auto|].
  destruct (record_visit index depth t r) as [r1|]; simpl; [|discriminate].
  intros H.
  eapply for_pencils_mono; [|exact H]. intros j d r0 r0'. apply IH.
Qed.

Lemma RecTraverse_fuel_mono (fuel fuel' : nat) (index depth : Z) (r r' : Run) :
  (fuel <= fuel')%nat ->
  RecTraverse fuel index depth r = Some r' ->
  RecTraverse fuel' index depth r = Some r'.
Proof.
  induction 1 as [|fuel' _ IH]; [auto|].
  intros H. apply RecTraverse_fuel_S, IH, H.
Qed.

(** ** The traversal returns *)

Lemma closed_NextState (t : Transition) (p : Z) :
  closed t = true -> p = 0 \/ p = 1 ->
  exists n, Transition.NextState p t = Some n /\ enterable n = true.
Proof.
  unfold closed. rewrite !andb_true_iff. intros [[[H0 H1] _] _] [-> | ->];
    eexists; split; (reflexivity || assumption).
Qed.

Lemma closed_AltNextState (t : Transition) (p : Z) :
  closed t = true -> p = 0 \/ p = 1 ->
  exists valid a,
    Transition.AltNextValidP p t = Some valid /\
    Transition.AltNextState p t = Some a /\
    (valid = true -> enterable a = true).
Proof.
  unfold closed. rewrite !andb_true_iff, !orb_true_iff, !negb_true_iff.
  intros [[_ H0] H1] [-> | ->]; eexists; eexists;
    (split; [reflexivity|]); (split; [reflexivity|]); simpl; intros Hv.
  - destruct H0 as [H0 | H0]; [congruence | exact H0].
  - destruct H1 as [H1 | H1]; [congruence | exact H1].
Qed.

Lemma ready_at_index (r : Run) (index : Z) :
  ready r -> 0 <= index < TotalStates ->
  exists t, at_index (space r) index = Some t /\ closed t = true.
Proof.
  intros (Hlen & Hcl & _) Hi.
  destruct (at_index_is_Some (space r) index) as [t Ht]; [lia|].
  exists t. split; [exact Ht|].
  unfold at_index in Ht. destruct (index <? 0); [discriminate|].
  apply (Forall_lookup_1 _ _ _ _ Hcl Ht).
Qed.

Section visit_returns.

Variable rec : Z -> Z -> Run -> option Run.
Variable depth : Z.
Variable good : Run -> Prop.
Hypothesis good_ready : forall r, good r -> ready r.
Hypothesis good_settles : forall r r', good r -> settles r r' -> good r'.
Hypothesis rec_settles :
  forall j r r', rec j (depth + 1) r = Some r' -> settles r r'.
Hypothesis rec_returns :
  forall j r, good r -> 0 <= j < TotalStates ->
    exists r', rec j (depth + 1) r = Some r'.

Lemma dispatch_returns (s : State) (r : Run) :
  good r -> enterable s = true -> exists f, dispatch rec s depth r = Some f.
Proof.
  intros Hg He. unfold dispatch, enterable in *.
  destruct (State.IllegalP s); [eauto|].
  destruct (State.GoalP s); [eauto|]. simpl in He.
  destruct (ComputeIndex s) as [j|]; [|discriminate]. simpl.
  apply andb_true_iff in He as [H1 H2].
  apply Z.leb_le in H1. apply Z.ltb_lt in H2.
  destruct (rec_returns j r Hg (conj H1 H2)) as [r' ->]. simpl. eauto.
Qed.

Lemma pencil_body_returns (index p : Z) (r : Run) :
  good r -> 0 <= index < TotalStates -> p = 0 \/ p = 1 ->
  exists f, pencil_body rec index depth p r = Some f.
Proof.
  intros Hg Hi Hp. unfold pencil_body.
  destruct (ready_at_index r index (good_ready _ Hg) Hi) as (t & -> & Hcl).
  simpl. destruct (closed_NextState t p Hcl Hp) as (n & -> & Hn). simpl.
  destruct (dispatch_returns n r Hg Hn) as [f1 E1]. rewrite E1. simpl.
  destruct f1 as [r1|r1]; [eauto|].
  apply (dispatch_settles rec depth rec_settles) in E1. simpl in E1.
  assert (Hg1 : good r1) by (eapply good_settles; eassumption).
  destruct (ready_at_index r1 index (good_ready _ Hg1) Hi) as (t1 & -> & Hcl1).
  simpl. destruct (closed_AltNextState t1 p Hcl1 Hp) as (v & a & -> & Ha & Hv).
  simpl. destruct v; [|eauto]. rewrite Ha. simpl.
  apply dispatch_returns; auto.
Qed.

Lemma for_pencils_returns (index : Z) (pencils : list Z) (r : Run) :
  good r -> 0 <= index < TotalStates ->
  Forall (fun p => p = 0 \/ p = 1) pencils ->
  exists r', for_pencils (pencil_body rec index depth) pencils r = Some r'.
Proof.
  intros Hg Hi Hps. revert r Hg.
  induction Hps as [|p rest Hp _ IH]; intros r Hg; [eexists; reflexivity|].
  rewrite for_pencils_cons.
  destruct (pencil_body_returns index p r Hg Hi Hp) as [f E]. rewrite E. simpl.
  destruct f as [r1|r1]; [eauto|].
  apply (pencil_body_settles rec depth rec_settles) in E. simpl in E.
  apply IH. eapply good_settles; eassumption.
Qed.

End visit_returns.

Lemma length_all_indices : length all_indices = Z.to_nat TotalStates.
Proof. unfold all_indices. rewrite length_map, length_seq. reflexivity. Qed.

(** The indices on the path of the recursion are distinct, so there are
    no more of them than states. *)
Lemma path_length (path : list Z) :
  NoDup path -> (forall i, i ∈ path -> 0 <= i < TotalStates) ->
  (length path <= Z.to_nat TotalStates)%nat.
Proof.
  intros Hnd Hin. rewrite <- length_all_indices.
  apply NoDup_incl_length; [apply NoDup_ListNoDup, Hnd|].
  intros i Hi. apply all_indices_spec, Hin, list_elem_of_In, Hi.
Qed.

(** A call of [RecTraverse] at depth [depth], made while the calls on
    the indices [path] are running, returns if the fuel left is enough
    for the states that are not on the path. *)
Lemma RecTraverse_returns (fuel : nat) :
  forall (path : list Z) (index depth : Z) (r : Run),
    ready r -> 0 <= index < TotalStates ->
    NoDup path -> (forall i, i ∈ path -> 0 <= i < TotalStates) ->
    stamped path depth r ->
    depth = Z.of_nat (length path) + 1 ->
    (Z.to_nat TotalStates + 1 < fuel + length path)%nat ->
    exists r', RecTraverse fuel index depth r = Some r'.
Proof.
  induction fuel as [|fuel IH];
    intros path index depth r Hr Hi Hnd Hin Hst Hd Hfuel.
  { pose proof (path_length path Hnd Hin). lia. }
  rewrite RecTraverse_S.
  destruct (ready_at_index r index Hr Hi) as (t & Ht & _). rewrite Ht. simpl.
  destruct (_ && _) eqn:Hpruned; [eauto|].
  assert (Hd0 : 0 < depth) by lia.
  destruct (record_visit_returns index depth t r Hr Hi Hd0) as [r1 Erv].
  rewrite Erv. simpl.
  destruct (record_visit_spec _ _ _ _ _ Ht Hpruned Hd0 Erv) as (S1 & Ht1 & _).
  assert (Hfresh : index ∉ path).
  { intros Hip. destruct (Hst index Hip) as (t' & Ht' & Hv).
    rewrite Ht in Ht'. injection Ht' as <-.
    unfold Transition.Visited in Hpruned.
    apply andb_false_iff in Hpruned as [H | H].
    - rewrite Z.gtb_ltb in H. apply Z.ltb_ge in H. lia.
    - apply Z.leb_gt in H. lia. }
  apply (for_pencils_returns (RecTraverse fuel) depth
           (fun r => ready r /\ stamped (index :: path) (depth + 1) r)).
  - intros r0 [H _]. exact H.
  - intros r0 r0' [H1 H2] Hs. split.
    + eapply ready_settles; eassumption.
    + eapply stamped_settles; eassumption.
  - intros j r0 r0' H. apply RecTraverse_settles in H; [exact H | lia].
  - intros j r0 [Hr0 Hst0] Hj.
    apply (IH (index :: path)); auto.
    + constructor; assumption.
    + intros i Hi'. apply elem_of_cons in Hi' as [-> | Hi']; auto.
    + simpl length. lia.
    + simpl length. lia.
  - split; [eapply ready_settles; eassumption|].
    intros i Hi'. apply elem_of_cons in Hi' as [-> | Hi'].
    + eexists. split; [exact Ht1|]. simpl. lia.
    + destruct (Hst i Hi') as (t' & Ht' & Hv).
      destruct (settles_at_index _ _ _ _ S1 Ht') as (t'' & Ht'' & _ & Hle).
      exists t''. split; [exact Ht''|]. lia.
  - exact Hi.
  - constructor; [left; reflexivity|].
    constructor; [right; reflexivity|]. constructor.
Qed.

Lemma ComputeIndex_legal (c : State) :
  legal c -> exists i, ComputeIndex c = Some i /\ 0 <= i < TotalStates.
Proof.
  intros Hl. pose proof (all_states_forallb _ table_indexed c Hl) as Hc.
  apply bool_decide_eq_true in Hc. unfold indexed in Hc.
  destruct (ComputeIndex c) as [i|]; [|discriminate]. simpl in Hc.
  destruct (at_index table i) as [t|] eqn:Ht; [|discriminate].
  apply at_index_Some in Ht. rewrite length_table in Ht. eauto.
Qed.

Lemma table_closed : forallb closed table = true.
Proof. vm_compute. reflexivity. Qed.

Lemma first_run_ready : ready (first_run table).
Proof.
  split; [reflexivity|]. split; [|reflexivity].
  apply Forall_forall. intros t Ht. apply list_elem_of_In in Ht.
  pose proof table_closed as H. rewrite forallb_forall in H. auto.
Qed.

(** C3: from every legal start state the traversal of the state space
    that the constructor builds returns: there is an amount of fuel from
    which on [RecTraverse], called on the index of the start state at
    depth 1 in the first run, gives one and the same final run. *)
Theorem traversal_terminates (sp : list Transition) (start : State) :
  Searcher_new = Some sp ->
  legal start ->
  exists index fuel r,
    ComputeIndex start = Some index /\
    forall fuel', (fuel <= fuel')%nat ->
      RecTraverse fuel' index 1 (first_run sp) = Some r.
Proof.
  rewrite Searcher_new_table. intros [= <-] Hl.
  destruct (ComputeIndex_legal start Hl) as (index & Hi & Hrange).
  destruct (RecTraverse_returns (Z.to_nat TotalStates + 2) [] index 1
              (first_run table)) as [r Hr].
  - apply first_run_ready.
  - exact Hrange.
  - constructor.
  - intros i Hin. inversion Hin.
  - intros i Hin. inversion Hin.
  - reflexivity.
  - simpl length. lia.
  - exists index, (Z.to_nat TotalStates + 2)%nat, r. split; [exact Hi|].
    intros fuel' Hle. eapply RecTraverse_fuel_mono; eassumption.
Qed.

Lemma traversal_terminates_witness :
  exists index fuel r,
    ComputeIndex (mkState 0 3 false false false) = Some index /\
    forall fuel', (fuel <= fuel')%nat ->
      RecTraverse fuel' index 1 (first_run table) = Some r.
Proof.
  apply (traversal_terminates table (mkState 0 3 false false false));
    [vm_compute; reflexivity | unfold legal, MAZEPOINT_COUNT; simpl; lia].
Defined.

(** ** The traversal on a map does the same *)

Lemma opt_rel_bind {A B A' B' : Type} (R : A -> B -> Prop)
    (S : A' -> B' -> Prop) (a : option A) (b : option B)
    (k : A -> option A') (k' : B -> option B') :
  opt_rel R a b ->
  (forall x y, R x y -> opt_rel S (k x) (k' y)) ->
  opt_rel S (a ≫= k) (b ≫= k').
Proof. destruct a, b; simpl; intros H Hk; auto; contradiction. Qed.

Lemma opt_rel_eq {A A' B' : Type} (S : A' -> B' -> Prop) (a : option A)
    (k : A -> option A') (k' : A -> option B') :
  (forall x, opt_rel S (k x) (k' x)) ->
  opt_rel S (a ≫= k) (a ≫= k').
Proof. destruct a; simpl; auto. Qed.

Lemma cells_from_lookup (l : list Transition) :
  forall i j : Z,
    Fast.cells_from i l !! j =
      if j <? i then None else l !! Z.to_nat (j - i).
Proof.
  induction l as [|t l IH]; intros i j; simpl.
  - rewrite lookup_empty. destruct (j <? i); reflexivity.
  - destruct (decide (i = j)) as [-> | Hne].
    + rewrite lookup_insert_eq, Z.ltb_irrefl, Z.sub_diag. reflexivity.
    + rewrite lookup_insert_ne by exact Hne. rewrite IH.
      destruct (Z.ltb_spec j (i + 1)), (Z.ltb_spec j i); try lia; [reflexivity|].
      replace (Z.to_nat (j - i)) with (S (Z.to_nat (j - (i + 1)))) by lia.
      reflexivity.
Qed.

Lemma sim_fast_of (r : Run) : sim r (fast_of r).
Proof.
  split; [|auto]. intros i. simpl. rewrite cells_from_lookup, Z.sub_0_r.
  reflexivity.
Qed.

Lemma sim_print (o : list Output) (r : Run) (f : Fast.Run) :
  sim r f -> sim (print o r) (Fast.print o f).
Proof.
  intros (Hc & Hd & Ht & Ho). split; [exact Hc|]. simpl.
  rewrite Ho. auto.
Qed.

Lemma at_index_out {A : Type} (l : list A) (i : Z) :
  ~ (0 <= i < Z.of_nat (length l)) -> at_index l i = None.
Proof.
  intros H. unfold at_index. destruct (Z.ltb_spec i 0); [reflexivity|].
  apply lookup_ge_None. lia.
Qed.

Lemma set_index_sim (l : list Transition) (m : Zmap Transition) (index : Z)
    (x : Transition) :
  (forall i, at_index l i = m !! i) ->
  opt_rel (fun l' m' => forall i, at_index l' i = m' !! i)
    (set_index l index x) (Fast.set_cell m index x).
Proof.
  intros H. unfold Fast.set_cell.
  destruct (decide (0 <= index < Z.of_nat (length l))) as [Hin | Hout].
  - rewrite (set_index_is_Some _ _ _ Hin).
    destruct (at_index_is_Some l index Hin) as [y Hy].
    rewrite <- H, Hy. simpl. intros i.
    destruct (decide (index = i)) as [<- | Hne].
    + rewrite lookup_insert_eq. apply at_index_insert_eq, Hin.
    + rewrite lookup_insert_ne by exact Hne.
      rewrite at_index_insert_ne by lia. apply H.
  - rewrite <- H, (at_index_out _ _ Hout).
    destruct (set_index l index x) as [l'|] eqn:E; [|exact I].
    apply set_index_Some in E as [Hin _]. contradiction.
Qed.

Lemma record_visit_sim (index depth : Z) (t : Transition) (r : Run)
    (f : Fast.Run) :
  sim r f ->
  opt_rel sim (record_visit index depth t r) (Fast.record_visit index depth t f).
Proof.
  intros (Hc & Hd & Ht & Ho). unfold record_visit, Fast.record_visit.
  eapply opt_rel_bind; [apply set_index_sim, Hc|].
  intros l' m' Hc'. simpl. rewrite <- Hd, <- Ht, <- Ho.
  destruct (maxDepth r <? depth); simpl;
    (destruct (depth <=? TRACE_ENTRIES);
     [apply opt_rel_eq; intros st; simpl | simpl]);
    repeat split; auto.
Qed.

Section visit_sim.

Variable rec : Z -> Z -> Run -> option Run.
Variable frec : Z -> Z -> Fast.Run -> option Fast.Run.
Variable depth : Z.
Hypothesis rec_sim :
  forall j r f, sim r f -> opt_rel sim (rec j (depth + 1) r) (frec j (depth + 1) f).

Lemma dispatch_sim (s : State) (r : Run) (f : Fast.Run) :
  sim r f ->
  opt_rel sim_flow (dispatch rec s depth r) (Fast.dispatch frec s depth f).
Proof.
  intros H. unfold dispatch, Fast.dispatch.
  destruct (State.IllegalP s); [apply sim_print, H|].
  destruct (State.GoalP s).
  { simpl. destruct H as (Hc & Hd & Ht & Ho). rewrite Ht.
    apply sim_print, sim_print. repeat split; auto. }
  apply opt_rel_eq. intros j.
  eapply opt_rel_bind; [apply rec_sim, H|]. auto.
Qed.

Lemma pencil_body_sim (index p : Z) (r : Run) (f : Fast.Run) :
  sim r f ->
  opt_rel sim_flow (pencil_body rec index depth p r)
    (Fast.pencil_body frec index depth p f).
Proof.
  intros H. unfold pencil_body, Fast.pencil_body.
  rewrite <- (proj1 H index). apply opt_rel_eq. intros t.
  apply opt_rel_eq. intros n.
  eapply opt_rel_bind; [apply dispatch_sim, H|].
  intros [r1|r1] [f1|f1]; simpl; try contradiction; [auto|].
  intros H1. rewrite <- (proj1 H1 index). apply opt_rel_eq. intros t1.
  apply opt_rel_eq. intros [|]; [|exact H1].
  apply opt_rel_eq. intros a. apply dispatch_sim, H1.
Qed.

Lemma for_pencils_sim (index : Z) (pencils : list Z) :
  forall (r : Run) (f : Fast.Run),
    sim r f ->
    opt_rel sim (for_pencils (pencil_body rec index depth) pencils r)
      (Fast.for_pencils (Fast.pencil_body frec index depth) pencils f).
Proof.
  induction pencils as [|p rest IH]; intros r f H; [exact H|].
  rewrite for_pencils_cons. simpl.
  eapply opt_rel_bind; [apply pencil_body_sim, H|].
  intros [r1|r1] [f1|f1]; simpl; try contradiction; auto.
Qed.

End visit_sim.

Lemma Fast_RecTraverse_S (fuel : nat) (index depth : Z) (r : Fast.Run) :
  Fast.RecTraverse (S fuel) index depth r =
    t ← Fast.cells r !! index;
    if (Transition.Visited t >? 0) && (Transition.Visited t <=? depth)
    then Some r
    else
      r ← Fast.record_visit index depth t r;
      Fast.for_pencils
        (Fast.pencil_body (Fast.RecTraverse fuel) index depth) [0; 1] r.
Proof. reflexivity. Qed.

Lemma RecTraverse_sim (fuel : nat) :
  forall (index depth : Z) (r : Run) (f : Fast.Run),
    sim r f ->
    opt_rel sim (RecTraverse fuel index depth r)
      (Fast.RecTraverse fuel index depth f).
Proof.
  induction fuel as [|fuel IH]; intros index depth r f H; [exact I|].
  rewrite RecTraverse_S, Fast_RecTraverse_S.
  rewrite <- (proj1 H index). apply opt_rel_eq. intros t.
  destruct (_ && _); [exact H|].
  eapply opt_rel_bind; [apply record_visit_sim, H|].
  intros r1 f1 H1. apply for_pencils_sim; [|exact H1].
  intros j r0 f0. apply IH.
Qed.

(** ** The run of the program *)

Lemma bind_Some_eq {A B : Type} (x : A) (k : A -> option B) :
  Some x ≫= k = k x.
Proof. reflexivity. Qed.

Lemma opt_rel_Some {A B : Type} (R : A -> B -> Prop) (a : option A) (y : B) :
  opt_rel R a (Some y) -> exists x, a = Some x /\ R x y.
Proof. destruct a as [x|]; simpl; [eauto | contradiction]. Qed.

Lemma fast_first_spec : sim (first_run table) fast_first.
Proof.
  replace fast_first with (fast_of (first_run table))
    by (vm_compute; reflexivity).
  apply sim_fast_of.
Qed.

Lemma fast_start_spec :
  exists t,
    Fast.cells fast_first !! start_index = Some t /\
    (Transition.Visited t >? 0) && (Transition.Visited t <=? 1) = false /\
    Fast.record_visit start_index 1 t fast_first = Some fast_start.
Proof.
  eexists. split; [vm_compute; reflexivity|].
  split; vm_compute; reflexivity.
Qed.

Lemma fast_mid_spec :
  Fast.pencil_body (Fast.RecTraverse 272) start_index 1 0 fast_start
    = Some (Fast.Continue fast_mid).
Proof. vm_compute. reflexivity. Qed.

Lemma fast_end_spec :
  Fast.pencil_body (Fast.RecTraverse 272) start_index 1 1 fast_mid
    = Some (Fast.Continue fast_end).
Proof. vm_compute. reflexivity. Qed.

Lemma StartTraversal_unfold (fuel : nat) (sp : list Transition) :
  StartTraversal fuel sp = RecTraverse fuel start_index 1 (first_run sp).
Proof. reflexivity. Qed.

(** The run of the program, step by step: the start state is recorded at
    depth 1, the loop body of pencil 0 and then that of pencil 1 fall
    through, and the run after each is the one computed on the map. *)
Lemma program_run :
  exists (t : Transition) (r_start r_mid r_end : Run),
    at_index (space (first_run table)) start_index = Some t /\
    record_visit start_index 1 t (first_run table) = Some r_start /\
    pencil_body (RecTraverse 272) start_index 1 0 r_start
      = Some (Continue r_mid) /\
    pencil_body (RecTraverse 272) start_index 1 1 r_mid
      = Some (Continue r_end) /\
    StartTraversal 273 table = Some r_end /\
    sim r_mid fast_mid /\ sim r_end fast_end.
Proof.
  destruct fast_start_spec as (t & Ht & Hpruned & Hstart).
  pose proof fast_first_spec as H0.
  rewrite <- (proj1 H0) in Ht.
  pose proof (record_visit_sim start_index 1 t _ _ H0) as H1.
  rewrite Hstart in H1. apply opt_rel_Some in H1 as (r_start & Es & Hs).
  pose proof (pencil_body_sim (RecTraverse 272) (Fast.RecTraverse 272) 1
                (fun j r f => RecTraverse_sim 272 j (1 + 1) r f)
                start_index 0 _ _ Hs) as H2.
  rewrite fast_mid_spec in H2. apply opt_rel_Some in H2 as (fm & Em & Hm).
  destruct fm as [r_mid|r_mid]; [contradiction|]. simpl in Hm.
  pose proof (pencil_body_sim (RecTraverse 272) (Fast.RecTraverse 272) 1
                (fun j r f => RecTraverse_sim 272 j (1 + 1) r f)
                start_index 1 _ _ Hm) as H3.
  rewrite fast_end_spec in H3. apply opt_rel_Some in H3 as (fe & Ee & He).
  destruct fe as [r_end|r_end]; [contradiction|]. simpl in He.
  exists t, r_start, r_mid, r_end. do 4 (split; [assumption|]).
  split; [|auto].
  rewrite StartTraversal_unfold, RecTraverse_S, Ht, bind_Some_eq.
  rewrite Hpruned, Es, bind_Some_eq.
  rewrite for_pencils_cons, Em, bind_Some_eq.
  rewrite for_pencils_cons, Ee, bind_Some_eq. reflexivity.
Qed.

Lemma StartTraversal_fuel_mono (fuel fuel' : nat) (sp : list Transition) (r : Run) :
  (fuel <= fuel')%nat ->
  StartTraversal fuel sp = Some r -> StartTraversal fuel' sp = Some r.
Proof.
  rewrite !StartTraversal_unfold. apply RecTraverse_fuel_mono.
Qed.

(** C1, as stated, fails: the traversal from the start state of the
    program reports that the goal was reached, at depth 37 among others,
    and never reports an illegal state. *)
Lemma program_reports_goal_and_no_illegal_state :
  exists r,
    StartTraversal 273 table = Some r /\
    In (GoalEncountered 37) (output r) /\
    existsb is_goal (output r) = true /\
    existsb is_illegal (output r) = false.
Proof.
  destruct program_run as (t & r_start & r_mid & r_end & _ & _ & _ & _ & Hrun & _ & He).
  exists r_end. split; [exact Hrun|].
  destruct He as (_ & _ & _ & ->).
  split; [|split]; [|vm_compute; reflexivity..].
  vm_compute. right. left. reflexivity.
Qed.

(** C1, amended: on the state space that the constructor builds, the
    traversal from the start state of the program (pencil 0 on box 1,
    pencil 1 on box 7, nothing moved, rule 60 off) returns, with any fuel
    from 273 on; it reports 150 times that the goal was reached, one of
    them at depth 37, never reports an illegal state, and the maximal
    depth is 272. *)
Theorem program_traversal (sp : list Transition) :
  Searcher_new = Some sp ->
  exists r,
    (forall fuel, (273 <= fuel)%nat -> StartTraversal fuel sp = Some r) /\
    maxDepth r = 272 /\
    length (List.filter is_goal (output r)) = 150%nat /\
    In (GoalEncountered 37) (output r) /\
    List.filter is_illegal (output r) = [].
Proof.
  rewrite Searcher_new_table. intros [= <-].
  destruct program_run as (t & r_start & r_mid & r_end & _ & _ & _ & _ & Hrun & _ & He).
  exists r_end. split.
  - intros fuel Hle. eapply StartTraversal_fuel_mono; eassumption.
  - destruct He as (_ & -> & _ & ->).
    split; [vm_compute; reflexivity|]. split; [vm_compute; reflexivity|].
    split; [|vm_compute; reflexivity].
    vm_compute. right. left. reflexivity.
Qed.

Lemma program_traversal_witness :
  exists r,
    (forall fuel, (273 <= fuel)%nat -> StartTraversal fuel table = Some r) /\
    maxDepth r = 272 /\
    length (List.filter is_goal (output r)) = 150%nat /\
    In (GoalEncountered 37) (output r) /\
    List.filter is_illegal (output r) = [].
Proof. apply (program_traversal table). vm_compute. reflexivity. Defined.

(** ** The visited counter *)

Lemma visited_at_sim (r : Run) (f : Fast.Run) (i : Z) :
  sim r f ->
  visited_at r i = default 0 (Transition.Visited <$> Fast.cells f !! i).
Proof. intros [H _]. unfold visited_at. rewrite H. reflexivity. Qed.


Lemma RecTraverse_pruned (fuel : nat) (index depth : Z) (r r' : Run) (t : Transition) :
  RecTraverse fuel index depth r = Some r' ->
  at_index (space r) index = Some t ->
  0 < visited t <= depth ->
  r' = r.
Proof.
  destruct fuel as [|fuel]; [discriminate|].
  rewrite RecTraverse_S. intros H Ht Hv. rewrite Ht, bind_Some_eq in H.
  unfold Transition.Visited in H.
  destruct (Z.gtb_spec (visited t) 0); [|lia].
  destruct (Z.leb_spec (visited t) depth); [|lia].
  simpl in H. congruence.
Qed.

Lemma RecTraverse_stamps (fuel : nat) (index depth : Z) (r r' : Run) (t : Transition) :
  0 < depth ->
  RecTraverse fuel index depth r = Some r' ->
  at_index (space r) index = Some t ->
  ~ (0 < visited t <= depth) ->
  0 < visited_at r' index <= depth.
Proof.
  intros Hd. destruct fuel as [|fuel]; [discriminate|].
  rewrite RecTraverse_S. intros H Ht Hv. rewrite Ht, bind_Some_eq in H.
  destruct (_ && _) eqn:Hpruned.
  { exfalso. apply Hv. unfold Transition.Visited in Hpruned.
    apply andb_true_iff in Hpruned as [H1 H2].
    rewrite Z.gtb_ltb in H1. apply Z.ltb_lt in H1. apply Z.leb_le in H2. lia. }
  destruct (record_visit index depth t r) as [r1|] eqn:Erv; [|discriminate].
  rewrite bind_Some_eq in H.
  destruct (record_visit_spec _ _ _ _ _ Ht Hpruned Hd Erv) as (_ & Ht1 & _).
  apply for_pencils_settles in H.
  - destruct (settles_at_index _ _ _ _ H Ht1) as (t' & Ht' & _ & Hle).
    unfold visited_at, Transition.Visited. rewrite Ht'. simpl in *. lia.
  - intros j r0 r0' Hrec. apply RecTraverse_settles in Hrec; [exact Hrec | lia].
Qed.

Lemma record_visit_space (index depth : Z) (t : Transition) (r r1 : Run) :
  record_visit index depth t r = Some r1 ->
  0 <= index /\
  space r1 = <[Z.to_nat index := Transition.SetVisited depth t]> (space r).
Proof.
  unfold record_visit.
  destruct (set_index (space r) index _) as [sp'|] eqn:Es; simpl; [|discriminate].
  apply set_index_Some in Es as [Hi ->].
  set (r0 := if _ <? _ then _ else _).
  assert (H0 : space r0 = <[Z.to_nat index := Transition.SetVisited depth t]> (space r))
    by (unfold r0; destruct (_ <? _); reflexivity).
  destruct (depth <=? TRACE_ENTRIES).
  - destruct (set_index (stackTrace r0) (depth - 1) _) as [st|]; simpl;
      [|discriminate].
    intros [= <-]. split; [lia | exact H0].
  - intros [= <-]. split; [lia | exact H0].
Qed.

Lemma written_refl (depth : Z) (r : Run) : written depth r r.
Proof. intros i t t' Ht Ht'. left. congruence. Qed.

Lemma written_same (depth : Z) (r r' : Run) :
  space r' = space r -> written depth r r'.
Proof. intros Hs i t t' Ht Ht'. rewrite Hs in Ht'. left. congruence. Qed.

Lemma written_weaken (depth depth' : Z) (r r' : Run) :
  depth' <= depth -> written depth r r' -> written depth' r r'.
Proof.
  intros Hle H i t t' Ht Ht'.
  destruct (H i t t' Ht Ht') as [E | [H1 H2]]; [left; exact E | right].
  split; [lia | exact H2].
Qed.

Lemma written_trans (depth : Z) (r1 r2 r3 : Run) :
  0 < depth -> settles r1 r2 ->
  written depth r1 r2 -> written depth r2 r3 -> written depth r1 r3.
Proof.
  intros Hd Hs H12 H23 i t t'' Ht Ht''.
  destruct (settles_at_index _ _ _ _ Hs Ht) as (t' & Ht' & _).
  destruct (H12 i t t' Ht Ht') as [E1 | [A1 B1]];
    destruct (H23 i t' t'' Ht' Ht'') as [E2 | [A2 B2]].
  - left. congruence.
  - right. rewrite <- E1. auto.
  - right. rewrite E2. auto.
  - right. split; [exact A2 | lia].
Qed.

Lemma record_visit_written (index depth : Z) (t : Transition) (r r1 : Run) :
  at_index (space r) index = Some t ->
  (Transition.Visited t >? 0) && (Transition.Visited t <=? depth) = false ->
  record_visit index depth t r = Some r1 ->
  written depth r r1.
Proof.
  intros Ht Hnot Hrv. apply record_visit_space in Hrv as [Hi Hs].
  intros i x x' Hx Hx'. rewrite Hs in Hx'.
  destruct (Z.eq_dec index i) as [<- | Hne].
  - pose proof (at_index_Some _ _ _ Hx') as Hr. rewrite length_insert in Hr.
    rewrite (at_index_insert_eq _ _ _ Hr) in Hx'. injection Hx' as <-.
    assert (x = t) as -> by congruence.
    right. simpl. split; [lia|].
    unfold Transition.Visited in Hnot.
    apply andb_false_iff in Hnot as [H | H].
    + rewrite Z.gtb_ltb in H. apply Z.ltb_ge in H. lia.
    + apply Z.leb_gt in H. lia.
  - rewrite (at_index_insert_ne _ _ _ _ Hi Hne) in Hx'. left. congruence.
Qed.

Section visit_written.

Variable rec : Z -> Z -> Run -> option Run.
Variable depth : Z.
Hypothesis depth_positive : 0 < depth.
Hypothesis rec_settles :
  forall j r r', rec j (depth + 1) r = Some r' -> settles r r'.
Hypothesis rec_written :
  forall j r r', rec j (depth + 1) r = Some r' -> written (depth + 1) r r'.

Lemma dispatch_written (s : State) (r : Run) (f : flow) :
  dispatch rec s depth r = Some f -> written (depth + 1) r (flow_run f).
Proof.
  unfold dispatch. destruct (State.IllegalP s).
  { intros [= <-]. apply written_same. reflexivity. }
  destruct (State.GoalP s).
  { intros [= <-]. apply written_same. reflexivity. }
  destruct (ComputeIndex s) as [j|]; simpl; [|discriminate].
  destruct (rec j (depth + 1) r) as [r'|] eqn:E; simpl; [|discriminate].
  intros [= <-]. apply (rec_written _ _ _ E).
Qed.

Lemma pencil_body_written (index p : Z) (r : Run) (f : flow) :
  pencil_body rec index depth p r = Some f -> written (depth + 1) r (flow_run f).
Proof.
  unfold pencil_body.
  destruct (at_index (space r) index) as [t|]; simpl; [|discriminate].
  destruct (Transition.NextState p t) as [n|]; simpl; [|discriminate].
  destruct (dispatch rec n depth r) as [f1|] eqn:E1; simpl; [|discriminate].
  pose proof (dispatch_settles rec depth rec_settles _ _ _ E1) as S1.
  apply dispatch_written in E1.
  destruct f1 as [r1|r1]; simpl in E1, S1; [intros [= <-]; exact E1|].
  destruct (at_index (space r1) index) as [t1|]; simpl; [|discriminate].
  destruct (Transition.AltNextValidP p t1) as [[|]|]; simpl; [| |discriminate].
  - destruct (Transition.AltNextState p t1) as [a|]; simpl; [|discriminate].
    intros E2. apply dispatch_written in E2.
    apply (written_trans _ _ r1); [lia | assumption..].
  - intros [= <-]. exact E1.
Qed.

Lemma for_pencils_written (index : Z) (pencils : list Z) (r r' : Run) :
  for_pencils (pencil_body rec index depth) pencils r = Some r' ->
  written (depth + 1) r r'.
Proof.
  revert r. induction pencils as [|p rest IH]; intros r.
  { intros [= <-]. apply written_refl. }
  rewrite for_pencils_cons.
  destruct (pencil_body rec index depth p r) as [f|] eqn:E; simpl; [|discriminate].
  pose proof (pencil_body_settles rec depth rec_settles _ _ _ _ E) as S1.
  apply pencil_body_written in E.
  destruct f as [r1|r1]; simpl in E, S1.
  - intros [= <-]. exact E.
  - intros H. apply IH in H.
    apply (written_trans _ _ r1); [lia | assumption..].
Qed.

End visit_written.

(** A visit at depth [depth] writes no counter below [depth]. *)
Lemma RecTraverse_written (fuel : nat) :
  forall (index depth : Z) (r r' : Run),
    0 < depth -> RecTraverse fuel index depth r = Some r' -> written depth r r'.
Proof.
  induction fuel as [|fuel IH]; intros index depth r r' Hd; [discriminate|].
  rewrite RecTraverse_S.
  destruct (at_index (space r) index) as [t|] eqn:Ht; simpl; [|discriminate].
  destruct (_ && _) eqn:Hpruned; [intros [= <-]; apply written_refl|].
  destruct (record_visit index depth t r) as [r1|] eqn:Erv; simpl; [|discriminate].
  pose proof (record_visit_written _ _ _ _ _ Ht Hpruned Erv) as W1.
  apply (record_visit_spec _ _ _ _ _ Ht Hpruned Hd) in Erv as (S1 & _).
  intros H. apply (written_trans _ _ r1); [exact Hd | exact S1 | exact W1 |].
  apply (written_weaken (depth + 1)); [lia|].
  eapply for_pencils_written; [exact Hd | | | exact H].
  - intros j r0 r0' Hrec. apply RecTraverse_settles in Hrec; [exact Hrec | lia].
  - intros j r0 r0' Hrec. apply IH in Hrec; [exact Hrec | lia].
Qed.

(** A visit that is not pruned leaves its depth in the counter of its
    state: what it calls is deeper and does not write the counter
    again. *)
Lemma RecTraverse_stamps_depth (fuel : nat) (index depth : Z) (r r' : Run)
    (t : Transition) :
  0 < depth ->
  RecTraverse fuel index depth r = Some r' ->
  at_index (space r) index = Some t ->
  ~ (0 < visited t <= depth) ->
  visited_at r' index = depth.
Proof.
  intros Hd. destruct fuel as [|fuel]; [discriminate|].
  rewrite RecTraverse_S. intros H Ht Hv. rewrite Ht, bind_Some_eq in H.
  destruct (_ && _) eqn:Hpruned.
  { exfalso. apply Hv. unfold Transition.Visited in Hpruned.
    apply andb_true_iff in Hpruned as [H1 H2].
    rewrite Z.gtb_ltb in H1. apply Z.ltb_lt in H1. apply Z.leb_le in H2. lia. }
  destruct (record_visit index depth t r) as [r1|] eqn:Erv; [|discriminate].
  rewrite bind_Some_eq in H.
  destruct (record_visit_spec _ _ _ _ _ Ht Hpruned Hd Erv) as (_ & Ht1 & _).
  assert (Hs : settles r1 r').
  { eapply for_pencils_settles; [|exact H].
    intros j r0 r0' Hrec. apply RecTraverse_settles in Hrec; [exact Hrec | lia]. }
  assert (Hw : written (depth + 1) r1 r').
  { eapply for_pencils_written; [exact Hd | | | exact H].
    - intros j r0 r0' Hrec. apply RecTraverse_settles in Hrec; [exact Hrec | lia].
    - intros j r0 r0' Hrec. apply RecTraverse_written in Hrec; [exact Hrec | lia]. }
  destruct (settles_at_index _ _ _ _ Hs Ht1) as (t' & Ht' & _).
  unfold visited_at, Transition.Visited. rewrite Ht'. simpl.
  destruct (Hw _ _ _ Ht1 Ht') as [E | [A B]]; simpl in *; lia.
Qed.



(** ** An illegal next state ends the visit *)

(** C9, as stated, fails on the state with both pencils on box 26 and
    rule 60 off: the next states of pencil 0 and of pencil 1 are both
    illegal; the visit reports the first and returns, so that there is
    one message, where the visit that goes on to pencil 1 reports two. *)
Lemma illegal_next_state_skips_other_pencil :
  exists t,
    at_index table embrace_index = Some t /\
    State.IllegalP <$> Transition.NextState 0 t = Some true /\
    State.IllegalP <$> Transition.NextState 1 t = Some true /\
    output <$> RecTraverse 1 embrace_index 1 (first_run table)
      = Some [IllegalEncountered] /\
    output <$> RecTraverse_going_on 1 embrace_index 1 (first_run table)
      = Some [IllegalEncountered; IllegalEncountered].
Proof.
  eexists. split; [vm_compute; reflexivity|].
  repeat split; vm_compute; reflexivity.
Qed.

(** C9, amended: when the next state of a pencil is illegal, the loop
    body of that pencil reports it and returns from the visit: the
    alternate next state of the pencil and the pencils that remain are
    not looked at.  So a visit that is not pruned and finds the next
    state of pencil 0 illegal returns the recorded run with the one
    message, and so does a visit in which the loop body of pencil 0 falls
    through and the next state of pencil 1 is illegal. *)
Theorem illegal_next_state_ends_visit (fuel : nat) (index depth pencil : Z)
    (r : Run) (t : Transition) (n : State) :
  at_index (space r) index = Some t ->
  Transition.NextState pencil t = Some n ->
  State.IllegalP n = true ->
  pencil_body (RecTraverse fuel) index depth pencil r
    = Some (Return (print [IllegalEncountered] r)) /\
  (forall rest,
     for_pencils (pencil_body (RecTraverse fuel) index depth) (pencil :: rest) r
       = Some (print [IllegalEncountered] r)) /\
  (forall r0 t0,
     pencil = 0 ->
     at_index (space r0) index = Some t0 ->
     (Transition.Visited t0 >? 0) && (Transition.Visited t0 <=? depth) = false ->
     record_visit index depth t0 r0 = Some r ->
     RecTraverse (S fuel) index depth r0 = Some (print [IllegalEncountered] r)) /\
  (forall r0 t0 r1,
     pencil = 1 ->
     at_index (space r0) index = Some t0 ->
     (Transition.Visited t0 >? 0) && (Transition.Visited t0 <=? depth) = false ->
     record_visit index depth t0 r0 = Some r1 ->
     pencil_body (RecTraverse fuel) index depth 0 r1 = Some (Continue r) ->
     RecTraverse (S fuel) index depth r0 = Some (print [IllegalEncountered] r)).
Proof.
  intros Ht Hn Hill.
  assert (Hbody : pencil_body (RecTraverse fuel) index depth pencil r
                  = Some (Return (print [IllegalEncountered] r))).
  { unfold pencil_body. rewrite Ht, bind_Some_eq, Hn, bind_Some_eq.
    unfold dispatch. rewrite Hill. reflexivity. }
  split; [exact Hbody|]. split; [|split].
  - intros rest. rewrite for_pencils_cons, Hbody. reflexivity.
  - intros r0 t0 -> Ht0 Hpruned Hrec.
    rewrite RecTraverse_S, Ht0, bind_Some_eq, Hpruned, Hrec, bind_Some_eq.
    rewrite for_pencils_cons, Hbody. reflexivity.
  - intros r0 t0 r1 -> Ht0 Hpruned Hrec H0.
    rewrite RecTraverse_S, Ht0, bind_Some_eq, Hpruned, Hrec, bind_Some_eq.
    rewrite for_pencils_cons, H0, bind_Some_eq.
    rewrite for_pencils_cons, Hbody. reflexivity.
Qed.

Lemma illegal_next_state_ends_visit_witness :
  exists (t : Transition) (n : State),
    at_index (space (first_run table)) embrace_index = Some t /\
    Transition.NextState 0 t = Some n /\
    State.IllegalP n = true /\
    forall rest,
      for_pencils (pencil_body (RecTraverse 0) embrace_index 1) (0 :: rest)
        (first_run table)
      = Some (print [IllegalEncountered] (first_run table)).
Proof.
  assert (H : exists t n,
             at_index (space (first_run table)) embrace_index = Some t /\
             Transition.NextState 0 t = Some n /\
             State.IllegalP n = true).
  { eexists. eexists. split; [vm_compute; reflexivity|].
    split; [vm_compute; reflexivity|]. reflexivity. }
  destruct H as (t & n & Ht & Hn & Hill). exists t, n.
  do 3 (split; [assumption|]).
  apply (illegal_next_state_ends_visit 0 embrace_index 1 0 (first_run table) t n
           Ht Hn Hill).
Defined.

(** A path of two transitions: from pencil 0 on box 60 and pencil 1 on
    box 7 with rule 60 off, pencil 0 goes to box 25, which turns rule 60
    on, and then to box 7. *)
Lemma path_through_60 :
  transition_path (mkState 12 3 false false false) [60; 25]
    (mkState 3 3 true true false).
Proof.
  apply path_step with (c' := mkState 6 3 true true false).
  - eapply (produces_next _ _ _ 0 (fresh (mkState 12 3 false false false)));
      [left; reflexivity | unfold legal, MAZEPOINT_COUNT; simpl; lia
      | reflexivity | reflexivity | vm_compute; reflexivity | reflexivity].
  - apply path_step with (c' := mkState 3 3 true true false); [|apply path_here].
    eapply (produces_next _ _ _ 0 (fresh (mkState 6 3 true true false)));
      [left; reflexivity | unfold legal, MAZEPOINT_COUNT; simpl; lia
      | reflexivity | reflexivity | vm_compute; reflexivity | reflexivity].
Qed.

Lemma rule60_persists_witness :
  (exists trs' path n,
     DetermineNextStates 0 (fresh (mkState 12 3 false false false))
       = Some (trs', path) /\
     Transition.NextState 0 trs' = Some n /\
     produces (mkState 12 3 false false false) 60 n /\
     State.Rule60P n = true) /\
  State.Rule60P (mkState 3 3 true true false) = rule60_along [60; 25] false /\
  (forall front rest, [60; 25] = front ++ 60 :: rest -> 65 ∉ rest ->
     State.Rule60P (mkState 3 3 true true false) = true).
Proof.
  destruct (rule60_persists 0 (fresh (mkState 12 3 false false false)))
    as [(box & trs' & path & n & Hb & Hd & Hn & Hprod & _ & H60 & _) Hpaths];
    [left; reflexivity | unfold legal, MAZEPOINT_COUNT; simpl; lia |].
  injection Hb as <-.
  split; [exists trs', path, n; auto|].
  destruct (Hpaths (mkState 12 3 false false false) [60; 25]
              (mkState 3 3 true true false) path_through_60)
    as (H1 & _ & H2 & _).
  split; [exact H1 | exact H2].
Defined.


(** * Further properties of the program *)

(** ** Boxes and their indices *)

Lemma search_out (m : Z) (l : list Z) :
  forall i, m ∉ l -> State.search m l i = i + Z.of_nat (length l).
Proof.
  induction l as [|x l IH]; intros i Hout; simpl State.search.
  - simpl. lia.
  - apply not_elem_of_cons in Hout as [Hne Hout].
    destruct (Z.eqb_spec x m) as [-> | _]; [contradiction|].
    rewrite IH by exact Hout. simpl length. lia.
Qed.

Lemma search_MAZEPOINT_out (m : Z) :
  m ∉ MAZEPOINT -> State.search m MAZEPOINT 0 = MAZEPOINT_COUNT.
Proof. intros Hout. rewrite search_out by exact Hout. reflexivity. Qed.

Lemma GetMazePointIndex_iff (m i : Z) :
  State.GetMazePointIndex m = Some i <-> at_index MAZEPOINT i = Some m.
Proof.
  destruct (decide (m ∈ MAZEPOINT)) as [Hin | Hout].
  - split.
    + unfold MAZEPOINT in Hin.
      repeat (apply elem_of_cons in Hin as [-> | Hin];
              [intros [= <-]; reflexivity|]).
      inversion Hin.
    + intros Hi. pose proof (at_index_Some _ _ _ Hi) as Hr. simpl in Hr.
      assert (Hc : 0 <= i < MAZEPOINT_COUNT) by (unfold MAZEPOINT_COUNT; lia).
      apply index_cases in Hc. simpl in Hc.
      repeat (destruct Hc as [Hc | Hc];
              [subst i; injection Hi as <-; reflexivity|]).
      destruct Hc.
  - split.
    + unfold State.GetMazePointIndex. rewrite (search_MAZEPOINT_out m Hout).
      discriminate.
    + intros Hi. exfalso. apply Hout.
      unfold at_index in Hi. destruct (i <? 0); [discriminate|].
      apply list_elem_of_lookup. eauto.
Qed.

(** X1: [State::GetMazePointIndex] inverts the array [MAZEPOINT]: it
    returns [i] for [m] exactly when [MAZEPOINT[i]] is [m]; so it aborts on
    every number that is not one of the sixteen boxes, the goal and the
    illegal maze point among them. *)
Theorem GetMazePointIndex_inverts_MAZEPOINT (m i : Z) :
  (State.GetMazePointIndex m = Some i <-> at_index MAZEPOINT i = Some m) /\
  (State.GetMazePointIndex m = None <-> m ∉ MAZEPOINT) /\
  State.GetMazePointIndex GOAL_MAZEPOINT = None /\
  State.GetMazePointIndex ILLEGAL_MAZEPOINT = None.
Proof.
  split; [apply GetMazePointIndex_iff|]. split; [|split; reflexivity].
  split.
  - intros Hnone Hin. apply list_elem_of_lookup in Hin as [k Hk].
    assert (Hi : at_index MAZEPOINT (Z.of_nat k) = Some m).
    { unfold at_index. destruct (Z.ltb_spec (Z.of_nat k) 0); [lia|].
      rewrite Nat2Z.id. exact Hk. }
    apply GetMazePointIndex_iff in Hi. congruence.
  - intros Hout. unfold State.GetMazePointIndex.
    rewrite (search_MAZEPOINT_out m Hout). reflexivity.
Qed.

Lemma MAZEPOINT_no_sentinel (x : Z) :
  x ∈ MAZEPOINT -> x <> ILLEGAL_MAZEPOINT /\ x <> GOAL_MAZEPOINT.
Proof.
  unfold MAZEPOINT. intros Hx.
  repeat (apply elem_of_cons in Hx as [-> | Hx]; [split; discriminate|]).
  inversion Hx.
Qed.

Lemma at_index_MAZEPOINT (i x : Z) :
  at_index MAZEPOINT i = Some x ->
  0 <= i < MAZEPOINT_COUNT /\ x ∈ MAZEPOINT /\
  (i =? ILLEGAL_MAZEPOINT) || (i =? GOAL_MAZEPOINT) = false.
Proof.
  intros Hi. pose proof (at_index_Some _ _ _ Hi) as Hr. simpl in Hr.
  split; [unfold MAZEPOINT_COUNT; lia|]. split.
  - unfold at_index in Hi. destruct (i <? 0); [discriminate|].
    apply list_elem_of_lookup. eauto.
  - unfold ILLEGAL_MAZEPOINT, GOAL_MAZEPOINT.
    apply orb_false_iff. split; apply Z.eqb_neq; lia.
Qed.

Lemma check_pencil_Some (p : Z) :
  check_pencil p = Some tt <-> p = 0 \/ p = 1.
Proof.
  unfold check_pencil.
  destruct (Z.ltb_spec p 0), (Z.ltb_spec 1 p); simpl;
    split; try discriminate; try lia; reflexivity.
Qed.

Lemma check_pencil_None (p : Z) :
  ~ (p = 0 \/ p = 1) -> check_pencil p = None.
Proof.
  intros H. destruct (check_pencil p) as [[]|] eqn:E; [|reflexivity].
  apply check_pencil_Some in E. contradiction.
Qed.

Lemma raw_set_raw (p x : Z) (s : State) : State.raw p (State.set_raw p x s) = x.
Proof. unfold State.raw, State.set_raw. destruct (p =? 0); reflexivity. Qed.

Lemma Pencil_set_raw_other (p x : Z) (s : State) :
  p = 0 \/ p = 1 ->
  State.Pencil (other p) (State.set_raw p x s) = State.Pencil (other p) s.
Proof. intros [-> | ->]; reflexivity. Qed.

(** X2: [State::SetPencil] accepts pencil 0 or 1 and one of the sixteen
    boxes, the goal or the illegal maze point, and aborts on anything
    else; when it returns, [State::Pencil] reads back what was set, and
    the other pencil, the movement flags and rule 60 are as before. *)
Theorem SetPencil_then_Pencil (p x : Z) (s : State) :
  (is_Some (State.SetPencil p x s) <-> settable p x) /\
  (forall s', State.SetPencil p x s = Some s' ->
     State.Pencil p s' = Some x /\
     State.Pencil (other p) s' = State.Pencil (other p) s /\
     State.MovementP 0 s' = State.MovementP 0 s /\
     State.MovementP 1 s' = State.MovementP 1 s /\
     State.Rule60P s' = State.Rule60P s).
Proof.
  unfold settable, State.SetPencil.
  destruct (decide (p = 0 \/ p = 1)) as [Hp | Hp].
  2: { rewrite (check_pencil_None p Hp). simpl. split.
       - split; [intros [? [=]] | intros [? _]; contradiction].
       - discriminate. }
  rewrite (proj2 (check_pencil_Some p) Hp), bind_Some_eq.
  destruct ((x =? ILLEGAL_MAZEPOINT) || (x =? GOAL_MAZEPOINT)) eqn:Hs.
  - assert (Hx : x = ILLEGAL_MAZEPOINT \/ x = GOAL_MAZEPOINT).
    { apply orb_true_iff in Hs as [H | H]; apply Z.eqb_eq in H; auto. }
    split; [split; [intros _; tauto | eauto]|].
    intros s' [= <-]. split.
    + unfold State.Pencil. rewrite (proj2 (check_pencil_Some p) Hp), bind_Some_eq.
      rewrite raw_set_raw, Hs. reflexivity.
    + split; [apply Pencil_set_raw_other, Hp|].
      destruct Hp as [-> | ->]; repeat split.
  - apply orb_false_iff in Hs as [H1 H2].
    apply Z.eqb_neq in H1, H2.
    destruct (State.GetMazePointIndex x) as [i|] eqn:Hi; simpl.
    + apply GetMazePointIndex_iff in Hi.
      destruct (at_index_MAZEPOINT i x Hi) as (Hr & Hin & Hns).
      split; [split; [intros _; tauto | eauto]|].
      intros s' [= <-]. split.
      * unfold State.Pencil.
        rewrite (proj2 (check_pencil_Some p) Hp), bind_Some_eq.
        rewrite raw_set_raw, Hns. exact Hi.
      * split; [apply Pencil_set_raw_other, Hp|].
        destruct Hp as [-> | ->]; repeat split.
    + split; [|discriminate]. split; [intros [? [=]]|].
      intros [_ [Hin | [-> | ->]]]; try contradiction.
      apply list_elem_of_lookup in Hin as [k Hk].
      assert (Hk' : at_index MAZEPOINT (Z.of_nat k) = Some x).
      { unfold at_index. destruct (Z.ltb_spec (Z.of_nat k) 0); [lia|].
        rewrite Nat2Z.id. exact Hk. }
      apply GetMazePointIndex_iff in Hk'. congruence.
Qed.

Lemma Pencil_raw (p : Z) (c : State) :
  p = 0 \/ p = 1 -> 0 <= State.raw p c < MAZEPOINT_COUNT ->
  State.Pencil p c = at_index MAZEPOINT (State.raw p c).
Proof.
  intros Hp Hr. unfold State.Pencil.
  rewrite (proj2 (check_pencil_Some p) Hp), bind_Some_eq.
  replace ((State.raw p c =? ILLEGAL_MAZEPOINT) || (State.raw p c =? GOAL_MAZEPOINT))
    with false; [reflexivity|].
  symmetry. apply orb_false_iff.
  unfold ILLEGAL_MAZEPOINT, GOAL_MAZEPOINT, MAZEPOINT_COUNT in *.
  split; apply Z.eqb_neq; lia.
Qed.

(** The index of the box of a pencil is the index that the state stores. *)
Lemma index_of_Pencil (p : Z) (c : State) (x i : Z) :
  p = 0 \/ p = 1 ->
  State.Pencil p c = Some x -> State.GetMazePointIndex x = Some i ->
  i = State.raw p c /\ 0 <= State.raw p c < MAZEPOINT_COUNT.
Proof.
  intros Hp Hx Hi. apply GetMazePointIndex_iff in Hi.
  destruct (at_index_MAZEPOINT i x Hi) as (_ & Hin & _).
  destruct (MAZEPOINT_no_sentinel x Hin) as [H1 H2].
  pose proof (Pencil_on_box p c x Hx H1 H2) as Hr.
  rewrite (Pencil_raw p c Hp Hr) in Hx.
  apply GetMazePointIndex_iff in Hi, Hx. split; [congruence | exact Hr].
Qed.

Lemma ComputeIndex_eq (c : State) :
  ComputeIndex c =
    (x0 ← State.Pencil 0 c;
     i0 ← State.GetMazePointIndex x0;
     x1 ← State.Pencil 1 c;
     i1 ← State.GetMazePointIndex x1;
     Some (((((0 * 2 + Z.b2z (pencilMoved0 c)) * 2 + Z.b2z (pencilMoved1 c))
              * MAZEPOINT_COUNT + i0) * MAZEPOINT_COUNT + i1) * 2
           + Z.b2z (rule60active c))).
Proof.
  unfold ComputeIndex, State.MovementP, State.Rule60P.
  change (check_pencil 0) with (Some tt). change (check_pencil 1) with (Some tt).
  rewrite !bind_Some_eq.
  destruct (State.Pencil 0 c) as [x0|]; [|reflexivity]. rewrite !bind_Some_eq.
  destruct (State.GetMazePointIndex x0) as [i0|]; [|reflexivity].
  rewrite !bind_Some_eq.
  destruct (State.Pencil 1 c) as [x1|]; [|reflexivity]. rewrite !bind_Some_eq.
  destruct (State.GetMazePointIndex x1) as [i1|]; [|reflexivity].
  rewrite !bind_Some_eq. f_equal. unfold MAZEPOINT_COUNT.
  destruct (pencilMoved0 c), (pencilMoved1 c), (rule60active c); simpl; lia.
Qed.

(** X3: [Searcher::ComputeIndex] returns exactly on the legal states
    (it aborts when a pencil is on the goal or on the illegal maze
    point), and the index is
    1024 m0 + 512 m1 + 32 i0 + 2 i1 + r
    for the movement flags m0 and m1, the indices i0 and i1 of the boxes
    of the pencils and the rule 60 flag r. *)
Theorem ComputeIndex_closed_form (c : State) (i : Z) :
  ComputeIndex c = Some i <->
  legal c /\
  i = 1024 * Z.b2z (pencilMoved0 c) + 512 * Z.b2z (pencilMoved1 c)
      + 32 * pencil0 c + 2 * pencil1 c + Z.b2z (rule60active c).
Proof.
  rewrite ComputeIndex_eq. split.
  - destruct (State.Pencil 0 c) as [x0|] eqn:H0; [|discriminate].
    rewrite bind_Some_eq.
    destruct (State.GetMazePointIndex x0) as [i0|] eqn:I0; [|discriminate].
    rewrite bind_Some_eq.
    destruct (State.Pencil 1 c) as [x1|] eqn:H1; [|discriminate].
    rewrite bind_Some_eq.
    destruct (State.GetMazePointIndex x1) as [i1|] eqn:I1; [|discriminate].
    rewrite bind_Some_eq.
    destruct (index_of_Pencil 0 c x0 i0 (or_introl eq_refl) H0 I0) as [-> R0].
    destruct (index_of_Pencil 1 c x1 i1 (or_intror eq_refl) H1 I1) as [-> R1].
    unfold State.raw in *. simpl in *. intros [= <-].
    split; [split; assumption|].
    unfold MAZEPOINT_COUNT. lia.
  - intros [[R0 R1] ->].
    destruct (at_index_is_Some MAZEPOINT (pencil0 c)) as [x0 H0]; [exact R0|].
    destruct (at_index_is_Some MAZEPOINT (pencil1 c)) as [x1 H1]; [exact R1|].
    rewrite (Pencil_raw 0 c (or_introl eq_refl) R0).
    rewrite (Pencil_raw 1 c (or_intror eq_refl) R1).
    unfold State.raw. simpl.
    pose proof (proj2 (GetMazePointIndex_iff _ _) H0) as G0.
    pose proof (proj2 (GetMazePointIndex_iff _ _) H1) as G1.
    rewrite H0, bind_Some_eq, G0, bind_Some_eq.
    rewrite H1, bind_Some_eq, G1, bind_Some_eq.
    f_equal. unfold MAZEPOINT_COUNT. lia.
Qed.

(** ** Where a rule evaluation returns *)

(** X4: [Searcher::DetermineNextStates] returns only when the chosen
    pencil is 0 or 1, the current state is neither illegal nor a goal,
    and the chosen pencil is on one of the sixteen boxes; in every other
    case it aborts, whatever the fuel. *)
Theorem DetermineNextStates_returns_only_on_boxes (fuel : nat) (p : Z)
    (trs trs' : Transition) (path : Z) :
  DetermineNextStates_fuel fuel p trs = Some (trs', path) ->
  (p = 0 \/ p = 1) /\
  State.IllegalP (current trs) = false /\
  State.GoalP (current trs) = false /\
  exists box, State.Pencil p (current trs) = Some box /\ box ∈ MAZEPOINT.
Proof.
  destruct fuel as [|fuel]; [discriminate|]. simpl.
  unfold Transition.CurrentState.
  destruct (State.IllegalP (current trs)) eqn:Hill; [discriminate|].
  destruct (State.GoalP (current trs)) eqn:Hgoal; [discriminate|]. simpl.
  destruct (State.Pencil p (current trs)) as [box|] eqn:Hbox; [|discriminate].
  intros _.
  assert (Hp : p = 0 \/ p = 1).
  { unfold State.Pencil in Hbox.
    destruct (check_pencil p) as [[]|] eqn:E; [|discriminate].
    apply check_pencil_Some, E. }
  split; [exact Hp|]. split; [reflexivity|]. split; [reflexivity|].
  exists box. split; [reflexivity|].
  unfold State.Pencil in Hbox.
  rewrite (proj2 (check_pencil_Some p) Hp), bind_Some_eq in Hbox.
  assert (Hraw : (State.raw p (current trs) =? ILLEGAL_MAZEPOINT)
                 || (State.raw p (current trs) =? GOAL_MAZEPOINT) = false).
  { unfold State.IllegalP, State.GoalP in Hill, Hgoal.
    apply orb_false_iff in Hill as [I0 I1]. apply orb_false_iff in Hgoal as [G0 G1].
    unfold State.raw. destruct Hp as [-> | ->]; simpl.
    - rewrite I0, G0. reflexivity.
    - rewrite I1, G1. reflexivity. }
  rewrite Hraw in Hbox. apply (at_index_MAZEPOINT _ _ Hbox).
Qed.

Lemma DetermineNextStates_returns_only_on_boxes_witness :
  exists trs' path,
    DetermineNextStates_fuel 2 1 (fresh (mkState 0 3 false false false))
      = Some (trs', path) /\
    State.IllegalP (mkState 0 3 false false false) = false /\
    exists box,
      State.Pencil 1 (mkState 0 3 false false false) = Some box /\
      box ∈ MAZEPOINT.
Proof.
  assert (H : exists trs' path,
             DetermineNextStates_fuel 2 1 (fresh (mkState 0 3 false false false))
             = Some (trs', path))
    by (eexists; eexists; vm_compute; reflexivity).
  destruct H as (trs' & path & H). exists trs', path. split; [exact H|].
  destruct (DetermineNextStates_returns_only_on_boxes 2 1 _ trs' path H)
    as (_ & Hill & _ & Hbox).
  split; [exact Hill | exact Hbox].
Defined.

(** ** What a rule evaluation leaves alone *)

Lemma store_frame (p : Z) (n : State) (a : option State) (trs trs' : Transition) :
  p = 0 \/ p = 1 ->
  store p n a trs = Some trs' ->
  Transition.NextState (other p) trs' = Transition.NextState (other p) trs /\
  Transition.AltNextState (other p) trs' = Transition.AltNextState (other p) trs /\
  Transition.AltNextValidP (other p) trs' = Transition.AltNextValidP (other p) trs /\
  (Transition.AltNextValidP p trs = Some true ->
   Transition.AltNextValidP p trs' = Some true).
Proof.
  intros Hp. unfold store.
  destruct Hp as [-> | ->]; destruct a as [x|]; simpl; intros [= <-];
    repeat split; auto.
Qed.

Lemma is_outcome_checked : outcomes_all is_outcome = true.
Proof. vm_compute. reflexivity. Qed.

Lemma next_kind_checked : outcomes_all next_kind = true.
Proof. vm_compute. reflexivity. Qed.

Lemma other_stays_checked : outcomes_all other_stays = true.
Proof. vm_compute. reflexivity. Qed.

Lemma exits_checked : outcomes_all exits = true.
Proof. vm_compute. reflexivity. Qed.

Lemma rule60_override_checked : outcomes_all rule60_override = true.
Proof. vm_compute. reflexivity. Qed.

Lemma rule60_unread_checked : outcomes_all rule60_unread = true.
Proof. vm_compute. reflexivity. Qed.

Lemma asks_the_other_checked : outcomes_all asks_the_other = true.
Proof. vm_compute. reflexivity. Qed.

(** X5: on a legal state [Searcher::DetermineNextStates] changes nothing
    in the transition but what it stores for the chosen pencil: the
    current state, the visited counter and the next state, the alternate
    next state and its valid flag of the other pencil are as before, and
    a valid flag of the chosen pencil that is set stays set. *)
Theorem DetermineNextStates_keeps_the_rest (p : Z) (trs trs' : Transition)
    (path : Z) :
  p = 0 \/ p = 1 ->
  legal (current trs) ->
  DetermineNextStates p trs = Some (trs', path) ->
  Transition.CurrentState trs' = Transition.CurrentState trs /\
  Transition.Visited trs' = Transition.Visited trs /\
  Transition.NextState (other p) trs' = Transition.NextState (other p) trs /\
  Transition.AltNextState (other p) trs' = Transition.AltNextState (other p) trs /\
  Transition.AltNextValidP (other p) trs' = Transition.AltNextValidP (other p) trs /\
  (Transition.AltNextValidP p trs = Some true ->
   Transition.AltNextValidP p trs' = Some true).
Proof.
  intros Hp Hl Hd.
  destruct (outcomes_all_spec is_outcome is_outcome_checked p trs Hp Hl)
    as (n & a & path' & trs'' & Hd' & Hs & _).
  rewrite Hd in Hd'. injection Hd' as <- <-.
  pose proof (store_spec _ _ _ _ _ Hs) as (_ & Hc & Hv & _).
  pose proof (store_frame _ _ _ _ _ Hp Hs) as (H1 & H2 & H3 & H4).
  unfold Transition.CurrentState, Transition.Visited. auto 10.
Qed.

Lemma DetermineNextStates_keeps_the_rest_witness :
  exists trs' path,
    DetermineNextStates 0 (fresh (mkState 11 3 false false false))
      = Some (trs', path) /\
    Transition.NextState 1 trs' = Some State.new /\
    Transition.AltNextValidP 1 trs' = Some false.
Proof.
  assert (H : exists trs' path,
             DetermineNextStates 0 (fresh (mkState 11 3 false false false))
             = Some (trs', path))
    by (eexists; eexists; vm_compute; reflexivity).
  destruct H as (trs' & path & H). exists trs', path. split; [exact H|].
  assert (Hl : legal (current (fresh (mkState 11 3 false false false))))
    by (unfold legal, MAZEPOINT_COUNT; simpl; lia).
  destruct (DetermineNextStates_keeps_the_rest 0
              (fresh (mkState 11 3 false false false)) trs' path
              (or_introl eq_refl) Hl H)
    as (_ & _ & H1 & _ & H3 & _).
  split; [exact H1 | exact H3].
Defined.

Lemma store_commute (n0 n1 : State) (a0 a1 : option State) (trs : Transition) :
  (t ← store 0 n0 a0 trs; store 1 n1 a1 t)
  = (t ← store 1 n1 a1 trs; store 0 n0 a0 t).
Proof. destruct a0, a1; reflexivity. Qed.

Lemma DetermineNextStates_as_store (p : Z) (trs : Transition) :
  p = 0 \/ p = 1 -> legal (current trs) ->
  exists n a path,
    evaluate p (current trs) = Some (n, a, path) /\
    fst <$> DetermineNextStates p trs = store p n a trs /\
    is_Some (store p n a trs).
Proof.
  intros Hp Hl.
  destruct (outcomes_all_spec is_outcome is_outcome_checked p trs Hp Hl)
    as (n & a & path & trs' & Hd & Hs & Ho).
  exists n, a, path. split; [exact Ho|]. rewrite Hd, Hs. eauto.
Qed.

(** X6: the two rule evaluations that [Searcher::EnumerateTransitions]
    makes on a transition commute: on a legal state, evaluating pencil 0
    and then pencil 1 leaves the same transition as evaluating pencil 1
    and then pencil 0, and both return.  Each evaluation reads the
    current state only, so each pencil sees the other where it was. *)
Theorem evaluations_commute (trs : Transition) :
  legal (current trs) ->
  exists t,
    (r ← DetermineNextStates 0 trs; fst <$> DetermineNextStates 1 r.1) = Some t /\
    (r ← DetermineNextStates 1 trs; fst <$> DetermineNextStates 0 r.1) = Some t.
Proof.
  intros Hl.
  destruct (DetermineNextStates_as_store 0 trs (or_introl eq_refl) Hl)
    as (n0 & a0 & path0 & E0 & D0 & [t0 S0]).
  destruct (DetermineNextStates_as_store 1 trs (or_intror eq_refl) Hl)
    as (n1 & a1 & path1 & E1 & D1 & [t1 S1]).
  assert (C0 : current t0 = current trs) by (apply (store_spec _ _ _ _ _ S0)).
  assert (C1 : current t1 = current trs) by (apply (store_spec _ _ _ _ _ S1)).
  assert (L0 : legal (current t0)) by (rewrite C0; exact Hl).
  assert (L1 : legal (current t1)) by (rewrite C1; exact Hl).
  destruct (DetermineNextStates_as_store 1 t0 (or_intror eq_refl) L0)
    as (n1' & a1' & path1' & E1' & D01 & [t01 S01]).
  destruct (DetermineNextStates_as_store 0 t1 (or_introl eq_refl) L1)
    as (n0' & a0' & path0' & E0' & D10 & [t10 S10]).
  rewrite C0, E1 in E1'. injection E1' as <- <- <-.
  rewrite C1, E0 in E0'. injection E0' as <- <- <-.
  rewrite S0 in D0. rewrite S1 in D1.
  destruct (DetermineNextStates 0 trs) as [[u0 q0]|]; [|discriminate].
  destruct (DetermineNextStates 1 trs) as [[u1 q1]|]; [|discriminate].
  injection D0 as ->. injection D1 as ->.
  rewrite !bind_Some_eq. simpl fst. rewrite D01, D10, S01.
  pose proof (store_commute n0 n1 a0 a1 trs) as Hc.
  rewrite S0, S1, !bind_Some_eq, S01 in Hc.
  exists t01. split; [reflexivity | symmetry; exact Hc].
Qed.

Lemma evaluations_commute_witness :
  exists t,
    (r ← DetermineNextStates 0 (fresh (mkState 7 11 false false false));
     fst <$> DetermineNextStates 1 r.1) = Some t /\
    (r ← DetermineNextStates 1 (fresh (mkState 7 11 false false false));
     fst <$> DetermineNextStates 0 r.1) = Some t.
Proof.
  apply (evaluations_commute (fresh (mkState 7 11 false false false))).
  unfold legal, MAZEPOINT_COUNT; simpl; lia.
Defined.

(** ** Where the pencils go *)

(** X7: on a legal state the next state of a rule evaluation is illegal
    exactly in the deadly embrace (both pencils on box 26, rule 60 off),
    a goal exactly when the chosen pencil is on box 50 with rule 60 on
    or the other pencil on box 50 too, or when the chosen pencil is on
    box 61 with rule 60 off and the other pencil on box 50, and a legal
    state otherwise; the alternate next state of a free choice is
    legal. *)
Theorem next_state_is_legal_goal_or_illegal (p : Z) (trs : Transition) :
  p = 0 \/ p = 1 ->
  legal (current trs) ->
  exists trs' path n,
    DetermineNextStates p trs = Some (trs', path) /\
    Transition.NextState p trs' = Some n /\
    (State.IllegalP n = true <-> embrace (current trs)) /\
    (State.GoalP n = true <-> goal_move p (current trs)) /\
    (State.IllegalP n = false -> State.GoalP n = false -> legal n) /\
    (path = PATH_LUGNUT ->
       exists a, Transition.AltNextState p trs' = Some a /\ legal a).
Proof.
  intros Hp Hl.
  destruct (outcomes_all_spec next_kind next_kind_checked p trs Hp Hl)
    as (n & a & path & trs' & Hd & Hs & HP).
  apply store_spec in Hs as (Hn & _ & _ & Ha).
  unfold next_kind in HP. simpl in HP.
  destruct HP as (Hill & Hgoal & Hleg & Hsome & Halt).
  exists trs', path, n. do 5 (split; [assumption|]).
  intros Hlug. destruct (Hsome Hlug) as [x ->]. simpl in Halt.
  exists x. destruct Ha as [Ha _]. auto.
Qed.

Lemma next_state_is_legal_goal_or_illegal_witness :
  exists trs' path n,
    DetermineNextStates 0 (fresh (mkState 10 10 false false false))
      = Some (trs', path) /\
    Transition.NextState 0 trs' = Some n /\
    (State.GoalP n = true <-> goal_move 0 (mkState 10 10 false false false)).
Proof.
  destruct (next_state_is_legal_goal_or_illegal 0
              (fresh (mkState 10 10 false false false)))
    as (trs' & path & n & Hd & Hn & _ & Hg & _);
    [left; reflexivity | unfold legal, MAZEPOINT_COUNT; simpl; lia |].
  exists trs', path, n. auto.
Defined.

(** X8: on a legal state a rule evaluation leaves the other pencil on
    its box, in the next state and in the alternate next state of a
    free choice, except in the deadly embrace and in the cross move of
    box 61 with rule 60 off. *)
Theorem other_pencil_stays (p : Z) (trs : Transition) :
  p = 0 \/ p = 1 ->
  legal (current trs) ->
  ~ embrace (current trs) ->
  ~ (State.Pencil p (current trs) = Some 61 /\
     State.Rule60P (current trs) = false) ->
  exists trs' path n,
    DetermineNextStates p trs = Some (trs', path) /\
    Transition.NextState p trs' = Some n /\
    State.Pencil (other p) n = State.Pencil (other p) (current trs) /\
    (path = PATH_LUGNUT ->
       exists a,
         Transition.AltNextState p trs' = Some a /\
         State.Pencil (other p) a = State.Pencil (other p) (current trs)).
Proof.
  intros Hp Hl Hne H61.
  destruct (outcomes_all_spec other_stays other_stays_checked p trs Hp Hl)
    as (n & a & path & trs' & Hd & Hs & HP).
  apply store_spec in Hs as (Hn & _ & _ & Ha).
  unfold other_stays in HP. simpl in HP.
  destruct (HP Hne H61) as (Hst & Hsome & Halt).
  exists trs', path, n. do 3 (split; [assumption|]).
  intros Hlug. destruct (Hsome Hlug) as [x ->]. simpl in Halt.
  exists x. destruct Ha as [Ha _]. auto.
Qed.

Lemma other_pencil_stays_witness :
  exists trs' path n,
    DetermineNextStates 1 (fresh (mkState 12 11 true false false))
      = Some (trs', path) /\
    Transition.NextState 1 trs' = Some n /\
    State.Pencil (other 1) n = Some 60 /\
    (path = PATH_LUGNUT ->
       exists a,
         Transition.AltNextState 1 trs' = Some a /\
         State.Pencil (other 1) a = Some 60).
Proof.
  apply (other_pencil_stays 1 (fresh (mkState 12 11 true false false)));
    [right; reflexivity | unfold legal, MAZEPOINT_COUNT; simpl; lia
    | intros (_ & _ & H); discriminate H
    | intros [H _]; discriminate H].
Defined.

(** X9: on a legal state the path taken is one of the four path codes;
    on the paths Yes and Lugnut the chosen pencil lands on the box that
    [Searcher::GetYesPath] gives for the box it was on, so the table
    agrees with the Yes exits of the rules; on the path No it lands on
    one of the sixteen boxes, and not on the one of [GetYesPath]. *)
Theorem exits_follow_GetYesPath (p : Z) (trs : Transition) (box : Z) :
  p = 0 \/ p = 1 ->
  legal (current trs) ->
  State.Pencil p (current trs) = Some box ->
  exists trs' path n,
    DetermineNextStates p trs = Some (trs', path) /\
    Transition.NextState p trs' = Some n /\
    (path = PATH_YES \/ path = PATH_NO \/ path = PATH_LUGNUT \/ path = PATH_NONE) /\
    (path = PATH_YES \/ path = PATH_LUGNUT ->
       State.Pencil p n = GetYesPath box) /\
    (path = PATH_NO ->
       State.Pencil p n <> GetYesPath box /\
       exists x, State.Pencil p n = Some x /\ x ∈ MAZEPOINT).
Proof.
  intros Hp Hl Hbox.
  destruct (outcomes_all_spec exits exits_checked p trs Hp Hl)
    as (n & a & path & trs' & Hd & Hs & HP).
  apply store_spec in Hs as (Hn & _).
  unfold exits in HP. simpl in HP. rewrite Hbox in HP. simpl in HP.
  destruct HP as (Hcodes & Hyes & Hno).
  exists trs', path, n. do 4 (split; [assumption|]).
  intros Hpath. destruct (Hno Hpath) as [Hne [i Hi]]. split; [exact Hne|].
  destruct (State.Pencil p n) as [x|]; [|discriminate].
  exists x. split; [reflexivity|].
  simpl in Hi. apply GetMazePointIndex_iff in Hi.
  apply (at_index_MAZEPOINT _ _ Hi).
Qed.

Lemma exits_follow_GetYesPath_witness :
  exists trs' path n,
    DetermineNextStates 0 (fresh (mkState 0 3 false false false))
      = Some (trs', path) /\
    Transition.NextState 0 trs' = Some n /\
    (path = PATH_YES \/ path = PATH_LUGNUT ->
       State.Pencil 0 n = GetYesPath 1).
Proof.
  destruct (exits_follow_GetYesPath 0 (fresh (mkState 0 3 false false false)) 1)
    as (trs' & path & n & Hd & Hn & _ & Hyes & _);
    [left; reflexivity | unfold legal, MAZEPOINT_COUNT; simpl; lia
    | reflexivity |].
  exists trs', path, n. auto.
Defined.

(** ** Rule 60 *)

(** X10: with rule 60 on, on a legal state, a chosen pencil on a box
    for which [HasBoxRedTextOrGreenTextP] holds takes the path Yes, to
    the box of [GetYesPath], whatever the other pencil does: the red
    text is ignored. *)
Theorem rule60_overrides_red_text (p : Z) (trs : Transition) (box : Z) :
  p = 0 \/ p = 1 ->
  legal (current trs) ->
  State.Rule60P (current trs) = true ->
  State.Pencil p (current trs) = Some box ->
  HasBoxRedTextOrGreenTextP box = true ->
  exists trs' n,
    DetermineNextStates p trs = Some (trs', PATH_YES) /\
    Transition.NextState p trs' = Some n /\
    State.Pencil p n = GetYesPath box.
Proof.
  intros Hp Hl Hr Hbox Hred.
  destruct (outcomes_all_spec rule60_override rule60_override_checked p trs Hp Hl)
    as (n & a & path & trs' & Hd & Hs & HP).
  apply store_spec in Hs as (Hn & _).
  unfold rule60_override in HP. simpl in HP. rewrite Hbox in HP. simpl in HP.
  rewrite Hred in HP. destruct (HP Hr eq_refl) as [-> Hto].
  exists trs', n. auto.
Qed.

Lemma rule60_overrides_red_text_witness :
  exists trs' n,
    DetermineNextStates 0 (fresh (mkState 7 7 true false false))
      = Some (trs', PATH_YES) /\
    Transition.NextState 0 trs' = Some n /\
    State.Pencil 0 n = GetYesPath 26.
Proof.
  apply (rule60_overrides_red_text 0 (fresh (mkState 7 7 true false false)) 26);
    [left; reflexivity | unfold legal, MAZEPOINT_COUNT; simpl; lia
    | reflexivity | reflexivity | reflexivity].
Defined.

Lemma legal_flip_rule60 (c : State) : legal c -> legal (flip_rule60 c).
Proof. destruct c. exact id. Qed.

(** X11: on the boxes without red or green text the rule 60 flag is not
    looked at.  On a legal state with the chosen pencil on such a box,
    evaluating the rule with the flag of the current state turned over
    takes the same path and gives, the rule 60 flags of the states
    produced apart, the same next state, the same alternate next state
    and the same valid flag. *)
Theorem rule60_unread_without_red_text (p : Z) (trs : Transition) (box : Z) :
  p = 0 \/ p = 1 ->
  legal (current trs) ->
  State.Pencil p (current trs) = Some box ->
  HasBoxRedTextOrGreenTextP box = false ->
  exists trs1 trs2 path,
    DetermineNextStates p trs = Some (trs1, path) /\
    DetermineNextStates p
      (Transition.SetCurrentState (flip_rule60 (current trs)) trs)
      = Some (trs2, path) /\
    is_Some (Transition.NextState p trs1) /\
    State.SetRule60 false <$> Transition.NextState p trs1
      = State.SetRule60 false <$> Transition.NextState p trs2 /\
    Transition.AltNextValidP p trs1 = Transition.AltNextValidP p trs2 /\
    State.SetRule60 false <$> Transition.AltNextState p trs1
      = State.SetRule60 false <$> Transition.AltNextState p trs2.
Proof.
  intros Hp Hl Hbox Hred.
  destruct (outcomes_all_spec rule60_unread rule60_unread_checked p trs Hp Hl)
    as (n & a & path & trs1 & Hd & Hs & _ & HP).
  simpl in HP. rewrite Hbox in HP. simpl in HP. rewrite Hred in HP.
  specialize (HP eq_refl).
  set (t2 := Transition.SetCurrentState (flip_rule60 (current trs)) trs).
  assert (Hl2 : legal (current t2)) by (apply legal_flip_rule60, Hl).
  destruct (outcomes_all_spec is_outcome is_outcome_checked p t2 Hp Hl2)
    as (n2 & a2 & path2 & trs2 & Hd2 & Hs2 & Ho2).
  unfold is_outcome in Ho2. change (current t2) with (flip_rule60 (current trs)) in Ho2.
  rewrite Ho2 in HP. unfold without_rule60 in HP. simpl in HP.
  assert (Hn : State.SetRule60 false n2 = State.SetRule60 false n) by congruence.
  assert (Ha : State.SetRule60 false <$> a2 = State.SetRule60 false <$> a)
    by congruence.
  assert (path2 = path) as -> by congruence.
  clear HP.
  exists trs1, trs2, path. do 2 (split; [assumption|]).
  pose proof (store_spec _ _ _ _ _ Hs) as (Hn1 & _ & _ & Ha1).
  pose proof (store_spec _ _ _ _ _ Hs2) as (Hn2 & _ & _ & Ha2).
  rewrite Hn1, Hn2. simpl. rewrite Hn.
  split; [eauto|]. split; [reflexivity|].
  destruct a as [x|], a2 as [y|]; try discriminate.
  - destruct Ha1 as [-> ->], Ha2 as [-> ->]. simpl in *. split; congruence.
  - destruct Ha1 as (V0 & V1 & A0 & A1), Ha2 as (W0 & W1 & B0 & B1).
    unfold Transition.AltNextValidP, Transition.AltNextState.
    rewrite V0, V1, A0, A1, W0, W1, B0, B1. split; reflexivity.
Qed.

Lemma rule60_unread_without_red_text_witness :
  exists trs1 trs2 path,
    DetermineNextStates 1 (fresh (mkState 7 0 false false false))
      = Some (trs1, path) /\
    DetermineNextStates 1
      (Transition.SetCurrentState (mkState 7 0 true false false)
         (fresh (mkState 7 0 false false false)))
      = Some (trs2, path) /\
    is_Some (Transition.NextState 1 trs1) /\
    State.SetRule60 false <$> Transition.NextState 1 trs1
      = State.SetRule60 false <$> Transition.NextState 1 trs2.
Proof.
  destruct (rule60_unread_without_red_text 1
              (fresh (mkState 7 0 false false false)) 1)
    as (trs1 & trs2 & path & H1 & H2 & H3 & H4 & _);
    [right; reflexivity | unfold legal, MAZEPOINT_COUNT; simpl; lia
    | reflexivity | reflexivity |].
  exists trs1, trs2, path. auto.
Defined.

(** ** Box 26 *)

(** X12: box 26 with rule 60 off and the other pencil on another box.
    The rule of the other pencil is evaluated on the same current state
    (on a copy of the transition); if that evaluation takes the path No
    the chosen pencil goes to box 61 through Yes, otherwise it goes to
    box 55 through No.  The nested evaluation always returns: the other
    pencil is not on box 26, so the recursion is one level deep. *)
Theorem box_26_asks_the_other_pencil (p : Z) (trs : Transition) :
  p = 0 \/ p = 1 ->
  legal (current trs) ->
  State.Pencil p (current trs) = Some 26 ->
  State.Rule60P (current trs) = false ->
  State.Pencil (other p) (current trs) <> Some 26 ->
  exists trs' path n tmp otherPath,
    DetermineNextStates p trs = Some (trs', path) /\
    Transition.NextState p trs' = Some n /\
    DetermineNextStates (other p) trs = Some (tmp, otherPath) /\
    (otherPath = PATH_NO -> path = PATH_YES /\ State.Pencil p n = Some 61) /\
    (otherPath <> PATH_NO -> path = PATH_NO /\ State.Pencil p n = Some 55).
Proof.
  intros Hp Hl H26 Hr Hne.
  destruct (outcomes_all_spec asks_the_other asks_the_other_checked p trs Hp Hl)
    as (n & a & path & trs' & Hd & Hs & HP).
  apply store_spec in Hs as (Hn & _).
  destruct (HP H26 Hr Hne) as (_ & Hno & Hyes). simpl in Hno, Hyes.
  assert (Hq : other p = 0 \/ other p = 1)
    by (destruct Hp as [-> | ->]; [right|left]; reflexivity).
  destruct (outcomes_all_spec is_outcome is_outcome_checked (other p) trs Hq Hl)
    as (n' & a' & otherPath & tmp & Hd' & _ & Ho).
  unfold is_outcome in Ho. rewrite Ho in Hno, Hyes. simpl in Hno, Hyes.
  exists trs', path, n, tmp, otherPath. do 3 (split; [assumption|]).
  split.
  - intros ->. apply Hno. reflexivity.
  - intros Hx. apply Hyes. intros [=]. contradiction.
Qed.

Lemma box_26_asks_the_other_pencil_witness :
  exists trs' path n tmp otherPath,
    DetermineNextStates 0 (fresh (mkState 7 0 false false false))
      = Some (trs', path) /\
    Transition.NextState 0 trs' = Some n /\
    DetermineNextStates (other 0) (fresh (mkState 7 0 false false false))
      = Some (tmp, otherPath) /\
    (otherPath = PATH_NO -> path = PATH_YES /\ State.Pencil 0 n = Some 61) /\
    (otherPath <> PATH_NO -> path = PATH_NO /\ State.Pencil 0 n = Some 55).
Proof.
  apply (box_26_asks_the_other_pencil 0 (fresh (mkState 7 0 false false false)));
    [left; reflexivity | unfold legal, MAZEPOINT_COUNT; simpl; lia
    | reflexivity | reflexivity | intros H; discriminate H].
Defined.

(** * The state space of the constructor *)

Lemma store_is_Some (p : Z) (n : State) (a : option State) (trs : Transition) :
  p = 0 \/ p = 1 -> is_Some (store p n a trs).
Proof. intros [-> | ->]; destruct a; simpl; eauto. Qed.

(** What [evaluate] returns is what [DetermineNextStates] stores in the
    fresh transition of the state. *)
Lemma evaluate_Some (p : Z) (c n : State) (a : option State) (path : Z) :
  evaluate p c = Some (n, a, path) ->
  exists trs',
    DetermineNextStates p (fresh c) = Some (trs', path) /\
    Transition.NextState p trs' = Some n /\
    Transition.AltNextValidP p trs' = Some (bool_decide (is_Some a)) /\
    (forall x, a = Some x -> Transition.AltNextState p trs' = Some x).
Proof.
  unfold evaluate.
  destruct (DetermineNextStates p (fresh c)) as [[trs' path']|]; [|discriminate].
  rewrite bind_Some_eq. simpl fst. simpl snd.
  destruct (Transition.NextState p trs') as [n'|] eqn:En; [|discriminate].
  rewrite bind_Some_eq.
  destruct (Transition.AltNextValidP p trs') as [valid|] eqn:Ev; [|discriminate].
  rewrite bind_Some_eq.
  destruct (Transition.AltNextState p trs') as [a'|] eqn:Ea; [|discriminate].
  rewrite bind_Some_eq. intros [= <- <- <-].
  exists trs'. split; [reflexivity|]. split; [exact En|].
  rewrite Ev. destruct valid; split.
  - reflexivity.
  - intros x [= <-]. exact Ea.
  - reflexivity.
  - intros x Hx. discriminate.
Qed.

(** The entry of the state space of the program for a legal state. *)
Lemma table_entry (c : State) (p : Z) :
  legal c -> p = 0 \/ p = 1 ->
  exists i t n a path,
    ComputeIndex c = Some i /\ 0 <= i < TotalStates /\
    at_index table i = Some t /\
    evaluate p c = Some (n, a, path) /\
    Transition.CurrentState t = c /\ Transition.Visited t = 0 /\
    Transition.NextState p t = Some n /\
    Transition.AltNextValidP p t = Some (bool_decide (is_Some a)) /\
    (forall x, a = Some x -> Transition.AltNextState p t = Some x).
Proof.
  intros Hl Hp.
  pose proof (table_holds_outcomes c Hl) as H. unfold holds_outcomes in H.
  destruct (ComputeIndex_legal c Hl) as (i & Hi & Hrange).
  rewrite Hi, bind_Some_eq in H.
  destruct (DetermineNextStates_as_store 0 (fresh c) (or_introl eq_refl) Hl)
    as (n0 & a0 & path0 & E0 & _ & [t1 S0]).
  destruct (DetermineNextStates_as_store 1 (fresh c) (or_intror eq_refl) Hl)
    as (n1 & a1 & path1 & E1 & _ & _).
  change (current (fresh c)) with c in E0, E1.
  rewrite E0, bind_Some_eq, E1, bind_Some_eq in H. simpl in H.
  rewrite S0, bind_Some_eq in H.
  destruct (store_is_Some 1 n1 a1 t1 (or_intror eq_refl)) as [t S1].
  rewrite S1 in H.
  pose proof (store_spec _ _ _ _ _ S0) as (N0 & C0 & V0 & A0).
  pose proof (store_spec _ _ _ _ _ S1) as (N1 & C1 & V1 & A1).
  pose proof (store_frame _ _ _ _ _ (or_intror eq_refl) S1) as (F1 & F2 & F3 & _).
  change (other 1) with 0 in F1, F2, F3.
  assert (Hc : Transition.CurrentState t = c).
  { unfold Transition.CurrentState. rewrite C1, C0. reflexivity. }
  assert (Hv : Transition.Visited t = 0).
  { unfold Transition.Visited. rewrite V1, V0. reflexivity. }
  destruct Hp as [-> | ->].
  - exists i, t, n0, a0, path0. do 6 (split; [assumption|]).
    split; [congruence|]. rewrite F2, F3.
    destruct a0 as [x|].
    + destruct A0 as [A0 A0']. split; [exact A0'|]. intros y [= <-]. exact A0.
    + destruct A0 as (A0 & _). split; [|discriminate].
      unfold Transition.AltNextValidP. simpl. rewrite A0. reflexivity.
  - exists i, t, n1, a1, path1. do 6 (split; [assumption|]).
    split; [exact N1|].
    destruct a1 as [x|].
    + destruct A1 as [A1 A1']. split; [exact A1'|]. intros y [= <-]. exact A1.
    + destruct A1 as (_ & A1 & _). destruct a0 as [x|].
      * split; [|discriminate].
        unfold Transition.AltNextValidP, Transition.SetAltNextState, store in *.
        simpl in *. injection S0 as <-. simpl in A1. rewrite A1. reflexivity.
      * split; [|discriminate].
        destruct A0 as (_ & A0 & _).
        unfold Transition.AltNextValidP. simpl. rewrite A1, A0. reflexivity.
Qed.

(** X13: the state space of [Searcher::Searcher] holds, at the index of
    every legal state, the transition of that state: its current state
    is the state, its visited counter is 0, and for either pencil its
    next state is the one that [DetermineNextStates] gives on the state;
    its alternate next state is valid exactly when the path taken is the
    free choice, and then it is the one that [DetermineNextStates]
    gives. *)
Theorem Searcher_fills_the_state_space (sp : list Transition) (c : State) (p : Z) :
  Searcher_new = Some sp ->
  legal c ->
  p = 0 \/ p = 1 ->
  exists i t trs' path n,
    ComputeIndex c = Some i /\ at_index sp i = Some t /\
    Transition.CurrentState t = c /\ Transition.Visited t = 0 /\
    DetermineNextStates p (fresh c) = Some (trs', path) /\
    Transition.NextState p trs' = Some n /\
    Transition.NextState p t = Some n /\
    Transition.AltNextValidP p t = Some (bool_decide (path = PATH_LUGNUT)) /\
    (path = PATH_LUGNUT ->
     Transition.AltNextState p t = Transition.AltNextState p trs').
Proof.
  rewrite Searcher_new_table. intros [= <-] Hl Hp.
  destruct (table_entry c p Hl Hp)
    as (i & t & n & a & path & Hi & _ & Ht & He & Hc & Hv & Hn & Hvalid & Ha).
  destruct (evaluate_Some _ _ _ _ _ He) as (trs' & Hd & Hn' & _ & Ha').
  destruct (outcomes_all_spec choice_at_55 choice_at_55_checked p (fresh c) Hp Hl)
    as (n2 & a2 & path2 & trs2 & Hd2 & Hs2 & H55 & Hnot).
  rewrite Hd in Hd2. injection Hd2 as <- <-.
  assert (Ha2 : a2 = a).
  { pose proof (DetermineNextStates_frame 0 p (fresh c) Hp Hl) as Hf.
    fold (DetermineNextStates p (fresh c)) in Hf.
    change (current (fresh c)) with c in Hf.
    rewrite Hd, He, bind_Some_eq in Hf. simpl in Hf.
    destruct (store p n a (fresh c)) as [t3|] eqn:Hs3; [|discriminate].
    injection Hf as ->.
    apply store_spec in Hs3 as (_ & _ & _ & A3).
    apply store_spec in Hs2 as (_ & _ & _ & A2).
    destruct a as [x|], a2 as [y|]; try reflexivity.
    - destruct A3 as [A3 _], A2 as [A2 _]. congruence.
    - exfalso. destruct A3 as [_ A3], A2 as (V0 & V1 & _).
      unfold Transition.AltNextValidP in A3. simpl in V0, V1.
      destruct Hp as [-> | ->]; simpl in A3; congruence.
    - exfalso. destruct A2 as [_ A2], A3 as (V0 & V1 & _).
      unfold Transition.AltNextValidP in A2. simpl in V0, V1.
      destruct Hp as [-> | ->]; simpl in A2; congruence. }
  subst a2. change (current (fresh c)) with c in H55, Hnot. simpl in H55, Hnot.
  exists i, t, trs', path, n. do 7 (split; [assumption|]).
  destruct (decide (State.Pencil p c = Some 55)) as [E|E].
  - destruct (H55 E) as (-> & _ & [x ->] & _).
    rewrite Hvalid. split; [reflexivity|]. intros _.
    rewrite (Ha x eq_refl), (Ha' x eq_refl). reflexivity.
  - destruct (Hnot E) as [Hne ->]. rewrite Hvalid. split.
    + rewrite (bool_decide_eq_false_2 _ Hne). reflexivity.
    + intros ->. contradiction.
Qed.

Lemma Searcher_fills_the_state_space_witness :
  exists i t trs' path n,
    ComputeIndex (mkState 11 3 false true false) = Some i /\
    at_index table i = Some t /\
    Transition.CurrentState t = mkState 11 3 false true false /\
    Transition.Visited t = 0 /\
    DetermineNextStates 0 (fresh (mkState 11 3 false true false))
      = Some (trs', path) /\
    Transition.NextState 0 trs' = Some n /\
    Transition.NextState 0 t = Some n /\
    Transition.AltNextValidP 0 t = Some (bool_decide (path = PATH_LUGNUT)) /\
    (path = PATH_LUGNUT ->
     Transition.AltNextState 0 t = Transition.AltNextState 0 trs').
Proof.
  apply (Searcher_fills_the_state_space table (mkState 11 3 false true false) 0);
    [exact Searcher_new_table | unfold legal, MAZEPOINT_COUNT; simpl; lia
    | left; reflexivity].
Defined.

(** * The stack traces that the traversal prints *)

Lemma outcomes_all_evaluate (P : Z -> State -> outcome -> Prop)
    `{!forall p c o, Decision (P p c o)} :
  outcomes_all P = true ->
  forall (p : Z) (c : State) (o : outcome),
    p = 0 \/ p = 1 -> legal c -> evaluate p c = Some o -> P p c o.
Proof.
  intros Hall p c o Hp Hl He. unfold outcomes_all in Hall.
  rewrite forallb_forall in Hall.
  specialize (Hall _ (proj1 (list_elem_of_In _ _) (legal_all_states _ Hl))).
  rewrite forallb_forall in Hall.
  assert (Hin : In p [0; 1]) by (simpl; intuition auto).
  specialize (Hall p Hin). rewrite He in Hall.
  apply bool_decide_eq_true in Hall. exact Hall.
Qed.

(** ** Chains of states *)

Lemma chain_snoc (R : State -> State -> Prop) (l : list State) (s s' : State) :
  chain R (l ++ [s]) -> R s s' -> chain R (l ++ [s; s']).
Proof.
  induction l as [|a l IH]; simpl.
  - intros _ H. constructor; [exact H | constructor].
  - intros Hc H. destruct l as [|b l]; simpl in *.
    + inversion Hc; subst. constructor; [assumption|].
      constructor; [exact H | constructor].
    + inversion Hc; subst. constructor; [assumption|]. apply IH; assumption.
Qed.

Lemma chain_impl (R R' : State -> State -> Prop) (l : list State) :
  (forall s s', R s s' -> R' s s') -> chain R l -> chain R' l.
Proof. intros H. induction 1; constructor; auto. Qed.

(** ** The index determines the state *)

Lemma ComputeIndex_value (c : State) (i : Z) :
  ComputeIndex c = Some i ->
  legal c /\
  i = 1024 * Z.b2z (pencilMoved0 c) + 512 * Z.b2z (pencilMoved1 c)
      + 32 * pencil0 c + 2 * pencil1 c + Z.b2z (rule60active c).
Proof.
  rewrite ComputeIndex_eq.
  destruct (State.Pencil 0 c) as [x0|] eqn:H0; [|discriminate].
  rewrite bind_Some_eq.
  destruct (State.GetMazePointIndex x0) as [i0|] eqn:I0; [|discriminate].
  rewrite bind_Some_eq.
  destruct (State.Pencil 1 c) as [x1|] eqn:H1; [|discriminate].
  rewrite bind_Some_eq.
  destruct (State.GetMazePointIndex x1) as [i1|] eqn:I1; [|discriminate].
  rewrite bind_Some_eq.
  destruct (index_of_Pencil 0 c x0 i0 (or_introl eq_refl) H0 I0) as [-> R0].
  destruct (index_of_Pencil 1 c x1 i1 (or_intror eq_refl) H1 I1) as [-> R1].
  unfold State.raw in *. simpl in *. intros [= <-].
  split; [split; assumption|].
  unfold MAZEPOINT_COUNT. lia.
Qed.

Lemma ComputeIndex_inj (c c' : State) (i : Z) :
  ComputeIndex c = Some i -> ComputeIndex c' = Some i -> c = c'.
Proof.
  intros H H'.
  apply ComputeIndex_value in H as [[A0 A1] E].
  apply ComputeIndex_value in H' as [[B0 B1] E'].
  destruct c as [p0 p1 r m0 m1], c' as [q0 q1 r' n0 n1].
  unfold MAZEPOINT_COUNT in *. simpl in *.
  assert (p0 = q0 /\ p1 = q1 /\ Z.b2z r = Z.b2z r' /\
          Z.b2z m0 = Z.b2z n0 /\ Z.b2z m1 = Z.b2z n1) as (-> & -> & Hr & H0 & H1).
  { destruct r, r', m0, n0, m1, n1; simpl in *; lia. }
  apply Z.b2z_inj in Hr, H0, H1. subst. reflexivity.
Qed.

(** ** Runs on a state space *)

Lemma tracing_at_index (sp : list Transition) (r : Run) (i : Z) (t : Transition) :
  tracing sp r -> at_index (space r) i = Some t ->
  exists t0, at_index sp i = Some t0 /\ t = Transition.SetVisited (visited t) t0.
Proof.
  intros [H _]. unfold at_index. destruct (i <? 0); [discriminate|]. intros Ht.
  destruct (Forall2_lookup_r _ _ _ _ _ H Ht) as (t0 & H0 & E). eauto.
Qed.

Lemma tracing_settles (sp : list Transition) (r r' : Run) :
  tracing sp r -> settles r r' -> tracing sp r'.
Proof.
  intros [H L] [S L']. split; [|lia].
  eapply Forall2_trans; [|exact H|exact S].
  intros t0 t t' E [E' _]. simpl in *. rewrite E', E. reflexivity.
Qed.

Lemma tracing_link (sp : list Transition) (r : Run) (i p : Z)
    (t : Transition) (s : State) :
  tracing sp r -> at_index (space r) i = Some t ->
  Transition.NextState p t = Some s \/
  (Transition.AltNextValidP p t = Some true /\
   Transition.AltNextState p t = Some s) ->
  link sp (Transition.CurrentState t) s.
Proof.
  intros Hr Ht H. destruct (tracing_at_index _ _ _ _ Hr Ht) as (t0 & H0 & E).
  exists i, t0, p. split; [exact H0|].
  rewrite E in H |- *. split; [reflexivity|]. exact H.
Qed.

Lemma no_deeper_CurrentState (t t' : Transition) :
  no_deeper t t' -> Transition.CurrentState t' = Transition.CurrentState t.
Proof. intros [E _]. rewrite E. reflexivity. Qed.

(** ** What a visit writes in the stack tracer *)

Lemma record_visit_trace (index depth : Z) (t : Transition) (r r1 : Run) :
  1 <= depth ->
  Z.of_nat (length (stackTrace r)) = TRACE_ENTRIES ->
  record_visit index depth t r = Some r1 ->
  take (Z.to_nat (depth - 1)) (stackTrace r1)
    = take (Z.to_nat (depth - 1)) (stackTrace r) /\
  (depth <= TRACE_ENTRIES ->
   take (Z.to_nat depth) (stackTrace r1)
     = take (Z.to_nat (depth - 1)) (stackTrace r) ++ [Transition.CurrentState t]).
Proof.
  intros Hd Hlen. unfold record_visit.
  destruct (set_index (space r) index _) as [sp'|]; simpl; [|discriminate].
  destruct (Z.leb_spec depth TRACE_ENTRIES) as [Hle|Hgt].
  - set (r0 := if _ <? _ then _ else _).
    assert (Hst : stackTrace r0 = stackTrace r)
      by (unfold r0; destruct (_ <? _); reflexivity).
    rewrite Hst.
    destruct (set_index (stackTrace r) (depth - 1) _) as [st|] eqn:Es;
      simpl; [|discriminate].
    apply set_index_Some in Es as [Hrange ->]. intros [= <-]. simpl.
    split; [apply take_insert_ge; lia|]. intros _.
    replace (Z.to_nat depth) with (S (Z.to_nat (depth - 1))) by lia.
    erewrite take_S_r; [|apply list_lookup_insert_eq; lia].
    rewrite take_insert_ge by lia. reflexivity.
  - intros [= <-]. split; [|lia].
    destruct (_ <? _); reflexivity.
Qed.

(** ** Solutions *)

Lemma solution_weaken (sp : list Transition) (depth : Z) (pre x : list State)
    (o : Output) :
  solution sp (depth + 1) (pre ++ x) o -> solution sp depth pre o.
Proof.
  destruct o as [| |d tr]; simpl; auto.
  intros (Hd & Hl & Hp & Hc & Hg). split; [lia|]. split; [exact Hl|].
  split; [exact (prefix_app_l _ _ _ Hp)|]. auto.
Qed.

Lemma solution_pre (sp : list Transition) (depth : Z) (pre pre' : list State)
    (o : Output) :
  (depth <= 37 -> pre = pre') ->
  solution sp depth pre o -> solution sp depth pre' o.
Proof.
  intros H. destruct o as [| |d tr]; simpl; auto.
  intros (Hd & Hl & Hp & Hc & Hg). rewrite <- H by lia. auto.
Qed.

Lemma traces_refl (sp : list Transition) (depth : Z) (pre : list State)
    (keep : Z) (r : Run) :
  traces sp depth pre keep r r.
Proof. split; [reflexivity|]. exists []. split; [reflexivity | constructor]. Qed.

Lemma traces_trans (sp : list Transition) (depth : Z) (pre : list State)
    (keep : Z) (r1 r2 r3 : Run) :
  traces sp depth pre keep r1 r2 -> traces sp depth pre keep r2 r3 ->
  traces sp depth pre keep r1 r3.
Proof.
  intros (T1 & new1 & O1 & F1) (T2 & new2 & O2 & F2).
  split; [congruence|]. exists (new2 ++ new1).
  split; [rewrite O2, O1; apply app_assoc|].
  apply Forall_app. split; assumption.
Qed.

Section visit_traces.

Variable sp : list Transition.
Hypothesis sp_indexed : indexed_space sp.
Variable rec : Z -> Z -> Run -> option Run.
Variable depth : Z.
Hypothesis depth_positive : 1 <= depth.
Hypothesis rec_settles :
  forall j r r', rec j (depth + 1) r = Some r' -> settles r r'.
Hypothesis rec_traces :
  forall j r r',
    tracing sp r -> rec j (depth + 1) r = Some r' ->
    exists t,
      at_index (space r) j = Some t /\
      ((depth + 1 <= 37 ->
        chain (link sp)
          (take (Z.to_nat depth) (stackTrace r) ++ [Transition.CurrentState t])) ->
       traces sp (depth + 1)
         (take (Z.to_nat depth) (stackTrace r) ++ [Transition.CurrentState t])
         depth r r').

Lemma dispatch_traces (s cur : State) (r : Run) (f : flow) :
  tracing sp r ->
  link sp cur s ->
  (depth <= 37 ->
   chain (link sp) (take (Z.to_nat depth) (stackTrace r)) /\
   last (take (Z.to_nat depth) (stackTrace r)) = Some cur) ->
  dispatch rec s depth r = Some f ->
  traces sp depth (take (Z.to_nat depth) (stackTrace r)) depth r (flow_run f).
Proof.
  intros Hr Hlink Hpre. unfold dispatch.
  destruct (State.IllegalP s).
  { intros [= <-]. split; [reflexivity|]. exists [IllegalEncountered].
    split; [reflexivity|]. repeat constructor. }
  destruct (State.GoalP s) eqn:Hgoal.
  { intros [= <-]. split; [reflexivity|]. simpl.
    exists (DumpStackTrace (stackTrace r) depth ++ [GoalEncountered depth]).
    split; [rewrite <- app_assoc; reflexivity|].
    apply Forall_app. split; [|repeat constructor].
    unfold DumpStackTrace. destruct (Z.gtb_spec depth 37) as [Hgt|Hle];
      [constructor|].
    constructor; [|constructor]. simpl.
    destruct (Hpre Hle) as [Hc Hlast]. destruct Hr as [_ Hlen].
    unfold TRACE_ENTRIES in Hlen.
    split; [lia|]. split; [rewrite length_take_le; lia|].
    split; [reflexivity|]. split; [exact Hc|].
    exists cur, s. auto. }
  destruct (ComputeIndex s) as [j|] eqn:Hj; simpl; [|discriminate].
  destruct (rec j (depth + 1) r) as [r'|] eqn:E; simpl; [|discriminate].
  intros [= <-]. simpl.
  destruct (rec_traces _ _ _ Hr E) as (t & Ht & Himp).
  destruct (tracing_at_index _ _ _ _ Hr Ht) as (t0 & H0 & Et).
  assert (Hcur : Transition.CurrentState t = s).
  { rewrite Et. change (Transition.CurrentState (Transition.SetVisited _ t0))
      with (Transition.CurrentState t0).
    apply (ComputeIndex_inj _ _ j); [apply sp_indexed, H0 | exact Hj]. }
  rewrite Hcur in Himp.
  assert (T : traces sp (depth + 1)
                (take (Z.to_nat depth) (stackTrace r) ++ [s]) depth r r').
  { apply Himp. intros Hle. destruct Hpre as [Hc Hlast]; [lia|].
    apply last_Some in Hlast as [l' Hl']. rewrite Hl' in Hc |- *.
    rewrite <- app_assoc. apply chain_snoc; assumption. }
  destruct T as (T & new & O & F). split; [exact T|].
  exists new. split; [exact O|].
  eapply Forall_impl; [exact F|]. intros o. apply solution_weaken.
Qed.

Lemma pencil_body_traces (index p : Z) (r : Run) (f : flow) (t : Transition) :
  tracing sp r ->
  at_index (space r) index = Some t ->
  (depth <= 37 ->
   chain (link sp) (take (Z.to_nat depth) (stackTrace r)) /\
   last (take (Z.to_nat depth) (stackTrace r))
     = Some (Transition.CurrentState t)) ->
  pencil_body rec index depth p r = Some f ->
  traces sp depth (take (Z.to_nat depth) (stackTrace r)) depth r (flow_run f).
Proof.
  intros Hr Ht Hpre. unfold pencil_body. rewrite Ht, bind_Some_eq.
  destruct (Transition.NextState p t) as [n|] eqn:Hn; simpl; [|discriminate].
  destruct (dispatch rec n depth r) as [f1|] eqn:E1; simpl; [|discriminate].
  pose proof (dispatch_settles rec depth rec_settles _ _ _ E1) as S1.
  apply (dispatch_traces n (Transition.CurrentState t)) in E1;
    [|exact Hr | eapply tracing_link; eauto | exact Hpre].
  destruct f1 as [r1|r1]; simpl in E1, S1; [intros [= <-]; exact E1|].
  destruct (settles_at_index _ _ _ _ S1 Ht) as (t1 & Ht1 & Hnd).
  rewrite Ht1, bind_Some_eq.
  destruct (Transition.AltNextValidP p t1) as [[|]|] eqn:Hv; simpl;
    [| |discriminate].
  - destruct (Transition.AltNextState p t1) as [a|] eqn:Ha; simpl; [|discriminate].
    intros E2.
    pose proof (tracing_settles _ _ _ Hr S1) as Hr1.
    pose proof E1 as (T1 & _).
    apply (dispatch_traces a (Transition.CurrentState t1)) in E2;
      [|exact Hr1 | eapply tracing_link; eauto |].
    + rewrite T1 in E2. eapply traces_trans; eassumption.
    + rewrite T1, (no_deeper_CurrentState _ _ Hnd). exact Hpre.
  - intros [= <-]. exact E1.
Qed.

Lemma for_pencils_traces (index : Z) (pencils : list Z) :
  forall (r r' : Run) (t : Transition),
    tracing sp r ->
    at_index (space r) index = Some t ->
    (depth <= 37 ->
     chain (link sp) (take (Z.to_nat depth) (stackTrace r)) /\
     last (take (Z.to_nat depth) (stackTrace r))
       = Some (Transition.CurrentState t)) ->
    for_pencils (pencil_body rec index depth) pencils r = Some r' ->
    traces sp depth (take (Z.to_nat depth) (stackTrace r)) depth r r'.
Proof.
  induction pencils as [|p rest IH]; intros r r' t Hr Ht Hpre.
  { intros [= <-]. apply traces_refl. }
  rewrite for_pencils_cons.
  destruct (pencil_body rec index depth p r) as [f|] eqn:E; simpl; [|discriminate].
  pose proof (pencil_body_settles rec depth rec_settles _ _ _ _ E) as S1.
  apply (pencil_body_traces _ _ _ _ t Hr Ht Hpre) in E.
  destruct f as [r1|r1]; simpl in E, S1; [intros [= <-]; exact E|].
  intros H.
  destruct (settles_at_index _ _ _ _ S1 Ht) as (t1 & Ht1 & Hnd).
  pose proof E as (T1 & _).
  apply (IH _ _ t1 (tracing_settles _ _ _ Hr S1) Ht1) in H.
  - rewrite T1 in H. eapply traces_trans; eassumption.
  - rewrite T1, (no_deeper_CurrentState _ _ Hnd). exact Hpre.
Qed.

End visit_traces.

(** A visit at depth [depth] keeps the stack tracer below [depth - 1],
    and the stack traces that it prints are solutions that start with
    the stack tracer below [depth - 1] and the state of the visit. *)
Lemma RecTraverse_traces (sp : list Transition) (fuel : nat) :
  indexed_space sp ->
  forall (index depth : Z) (r r' : Run),
    1 <= depth -> tracing sp r ->
    RecTraverse fuel index depth r = Some r' ->
    exists t,
      at_index (space r) index = Some t /\
      ((depth <= 37 ->
        chain (link sp)
          (take (Z.to_nat (depth - 1)) (stackTrace r)
             ++ [Transition.CurrentState t])) ->
       traces sp depth
         (take (Z.to_nat (depth - 1)) (stackTrace r)
            ++ [Transition.CurrentState t])
         (depth - 1) r r').
Proof.
  intros Hidx.
  induction fuel as [|fuel IH]; intros index depth r r' Hd Hr; [discriminate|].
  rewrite RecTraverse_S.
  destruct (at_index (space r) index) as [t|] eqn:Ht; simpl; [|discriminate].
  intros H. exists t. split; [reflexivity|]. intros Hpre. revert H.
  destruct (_ && _) eqn:Hpruned; [intros [= <-]; apply traces_refl|].
  destruct (record_visit index depth t r) as [r1|] eqn:Erv; simpl; [|discriminate].
  destruct (record_visit_trace _ _ _ _ _ Hd (proj2 Hr) Erv) as [K1 K2].
  apply (record_visit_spec _ _ _ _ _ Ht Hpruned) in Erv as (S1 & Ht1 & O1); [|lia].
  intros H.
  apply (for_pencils_traces sp Hidx (RecTraverse fuel) depth Hd) with
    (t := Transition.SetVisited depth t) in H.
  - destruct H as (T & new & O & F). split.
    + apply (f_equal (take (Z.to_nat (depth - 1)))) in T.
      rewrite !take_take in T.
      replace (Z.to_nat (depth - 1) `min` Z.to_nat depth)%nat
        with (Z.to_nat (depth - 1)) in T by lia.
      congruence.
    + exists new. split; [congruence|].
      eapply Forall_impl; [exact F|]. intros o. apply solution_pre.
      intros Hle. apply K2. unfold TRACE_ENTRIES. lia.
  - intros j r0 r0' Hrec. apply RecTraverse_settles in Hrec; [exact Hrec | lia].
  - intros j r0 r0' Hr0 Hrec.
    destruct (IH j (depth + 1) r0 r0' ltac:(lia) Hr0 Hrec) as (t' & Ht' & Himp).
    exists t'. split; [exact Ht'|].
    replace (depth + 1 - 1) with depth in Himp by lia. exact Himp.
  - exact (tracing_settles _ _ _ Hr S1).
  - exact Ht1.
  - intros Hle. rewrite K2 by (unfold TRACE_ENTRIES; lia).
    split; [exact (Hpre Hle)|]. apply last_snoc.
Qed.

(** ** The state space of the program *)

Lemma accessor_pencil (p : Z) (t : Transition) (s : State) :
  Transition.NextState p t = Some s \/
  (Transition.AltNextValidP p t = Some true /\
   Transition.AltNextState p t = Some s) ->
  p = 0 \/ p = 1.
Proof.
  unfold Transition.NextState, Transition.AltNextValidP.
  destruct (check_pencil p) as [[]|] eqn:E.
  - intros _. apply check_pencil_Some. exact E.
  - intros [H | [H _]]; discriminate H.
Qed.

Lemma table_at_index (i : Z) (t : Transition) :
  at_index table i = Some t ->
  legal (Transition.CurrentState t) /\
  ComputeIndex (Transition.CurrentState t) = Some i.
Proof.
  intros Ht. pose proof (at_index_Some _ _ _ Ht) as Hr.
  rewrite length_table in Hr.
  pose proof table_index_of_legal as H. rewrite forallb_forall in H.
  specialize (H i (all_indices_spec i Hr)).
  apply bool_decide_eq_true in H. unfold index_of_legal in H.
  rewrite Ht, bind_Some_eq in H. injection H as Hl Hi.
  apply bool_decide_eq_true in Hl. auto.
Qed.

Lemma table_indexed_space : indexed_space table.
Proof. intros i t Ht. apply table_at_index, Ht. Qed.

Lemma tracing_first_run (sp : list Transition) : tracing sp (first_run sp).
Proof.
  split.
  - simpl. induction sp as [|t sp IH]; constructor; [|exact IH].
    destruct t; reflexivity.
  - unfold first_run. cbn [stackTrace]. rewrite length_replicate.
    unfold TRACE_ENTRIES. lia.
Qed.

(** A transition of the state space of the program is a move of the
    puzzle. *)
Lemma table_link_move (s s' : State) : link table s s' -> move s s'.
Proof.
  intros (i & t & p & Ht & Hc & H).
  pose proof (accessor_pencil _ _ _ H) as Hp.
  destruct (table_at_index _ _ Ht) as [Hl Hi]. rewrite Hc in Hl, Hi.
  destruct (table_entry s p Hl Hp)
    as (i' & t' & n & a & path & Hi' & _ & Ht' & He & _ & _ & Hn & Hv & Ha).
  assert (i' = i) as -> by congruence.
  assert (t' = t) as -> by congruence.
  destruct (evaluate_Some _ _ _ _ _ He) as (trs' & Hd & Hn' & _ & Ha').
  assert (Hbox : exists box, State.Pencil p s = Some box).
  { destruct (Pencil_of_index p s Hp) as (box & Hbox & _); [|eauto].
    destruct Hl as [H0 H1]. destruct Hp as [-> | ->]; assumption. }
  destruct Hbox as [box Hbox]. exists box.
  destruct H as [H | [Hvalid Halt]].
  - apply (produces_next s box s' p (fresh s) trs' path); auto. congruence.
  - rewrite Hvalid in Hv. injection Hv as Hv. symmetry in Hv.
    apply bool_decide_eq_true in Hv as [x ->].
    pose proof (outcomes_all_evaluate choice_at_55 choice_at_55_checked
                  p s _ Hp Hl He) as [H55 Hnot].
    simpl in H55, Hnot.
    destruct (decide (State.Pencil p s = Some 55)) as [E|E];
      [|destruct (Hnot E) as [_ Hnone]; discriminate Hnone].
    destruct (H55 E) as (-> & _).
    apply (produces_alt s box s' p (fresh s) trs'); auto.
    rewrite (Ha' x eq_refl). rewrite (Ha x eq_refl) in Halt. exact Halt.
Qed.

Lemma solution_printed (start : State) (o : Output) :
  solution table 1 [start] o -> printed_solution start o.
Proof.
  destruct o as [| |d tr]; simpl; auto.
  intros (Hd & Hl & [k ->] & Hc & s & g & Hlast & Hlink & Hg).
  split; [lia|]. split; [exact Hl|]. split; [reflexivity|].
  split; [exact (chain_impl _ _ _ table_link_move Hc)|].
  exists s, g. split; [exact Hlast|]. split; [|exact Hg].
  apply table_link_move, Hlink.
Qed.

(** ** What every visit keeps *)

Lemma kept_refl (keep : Z) (r : Run) : kept keep r r.
Proof. split; [reflexivity|]. exists []. reflexivity. Qed.

Lemma kept_trans (keep : Z) (r1 r2 r3 : Run) :
  kept keep r1 r2 -> kept keep r2 r3 -> kept keep r1 r3.
Proof.
  intros (T1 & new1 & O1) (T2 & new2 & O2). split; [congruence|].
  exists (new2 ++ new1). rewrite O2, O1. apply app_assoc.
Qed.

Lemma kept_weaken (keep keep' : Z) (r r' : Run) :
  keep' <= keep -> kept keep r r' -> kept keep' r r'.
Proof.
  intros Hle (T & new & O). split; [|exists new; exact O].
  apply (f_equal (take (Z.to_nat keep'))) in T.
  rewrite !take_take in T.
  replace (Z.to_nat keep' `min` Z.to_nat keep)%nat with (Z.to_nat keep') in T
    by lia.
  exact T.
Qed.

Lemma record_visit_kept (index depth : Z) (t : Transition) (r r1 : Run) :
  record_visit index depth t r = Some r1 -> kept (depth - 1) r r1.
Proof.
  unfold record_visit.
  destruct (set_index (space r) index _) as [sp'|]; simpl; [|discriminate].
  set (r0 := if _ <? _ then _ else _).
  assert (H0 : stackTrace r0 = stackTrace r /\ output r0 = output r)
    by (unfold r0; destruct (_ <? _); split; reflexivity).
  destruct H0 as [Hst Hout].
  destruct (depth <=? TRACE_ENTRIES).
  - destruct (set_index (stackTrace r0) (depth - 1) _) as [st|] eqn:Es;
      simpl; [|discriminate].
    apply set_index_Some in Es as [_ ->]. intros [= <-]. simpl. split.
    + rewrite Hst. apply take_insert_ge. lia.
    + exists []. exact Hout.
  - intros [= <-]. split; [rewrite Hst; reflexivity|]. exists []. exact Hout.
Qed.

Section visit_kept.

Variable rec : Z -> Z -> Run -> option Run.
Variable depth : Z.
Hypothesis rec_kept :
  forall j r r', rec j (depth + 1) r = Some r' -> kept depth r r'.

Lemma dispatch_kept (s : State) (r : Run) (f : flow) :
  dispatch rec s depth r = Some f -> kept depth r (flow_run f).
Proof.
  unfold dispatch. destruct (State.IllegalP s).
  { intros [= <-]. split; [reflexivity|]. exists [IllegalEncountered].
    reflexivity. }
  destruct (State.GoalP s).
  { intros [= <-]. split; [reflexivity|]. simpl.
    exists (DumpStackTrace (stackTrace r) depth ++ [GoalEncountered depth]).
    rewrite <- app_assoc. reflexivity. }
  destruct (ComputeIndex s) as [j|]; simpl; [|discriminate].
  destruct (rec j (depth + 1) r) as [r'|] eqn:E; simpl; [|discriminate].
  intros [= <-]. apply (rec_kept _ _ _ E).
Qed.

Lemma pencil_body_kept (index p : Z) (r : Run) (f : flow) :
  pencil_body rec index depth p r = Some f -> kept depth r (flow_run f).
Proof.
  unfold pencil_body.
  destruct (at_index (space r) index) as [t|]; simpl; [|discriminate].
  destruct (Transition.NextState p t) as [n|]; simpl; [|discriminate].
  destruct (dispatch rec n depth r) as [f1|] eqn:E1; simpl; [|discriminate].
  apply dispatch_kept in E1.
  destruct f1 as [r1|r1]; simpl in E1; [intros [= <-]; exact E1|].
  destruct (at_index (space r1) index) as [t1|]; simpl; [|discriminate].
  destruct (Transition.AltNextValidP p t1) as [[|]|]; simpl; [| |discriminate].
  - destruct (Transition.AltNextState p t1) as [a|]; simpl; [|discriminate].
    intros E2. apply dispatch_kept in E2.
    eapply kept_trans; eassumption.
  - intros [= <-]. exact E1.
Qed.

Lemma for_pencils_kept (index : Z) (pencils : list Z) (r r' : Run) :
  for_pencils (pencil_body rec index depth) pencils r = Some r' ->
  kept depth r r'.
Proof.
  revert r. induction pencils as [|p rest IH]; intros r.
  { intros [= <-]. apply kept_refl. }
  rewrite for_pencils_cons.
  destruct (pencil_body rec index depth p r) as [f|] eqn:E; simpl; [|discriminate].
  apply pencil_body_kept in E.
  destruct f as [r1|r1]; simpl in E.
  - intros [= <-]. exact E.
  - intros H. apply IH in H. eapply kept_trans; eassumption.
Qed.

End visit_kept.

(** Whatever the run, a visit at depth [depth] keeps the stack tracer
    below [depth - 1] and only adds to the output. *)
Lemma RecTraverse_kept (fuel : nat) :
  forall (index depth : Z) (r r' : Run),
    RecTraverse fuel index depth r = Some r' -> kept (depth - 1) r r'.
Proof.
  induction fuel as [|fuel IH]; intros index depth r r'; [discriminate|].
  rewrite RecTraverse_S.
  destruct (at_index (space r) index) as [t|]; simpl; [|discriminate].
  destruct (_ && _); [intros [= <-]; apply kept_refl|].
  destruct (record_visit index depth t r) as [r1|] eqn:Erv; simpl; [|discriminate].
  apply record_visit_kept in Erv.
  intros H. eapply kept_trans; [exact Erv|].
  apply (kept_weaken depth); [lia|].
  eapply for_pencils_kept; [|exact H].
  intros j r0 r0' Hrec. apply IH in Hrec.
  replace (depth + 1 - 1) with depth in Hrec by lia. exact Hrec.
Qed.

(** X14: what [Searcher::RecTraverse] does to the stack tracer and to
    the output, on a state space that stores every transition at the
    index of its current state, in a run with a stack tracer of
    [TRACE_ENTRIES] states.  A visit at depth [depth] leaves the first
    [depth - 1] entries of the stack tracer as they are and only adds to
    the output, whatever the stack tracer holds.  If on entry these
    entries followed by the state of the visit are a chain of
    transitions of the state space, every stack trace that the visit
    prints has the depth of a visit from [depth] to 37 as its length,
    starts with these entries and that state, is a chain of transitions,
    and ends in a state with a goal as next state. *)
Theorem RecTraverse_prints_paths (sp : list Transition) (fuel : nat)
    (index depth : Z) (r r' : Run) :
  indexed_space sp ->
  tracing sp r ->
  1 <= depth ->
  RecTraverse fuel index depth r = Some r' ->
  exists t new,
    at_index (space r) index = Some t /\
    take (Z.to_nat (depth - 1)) (stackTrace r')
      = take (Z.to_nat (depth - 1)) (stackTrace r) /\
    output r' = new ++ output r /\
    (chain (link sp)
       (take (Z.to_nat (depth - 1)) (stackTrace r)
          ++ [Transition.CurrentState t]) ->
     forall d trace, In (StackTrace d trace) new ->
       depth <= d <= 37 /\ Z.of_nat (length trace) = d /\
       (take (Z.to_nat (depth - 1)) (stackTrace r)
          ++ [Transition.CurrentState t]) `prefix_of` trace /\
       chain (link sp) trace /\
       exists s g,
         last trace = Some s /\ link sp s g /\ State.GoalP g = true).
Proof.
  intros Hidx Hr Hd H.
  destruct (RecTraverse_kept fuel index depth r r' H) as (T & new & O).
  destruct (RecTraverse_traces sp fuel Hidx index depth r r' Hd Hr H)
    as (t & Ht & Himp).
  exists t, new. split; [exact Ht|]. split; [exact T|]. split; [exact O|].
  intros Hc d trace Hin.
  destruct (Himp (fun _ => Hc)) as (_ & new' & O' & F).
  assert (new' = new) as ->.
  { rewrite O in O'. apply app_inv_tail in O'. congruence. }
  rewrite Forall_forall in F.
  apply list_elem_of_In in Hin. exact (F _ Hin).
Qed.

Lemma RecTraverse_prints_paths_witness :
  exists r' t new,
    RecTraverse 273 start_index 1 (first_run table) = Some r' /\
    at_index (space (first_run table)) start_index = Some t /\
    take (Z.to_nat (1 - 1)) (stackTrace r')
      = take (Z.to_nat (1 - 1)) (stackTrace (first_run table)) /\
    output r' = new ++ output (first_run table) /\
    forall d trace, In (StackTrace d trace) new ->
      1 <= d <= 37 /\ Z.of_nat (length trace) = d /\
      (take (Z.to_nat (1 - 1)) (stackTrace (first_run table))
         ++ [Transition.CurrentState t]) `prefix_of` trace /\
      chain (link table) trace /\
      exists s g,
        last trace = Some s /\ link table s g /\ State.GoalP g = true.
Proof.
  destruct program_run as (t0 & rs & rm & re & _ & _ & _ & _ & Hrun & _).
  rewrite StartTraversal_unfold in Hrun.
  assert (Hd : 1 <= 1) by lia.
  destruct (RecTraverse_prints_paths table 273 start_index 1 (first_run table) re
              table_indexed_space (tracing_first_run table) Hd Hrun)
    as (t & new & Ht & T & O & Himp).
  exists re, t, new. split; [exact Hrun|]. split; [exact Ht|].
  split; [exact T|]. split; [exact O|].
  apply Himp. constructor.
Defined.

(** X15: every stack trace that the program prints is a solution of the
    puzzle.  On the state space that the constructor builds, in the
    traversal from a legal start state, every printed stack trace has at
    most 37 states, begins with the start state, goes from each state to
    the next by a move of the puzzle (the rule of the box of one of the
    pencils is followed, as [DetermineNextStates] evaluates it), and a
    move from its last state reaches the goal. *)
Theorem printed_stack_traces_are_solutions (sp : list Transition)
    (start : State) (fuel : nat) (index : Z) (r : Run) :
  Searcher_new = Some sp ->
  legal start ->
  ComputeIndex start = Some index ->
  RecTraverse fuel index 1 (first_run sp) = Some r ->
  Forall (printed_solution start) (output r).
Proof.
  rewrite Searcher_new_table. intros [= <-] Hl Hi H.
  destruct (RecTraverse_traces table fuel table_indexed_space index 1
              (first_run table) r ltac:(lia) (tracing_first_run table) H)
    as (t & Ht & Himp).
  assert (Hc : Transition.CurrentState t = start).
  { apply (ComputeIndex_inj _ _ index); [|exact Hi].
    apply (table_at_index index t Ht). }
  rewrite Hc in Himp. simpl in Himp.
  destruct Himp as (_ & new & O & F); [intros _; constructor|].
  rewrite O, app_nil_r.
  eapply Forall_impl; [exact F|]. apply solution_printed.
Qed.

Lemma printed_stack_traces_are_solutions_witness :
  exists r,
    StartTraversal 273 table = Some r /\
    Forall (printed_solution (mkState 0 3 false false false)) (output r).
Proof.
  destruct program_run as (t0 & rs & rm & re & _ & _ & _ & _ & Hrun & _).
  exists re. split; [exact Hrun|].
  apply (printed_stack_traces_are_solutions table
           (mkState 0 3 false false false) 273 start_index re);
    [exact Searcher_new_table | unfold legal, MAZEPOINT_COUNT; simpl; lia
    | reflexivity | rewrite <- StartTraversal_unfold; exact Hrun].
Defined.

(** * The maximal depth *)

Lemma reported_weaken (depth depth' top top' : Z) (o : Output) :
  depth' <= depth -> top <= top' ->
  reported depth top o -> reported depth' top' o.
Proof. destruct o; simpl; lia. Qed.

Lemma deepens_refl (depth : Z) (r : Run) : deepens depth r r.
Proof.
  split; [lia|]. split; [auto|]. exists []. split; [reflexivity | constructor].
Qed.

Lemma deepens_trans (depth : Z) (r1 r2 r3 : Run) :
  deepens depth r1 r2 -> deepens depth r2 r3 -> deepens depth r1 r3.
Proof.
  intros (M1 & B1 & new1 & O1 & F1) (M2 & B2 & new2 & O2 & F2).
  split; [lia|]. split; [auto|]. exists (new2 ++ new1).
  split; [rewrite O2, O1; apply app_assoc|].
  apply Forall_app. split; [exact F2|].
  eapply Forall_impl; [exact F1|]. intros o. apply reported_weaken; lia.
Qed.

Lemma deepens_weaken (depth : Z) (r r' : Run) :
  deepens (depth + 1) r r' -> deepens depth r r'.
Proof.
  intros (M & B & new & O & F). split; [exact M|]. split; [exact B|].
  exists new. split; [exact O|].
  eapply Forall_impl; [exact F|]. intros o. apply reported_weaken; lia.
Qed.

Lemma record_visit_deepens (index depth : Z) (t : Transition) (r r1 : Run) :
  record_visit index depth t r = Some r1 ->
  deepens depth r r1 /\ depth <= maxDepth r1.
Proof.
  unfold record_visit.
  destruct (set_index (space r) index _) as [sp'|] eqn:Es; simpl; [|discriminate].
  apply set_index_Some in Es as [_ ->].
  set (r0 := if _ <? _ then _ else _).
  assert (H0 : space r0 = <[Z.to_nat index := Transition.SetVisited depth t]> (space r)
               /\ output r0 = output r
               /\ maxDepth r <= maxDepth r0 /\ depth <= maxDepth r0).
  { unfold r0. destruct (Z.ltb_spec (maxDepth r) depth); simpl;
      repeat split; try reflexivity; lia. }
  destruct H0 as (Hs & Ho & Hm & Hd).
  assert (H1 : forall st, deepens depth r (with_stackTrace st r0)
                          /\ depth <= maxDepth (with_stackTrace st r0)).
  { intros st. split; [|exact Hd]. split; [exact Hm|]. split.
    - unfold bounded. simpl. rewrite Hs. intros Hb.
      apply Forall_insert; [|simpl; lia].
      eapply Forall_impl; [exact Hb|]. simpl. intros x Hx. lia.
    - exists []. split; [exact Ho | constructor]. }
  destruct (depth <=? TRACE_ENTRIES).
  - destruct (set_index (stackTrace r0) (depth - 1) _) as [st|]; simpl;
      [|discriminate].
    intros [= <-]. apply H1.
  - intros [= <-]. destruct (H1 (stackTrace r0)) as [A B].
    destruct r0; exact (conj A B).
Qed.

Section visit_depths.

Variable rec : Z -> Z -> Run -> option Run.
Variable depth : Z.
Hypothesis rec_deepens :
  forall j r r', rec j (depth + 1) r = Some r' -> deepens (depth + 1) r r'.

Lemma dispatch_deepens (s : State) (r : Run) (f : flow) :
  depth <= maxDepth r ->
  dispatch rec s depth r = Some f -> deepens depth r (flow_run f).
Proof.
  intros Hd. unfold dispatch.
  destruct (State.IllegalP s).
  { intros [= <-]. split; [simpl; lia|]. split; [auto|].
    exists [IllegalEncountered]. split; [reflexivity|]. repeat constructor. }
  destruct (State.GoalP s).
  { intros [= <-]. split; [simpl; lia|]. split; [auto|]. simpl.
    exists (DumpStackTrace (stackTrace r) depth ++ [GoalEncountered depth]).
    split; [rewrite <- app_assoc; reflexivity|].
    apply Forall_app. split; [|repeat constructor; simpl; lia].
    unfold DumpStackTrace. destruct (depth >? 37); repeat constructor; simpl; lia. }
  destruct (ComputeIndex s) as [j|]; simpl; [|discriminate].
  destruct (rec j (depth + 1) r) as [r'|] eqn:E; simpl; [|discriminate].
  intros [= <-]. apply deepens_weaken, (rec_deepens _ _ _ E).
Qed.

Lemma pencil_body_deepens (index p : Z) (r : Run) (f : flow) :
  depth <= maxDepth r ->
  pencil_body rec index depth p r = Some f -> deepens depth r (flow_run f).
Proof.
  intros Hd. unfold pencil_body.
  destruct (at_index (space r) index) as [t|]; simpl; [|discriminate].
  destruct (Transition.NextState p t) as [n|]; simpl; [|discriminate].
  destruct (dispatch rec n depth r) as [f1|] eqn:E1; simpl; [|discriminate].
  apply (dispatch_deepens _ _ _ Hd) in E1.
  destruct f1 as [r1|r1]; simpl in E1; [intros [= <-]; exact E1|].
  destruct (at_index (space r1) index) as [t1|]; simpl; [|discriminate].
  destruct (Transition.AltNextValidP p t1) as [[|]|]; simpl; [| |discriminate].
  - destruct (Transition.AltNextState p t1) as [a|]; simpl; [|discriminate].
    intros E2. apply dispatch_deepens in E2; [|destruct E1; lia].
    eapply deepens_trans; eassumption.
  - intros [= <-]. exact E1.
Qed.

Lemma for_pencils_deepens (index : Z) (pencils : list Z) (r r' : Run) :
  depth <= maxDepth r ->
  for_pencils (pencil_body rec index depth) pencils r = Some r' ->
  deepens depth r r'.
Proof.
  revert r. induction pencils as [|p rest IH]; intros r Hd.
  { intros [= <-]. apply deepens_refl. }
  rewrite for_pencils_cons.
  destruct (pencil_body rec index depth p r) as [f|] eqn:E; simpl; [|discriminate].
  apply (pencil_body_deepens _ _ _ _ Hd) in E.
  destruct f as [r1|r1]; simpl in E.
  - intros [= <-]. exact E.
  - intros H. apply IH in H; [|destruct E; lia].
    eapply deepens_trans; eassumption.
Qed.

End visit_depths.

Lemma RecTraverse_deepens (fuel : nat) :
  forall (index depth : Z) (r r' : Run),
    RecTraverse fuel index depth r = Some r' -> deepens depth r r'.
Proof.
  induction fuel as [|fuel IH]; intros index depth r r'; [discriminate|].
  rewrite RecTraverse_S.
  destruct (at_index (space r) index) as [t|]; simpl; [|discriminate].
  destruct (_ && _); [intros [= <-]; apply deepens_refl|].
  destruct (record_visit index depth t r) as [r1|] eqn:Erv; simpl; [|discriminate].
  apply record_visit_deepens in Erv as [D1 Hd].
  intros H. eapply deepens_trans; [exact D1|].
  eapply for_pencils_deepens; [|exact Hd|exact H].
  intros j r0 r0' Hrec. apply (IH _ _ _ _ Hrec).
Qed.

(** X16: the maximal depth of [Searcher::RecTraverse].  A visit never
    lowers [maxDepth]; if no visited counter was above [maxDepth] on
    entry, none is on return; the output only grows at its front, and
    every goal that the visit reports was reached at a depth between the
    depth of the visit and [maxDepth].  So the maximal search depth that
    the program prints is at least every first-seen depth that it has
    stored and every depth in its messages. *)
Theorem maxDepth_bounds_the_depths (fuel : nat) (index depth : Z) (r r' : Run) :
  RecTraverse fuel index depth r = Some r' ->
  maxDepth r <= maxDepth r' /\
  ((forall i t, at_index (space r) i = Some t -> Transition.Visited t <= maxDepth r) ->
   forall i t, at_index (space r') i = Some t -> Transition.Visited t <= maxDepth r') /\
  exists new,
    output r' = new ++ output r /\
    forall d, In (GoalEncountered d) new -> depth <= d <= maxDepth r'.
Proof.
  intros H. apply RecTraverse_deepens in H as (M & B & new & O & F).
  split; [exact M|]. split.
  - intros Hb i t Ht.
    assert (Hr : bounded r).
    { apply Forall_forall. intros x Hx.
      apply list_elem_of_lookup in Hx as [k Hk].
      apply (Hb (Z.of_nat k) x). unfold at_index.
      destruct (Z.ltb_spec (Z.of_nat k) 0); [lia|].
      rewrite Nat2Z.id. exact Hk. }
    specialize (B Hr). unfold bounded in B. rewrite Forall_forall in B.
    apply B. unfold at_index in Ht. destruct (i <? 0); [discriminate|].
    eapply list_elem_of_lookup_2. exact Ht.
  - exists new. split; [exact O|]. intros d Hin.
    rewrite Forall_forall in F. apply list_elem_of_In in Hin.
    exact (F _ Hin).
Qed.

Lemma maxDepth_bounds_the_depths_witness :
  exists r',
    RecTraverse 273 start_index 1 (first_run table) = Some r' /\
    maxDepth (first_run table) <= maxDepth r' /\
    exists new,
      output r' = new ++ output (first_run table) /\
      forall d, In (GoalEncountered d) new -> 1 <= d <= maxDepth r'.
Proof.
  destruct program_run as (t0 & rs & rm & re & _ & _ & _ & _ & Hrun & _).
  rewrite StartTraversal_unfold in Hrun.
  exists re. split; [exact Hrun|].
  destruct (maxDepth_bounds_the_depths 273 start_index 1 (first_run table) re Hrun)
    as (M & _ & N).
  split; [exact M | exact N].
Defined.

(** * The traversal returns, whatever has been visited *)

(** X24: [Searcher::RecTraverse] returns from every run on a state space
    of [TotalStates] transitions whose next states are illegal, goals
    or states of the state space, whatever the visited counters, the
    maximal depth and the output are: called at depth 1 for an index of
    the state space, it gives one and the same run for every fuel from
    [TotalStates + 2] on, and that run is again such a run.  So the
    traversal can be started again from any state after it has run. *)
Theorem RecTraverse_returns_whatever_was_visited (index : Z) (r : Run) :
  ready r ->
  0 <= index < TotalStates ->
  exists r',
    ready r' /\
    forall fuel, (Z.to_nat TotalStates + 2 <= fuel)%nat ->
      RecTraverse fuel index 1 r = Some r'.
Proof.
  intros Hr Hi.
  destruct (RecTraverse_returns (Z.to_nat TotalStates + 2) [] index 1 r)
    as [r' H].
  - exact Hr.
  - exact Hi.
  - constructor.
  - intros i Hin. inversion Hin.
  - intros i Hin. inversion Hin.
  - reflexivity.
  - simpl length. lia.
  - exists r'. split.
    + apply (ready_settles r r' Hr).
      apply (RecTraverse_settles (Z.to_nat TotalStates + 2) index 1 r r');
        [lia | exact H].
    + intros fuel Hle. eapply RecTraverse_fuel_mono; eassumption.
Qed.

Lemma RecTraverse_returns_whatever_was_visited_witness :
  exists r',
    ready r' /\
    forall fuel, (Z.to_nat TotalStates + 2 <= fuel)%nat ->
      RecTraverse fuel 238 1 (first_run table) = Some r'.
Proof.
  apply (RecTraverse_returns_whatever_was_visited 238 (first_run table));
    [exact first_run_ready | split; [lia | reflexivity]].
Defined.

(** * Visiting again *)

Lemma RecTraverse_visited (fuel : nat) (index depth : Z) (r r' : Run) :
  0 < depth ->
  RecTraverse fuel index depth r = Some r' ->
  exists t', at_index (space r') index = Some t' /\ 0 < visited t' <= depth.
Proof.
  intros Hd H. destruct fuel as [|fuel]; [discriminate|].
  destruct (at_index (space r) index) as [t|] eqn:Ht;
    [|rewrite RecTraverse_S, Ht in H; discriminate].
  destruct (decide (0 < visited t <= depth)) as [Hv|Hv].
  - rewrite (RecTraverse_pruned _ _ _ _ _ _ H Ht Hv). eauto.
  - pose proof (RecTraverse_stamps _ _ _ _ _ _ Hd H Ht Hv) as Hs.
    unfold visited_at in Hs.
    destruct (at_index (space r') index) as [t'|]; simpl in Hs; [|lia].
    exists t'. split; [reflexivity | exact Hs].
Qed.

Lemma RecTraverse_pruned_returns (fuel : nat) (index depth : Z) (r : Run)
    (t : Transition) :
  at_index (space r) index = Some t ->
  0 < visited t <= depth ->
  RecTraverse (S fuel) index depth r = Some r.
Proof.
  intros Ht Hv. rewrite RecTraverse_S, Ht, bind_Some_eq.
  unfold Transition.Visited.
  destruct (Z.gtb_spec (visited t) 0); [|lia].
  destruct (Z.leb_spec (visited t) depth); [|lia]. reflexivity.
Qed.

(** X17: a state that has been visited is not visited again at the same
    or at a greater depth.  After a call of [Searcher::RecTraverse] at a
    positive depth has returned, a call for the same state at that depth
    or deeper returns at once and leaves everything as it is, whatever
    the maximal depth, the stack tracer and the output of its run. *)
Theorem visited_state_is_not_visited_again (fuel fuel' : nat)
    (index depth depth' : Z) (r r' later : Run) :
  0 < depth <= depth' ->
  RecTraverse fuel index depth r = Some r' ->
  space later = space r' ->
  RecTraverse (S fuel') index depth' later = Some later.
Proof.
  intros Hd H Hs.
  destruct (RecTraverse_visited _ _ _ _ _ (proj1 Hd) H) as (t' & Ht' & Hv).
  apply (RecTraverse_pruned_returns _ _ _ _ t'); [rewrite Hs; exact Ht' | lia].
Qed.

Lemma visited_state_is_not_visited_again_witness :
  exists r',
    RecTraverse 273 start_index 1 (first_run table) = Some r' /\
    RecTraverse 1 start_index 5 r' = Some r'.
Proof.
  destruct program_run as (t0 & rs & rm & re & _ & _ & _ & _ & Hrun & _).
  rewrite StartTraversal_unfold in Hrun.
  exists re. split; [exact Hrun|].
  apply (visited_state_is_not_visited_again 273 0 start_index 1 5
           (first_run table) re re); [lia | exact Hrun | reflexivity].
Defined.

(** X18: [Searcher::StartTraversal] works once.  The visited counters
    stay in the state space of the searcher, so a second call, which
    starts from the same state with a new stack tracer and [maxDepth]
    0, finds the start state visited at depth 1 and returns at once: it
    reports nothing, and the maximal depth that it prints is 0. *)
Theorem StartTraversal_works_once (fuel fuel' : nat) (sp : list Transition)
    (r : Run) :
  StartTraversal fuel sp = Some r ->
  StartTraversal (S fuel') (space r) = Some (first_run (space r)) /\
  maxDepth (first_run (space r)) = 0 /\
  output (first_run (space r)) = [].
Proof.
  rewrite !StartTraversal_unfold. intros H.
  split; [|split; reflexivity].
  assert (Hd : 0 < 1) by lia.
  destruct (RecTraverse_visited _ _ _ _ _ Hd H) as (t' & Ht' & Hv).
  apply (RecTraverse_pruned_returns _ _ _ _ t'); [exact Ht' | exact Hv].
Qed.

Lemma StartTraversal_works_once_witness :
  exists r,
    StartTraversal 273 table = Some r /\
    StartTraversal 1 (space r) = Some (first_run (space r)) /\
    maxDepth (first_run (space r)) = 0 /\
    output (first_run (space r)) = [].
Proof.
  destruct program_run as (t0 & rs & rm & re & _ & _ & _ & _ & Hrun & _).
  exists re. split; [exact Hrun|].
  apply (StartTraversal_works_once 273 0 table re Hrun).
Defined.

(** * The tables of the boxes *)

Lemma GetYesPath_Some (x y : Z) :
  GetYesPath x = Some y -> x ∈ MAZEPOINT.
Proof.
  destruct x as [|p|p]; simpl; try discriminate.
  do 7 (try destruct p as [p|p|]; simpl; try discriminate);
    intros _; unfold MAZEPOINT; repeat constructor.
Qed.

(** X19: [Searcher::GetYesPath] knows the sixteen boxes of the maze and
    no other number (it aborts on anything else, the goal and the
    illegal maze point included).  The Yes exit of a box leads to
    another box; only that of box 50 leads to the goal, and none leads
    to the illegal maze point. *)
Theorem GetYesPath_on_the_boxes (x : Z) :
  (is_Some (GetYesPath x) <-> x ∈ MAZEPOINT) /\
  (forall y, GetYesPath x = Some y ->
     y <> ILLEGAL_MAZEPOINT /\ y <> x /\
     (y = GOAL_MAZEPOINT <-> x = 50) /\
     (y <> GOAL_MAZEPOINT -> y ∈ MAZEPOINT)).
Proof.
  split.
  - split.
    + intros [y Hy]. exact (GetYesPath_Some _ _ Hy).
    + unfold MAZEPOINT. intros Hin.
      repeat (apply elem_of_cons in Hin as [-> | Hin]; [simpl; eauto|]).
      inversion Hin.
  - intros y Hy. pose proof (GetYesPath_Some _ _ Hy) as Hin.
    unfold MAZEPOINT in Hin.
    repeat (apply elem_of_cons in Hin as [-> | Hin];
            [injection Hy as <-;
             split; [discriminate|]; split; [discriminate|];
             split; [split; discriminate || reflexivity|];
             intros Hg; try (exfalso; apply Hg; reflexivity);
             unfold MAZEPOINT; repeat constructor|]).
    inversion Hin.
Qed.

(** X20: [Searcher::HasBoxGreenTextOrGreenWordP] and
    [Searcher::HasBoxRedWordOrGreenWordP] list the same boxes (1, 2, 5,
    25, 40, 60 and 65) in another order: the two functions agree on
    every number. *)
Theorem green_text_or_green_word_is_red_word_or_green_word (x : Z) :
  HasBoxGreenTextOrGreenWordP x = HasBoxRedWordOrGreenWordP x /\
  (HasBoxGreenTextOrGreenWordP x = true <-> x ∈ [1; 2; 5; 25; 40; 60; 65]).
Proof.
  unfold HasBoxGreenTextOrGreenWordP, HasBoxRedWordOrGreenWordP. split.
  - destruct (x =? 60), (x =? 5), (x =? 25), (x =? 2), (x =? 65), (x =? 40),
      (x =? 1); reflexivity.
  - rewrite !orb_true_iff, !Z.eqb_eq, !elem_of_cons, elem_of_nil. tauto.
Qed.

(** * Searcher::DumpTransitions *)

Lemma loop_app {A S : Type} (body : A -> S -> option S) (l1 l2 : list A) (s : S) :
  loop body (l1 ++ l2) s = (s' ← loop body l1 s; loop body l2 s').
Proof.
  revert s. induction l1 as [|a l1 IH]; intros s; simpl; [reflexivity|].
  destruct (body a s); simpl; auto.
Qed.

Lemma loop_bind {A B S : Type} (f : A -> list B) (body : B -> S -> option S)
    (l : list A) (s : S) :
  loop body (l ≫= f) s = loop (fun a => loop body (f a)) l s.
Proof.
  revert s. induction l as [|a l IH]; intros s; [reflexivity|].
  change ((a :: l) ≫= f) with (f a ++ (l ≫= f)).
  rewrite loop_app. simpl.
  destruct (loop body (f a) s); simpl; auto.
Qed.

Lemma loop_ext {A S : Type} (f g : A -> S -> option S) (l : list A) (s : S) :
  (forall x s, f x s = g x s) -> loop f l s = loop g l s.
Proof.
  intros H. revert s. induction l as [|a l IH]; intros s; simpl; [reflexivity|].
  rewrite H. destruct (g a s); simpl; auto.
Qed.

Lemma DumpTransitions_all_states (sp : list Transition) :
  DumpTransitions sp =
  loop (fun c => dump_body (pencilMoved0 c) (pencilMoved1 c) (pencil0 c)
                   (pencil1 c) (rule60active c) sp) all_states [].
Proof.
  unfold DumpTransitions, all_states.
  rewrite loop_bind. apply loop_ext. intros m0 s0.
  rewrite loop_bind. apply loop_ext. intros m1 s1.
  rewrite loop_bind. apply loop_ext. intros p0 s2.
  rewrite loop_bind. apply loop_ext. intros p1 s3.
  rewrite loop_bind. apply loop_ext. intros r s4.
  simpl. destruct (dump_body m0 m1 p0 p1 r sp s4); reflexivity.
Qed.

Lemma loop_state_checked :
  forallb (fun c =>
    bool_decide (legal c /\
                 loop_state (pencilMoved0 c) (pencilMoved1 c) (pencil0 c)
                   (pencil1 c) (rule60active c) = Some c)) all_states = true.
Proof. vm_compute. reflexivity. Qed.

Lemma all_states_loop_state (c : State) :
  In c all_states ->
  legal c /\
  loop_state (pencilMoved0 c) (pencilMoved1 c) (pencil0 c) (pencil1 c)
    (rule60active c) = Some c.
Proof.
  intros Hin. pose proof loop_state_checked as H.
  rewrite forallb_forall in H. specialize (H c Hin).
  apply bool_decide_eq_true in H. exact H.
Qed.

(** X27: the state of the loop variables.  The statements that open
    the loop body of [Searcher::EnumerateTransitions] and of
    [Searcher::DumpTransitions] (a new state, two calls of [SetPencil]
    with the boxes [MAZEPOINT[curP0]] and [MAZEPOINT[curP1]],
    [SetRule60], two calls of [SetMovement]) return for loop variables
    in their ranges and build the state that stores just these values:
    the pencils read back as the two boxes, the flags as set, and the
    state has an index below [TotalStates], so that the [assert] that
    follows holds. *)
Theorem loop_state_of_the_loop_variables (pencil0mv pencil1mv : bool)
    (curP0 curP1 : Z) (curR60 : bool) :
  0 <= curP0 < MAZEPOINT_COUNT ->
  0 <= curP1 < MAZEPOINT_COUNT ->
  exists current index,
    loop_state pencil0mv pencil1mv curP0 curP1 curR60 = Some current /\
    current = mkState curP0 curP1 curR60 pencil0mv pencil1mv /\
    State.Pencil 0 current = at_index MAZEPOINT curP0 /\
    State.Pencil 1 current = at_index MAZEPOINT curP1 /\
    State.MovementP 0 current = Some pencil0mv /\
    State.MovementP 1 current = Some pencil1mv /\
    State.Rule60P current = curR60 /\
    ComputeIndex current = Some index /\ 0 <= index < TotalStates.
Proof.
  intros H0 H1.
  set (c := mkState curP0 curP1 curR60 pencil0mv pencil1mv).
  assert (Hl : legal c) by (split; assumption).
  destruct (all_states_loop_state c) as [_ Hs].
  { apply list_elem_of_In, legal_all_states, Hl. }
  destruct (ComputeIndex_legal c Hl) as (index & Hi & Hr).
  exists c, index. split; [exact Hs|]. split; [reflexivity|].
  split; [exact (Pencil_raw 0 c (or_introl eq_refl) H0)|].
  split; [exact (Pencil_raw 1 c (or_intror eq_refl) H1)|].
  auto.
Qed.

Lemma loop_state_of_the_loop_variables_witness :
  exists current index,
    loop_state true false 7 0 true = Some current /\
    current = mkState 7 0 true true false /\
    State.Pencil 0 current = at_index MAZEPOINT 7 /\
    State.Pencil 1 current = at_index MAZEPOINT 0 /\
    State.MovementP 0 current = Some true /\
    State.MovementP 1 current = Some false /\
    State.Rule60P current = true /\
    ComputeIndex current = Some index /\ 0 <= index < TotalStates.
Proof.
  apply (loop_state_of_the_loop_variables true false 7 0 true);
    unfold MAZEPOINT_COUNT; lia.
Defined.

(** What the loop body does for a state of the enumeration. *)
Lemma dump_body_entry (sp os : list Transition) (c : State) :
  Z.of_nat (length sp) = TotalStates ->
  In c all_states ->
  exists t,
    ComputeIndex c ≫= at_index sp = Some t /\
    dump_body (pencilMoved0 c) (pencilMoved1 c) (pencil0 c) (pencil1 c)
      (rule60active c) sp os
    = Some (if bool_decide (0 < Transition.Visited t) then t :: os else os).
Proof.
  intros Hlen Hin. destruct (all_states_loop_state c Hin) as [Hl Hs].
  destruct (ComputeIndex_legal c Hl) as (i & Hi & Hr).
  destruct (at_index_is_Some sp i) as [t Ht]; [lia|].
  exists t. rewrite Hi, bind_Some_eq. split; [exact Ht|].
  unfold dump_body. rewrite Hs, bind_Some_eq, Hi, bind_Some_eq.
  destruct (Z.ltb_spec i TotalStates); [|lia]. simpl.
  rewrite Ht, bind_Some_eq.
  destruct (Z.gtb_spec (Transition.Visited t) 0).
  - rewrite bool_decide_eq_true_2 by lia. reflexivity.
  - rewrite bool_decide_eq_false_2 by lia. reflexivity.
Qed.

Lemma dump_loop (sp : list Transition) (l : list State) :
  Z.of_nat (length sp) = TotalStates ->
  (forall c, In c l -> In c all_states) ->
  forall os,
    loop (fun c => dump_body (pencilMoved0 c) (pencilMoved1 c) (pencil0 c)
                     (pencil1 c) (rule60active c) sp) l os
    = Some (reverse (filter (fun t => 0 < Transition.Visited t) (entries sp l))
              ++ os).
Proof.
  intros Hlen. induction l as [|c l IH]; intros Hl os; [reflexivity|].
  destruct (dump_body_entry sp os c Hlen (Hl c (or_introl eq_refl)))
    as (t & Ht & Hd).
  cbn [loop]. rewrite Hd, bind_Some_eq.
  rewrite IH by (intros c' Hc'; apply Hl; right; exact Hc').
  unfold entries. cbn [omap list_omap]. rewrite Ht. fold (entries sp l).
  f_equal. rewrite filter_cons.
  destruct (decide (0 < Transition.Visited t)) as [Hv|Hv].
  - rewrite bool_decide_eq_true_2 by exact Hv.
    rewrite reverse_cons, <- app_assoc. reflexivity.
  - rewrite bool_decide_eq_false_2 by exact Hv. reflexivity.
Qed.

(** ** The enumeration goes through every index once *)

Lemma bind_Permutation_both {A B : Type} (f g : A -> list B) (l l' : list A) :
  l ≡ₚ l' -> (forall x, f x ≡ₚ g x) -> l ≫= f ≡ₚ l' ≫= g.
Proof.
  intros Hl Hf. rewrite <- Hl. clear l' Hl.
  induction l as [|a l IH]; [reflexivity|].
  change ((a :: l) ≫= f) with (f a ++ (l ≫= f)).
  change ((a :: l) ≫= g) with (g a ++ (l ≫= g)).
  rewrite IH, Hf. reflexivity.
Qed.

Lemma all_states_by_index : all_states ≡ₚ states_by_index.
Proof.
  unfold all_states, states_by_index.
  apply bind_Permutation_both; [apply perm_swap|]. intros m0.
  apply bind_Permutation_both; [apply perm_swap|]. intros m1.
  apply bind_Permutation_both; [reflexivity|]. intros p0.
  apply bind_Permutation_both; [reflexivity|]. intros p1.
  apply bind_Permutation_both; [apply perm_swap|]. intros r.
  reflexivity.
Qed.

Lemma states_by_index_indices :
  omap ComputeIndex states_by_index = all_indices.
Proof. vm_compute. reflexivity. Qed.

Lemma omap_bind {A B C : Type} (f : A -> option B) (g : B -> option C)
    (l : list A) :
  omap (fun x => f x ≫= g) l = omap g (omap f l).
Proof.
  induction l as [|a l IH]; [reflexivity|]. cbn [omap list_omap].
  destruct (f a) as [b|]; simpl; [|exact IH].
  destruct (g b); rewrite IH; reflexivity.
Qed.

Lemma omap_at_index_seq {A : Type} (sp : list A) (n a : nat) :
  omap (at_index sp) (map Z.of_nat (seq a n)) = take n (drop a sp).
Proof.
  revert a. induction n as [|n IH]; intros a; [reflexivity|].
  cbn [seq map omap list_omap]. rewrite IH.
  unfold at_index. destruct (Z.ltb_spec (Z.of_nat a) 0); [lia|].
  rewrite Nat2Z.id.
  destruct (sp !! a) as [x|] eqn:Hx.
  - rewrite (drop_S _ _ _ Hx). reflexivity.
  - rewrite (drop_ge sp a) by (apply lookup_ge_None; exact Hx).
    rewrite (drop_ge sp (S a)) by (apply lookup_ge_None in Hx; lia).
    destruct n; reflexivity.
Qed.

Lemma entries_states_by_index (sp : list Transition) :
  Z.of_nat (length sp) = TotalStates -> entries sp states_by_index = sp.
Proof.
  intros Hlen. unfold entries. rewrite omap_bind, states_by_index_indices.
  unfold all_indices. rewrite omap_at_index_seq, drop_0.
  apply take_ge. lia.
Qed.

Lemma entries_all_states (sp : list Transition) :
  Z.of_nat (length sp) = TotalStates -> entries sp all_states ≡ₚ sp.
Proof.
  intros Hlen. rewrite <- (entries_states_by_index sp Hlen) at 2.
  unfold entries. rewrite all_states_by_index. reflexivity.
Qed.

Lemma DumpTransitions_entries (sp : list Transition) :
  Z.of_nat (length sp) = TotalStates ->
  DumpTransitions sp
  = Some (reverse (filter (fun t => 0 < Transition.Visited t)
                     (entries sp all_states))).
Proof.
  intros Hlen. rewrite DumpTransitions_all_states.
  rewrite (dump_loop sp all_states Hlen (fun c H => H) []).
  rewrite app_nil_r. reflexivity.
Qed.

(** X21: [Searcher::DumpTransitions] on a state space of [TotalStates]
    transitions.  It returns (no index is outside the state space), and
    it prints the transitions whose visited counter is positive, each
    one once and no other: the lines are a permutation of the visited
    transitions of the state space.  They come in the order of the
    enumeration of the states, which is the order in which the
    constructor fills the state space and not the order of the
    indices. *)
Theorem DumpTransitions_prints_the_visited (sp : list Transition) :
  Z.of_nat (length sp) = TotalStates ->
  exists os,
    DumpTransitions sp = Some os /\
    os ≡ₚ filter (fun t => 0 < Transition.Visited t) sp /\
    reverse os
      = filter (fun t => 0 < Transition.Visited t) (entries sp all_states).
Proof.
  intros Hlen. rewrite (DumpTransitions_entries sp Hlen).
  eexists. split; [reflexivity|]. split.
  - rewrite reverse_Permutation. apply filter_Permutation.
    apply entries_all_states, Hlen.
  - apply reverse_involutive.
Qed.

Lemma DumpTransitions_prints_the_visited_witness :
  exists os,
    DumpTransitions table = Some os /\
    os ≡ₚ filter (fun t => 0 < Transition.Visited t) table.
Proof.
  destruct (DumpTransitions_prints_the_visited table length_table)
    as (os & H & Hp & _).
  exists os. split; [exact H | exact Hp].
Defined.

(** * The program *)

Lemma table_not_visited (i : Z) (t : Transition) :
  at_index table i = Some t -> Transition.Visited t = 0.
Proof.
  intros Ht. destruct (table_at_index i t Ht) as [Hl Hi].
  destruct (table_entry _ 0 Hl (or_introl eq_refl))
    as (i' & t' & n & a & path & Hi' & _ & Ht' & _ & _ & Hv & _).
  congruence.
Qed.

Lemma bounded_first_run_table : bounded (first_run table).
Proof.
  apply Forall_forall. intros t Ht. simpl in Ht.
  apply list_elem_of_lookup in Ht as [k Hk].
  assert (H : at_index table (Z.of_nat k) = Some t).
  { unfold at_index. destruct (Z.ltb_spec (Z.of_nat k) 0); [lia|].
    rewrite Nat2Z.id. exact Hk. }
  apply table_not_visited in H. unfold Transition.Visited in H.
  rewrite H. reflexivity.
Qed.

Lemma omap_ext_all {A B : Type} (f g : A -> option B) (l : list A) :
  (forall x, f x = g x) -> omap f l = omap g l.
Proof.
  intros H. induction l as [|a l IH]; [reflexivity|].
  cbn [omap list_omap]. rewrite H, IH. reflexivity.
Qed.

Lemma space_of_sim (r : Run) (f : Fast.Run) :
  Z.of_nat (length (space r)) = TotalStates ->
  sim r f ->
  space r = omap (fun i => Fast.cells f !! i) all_indices.
Proof.
  intros Hlen [H _].
  rewrite <- (omap_ext_all (at_index (space r)) _ _ H).
  unfold all_indices. rewrite omap_at_index_seq, drop_0.
  symmetry. apply take_ge. lia.
Qed.

Lemma fast_end_visited :
  length (filter (fun t => 0 < Transition.Visited t)
            (omap (fun i => Fast.cells fast_end !! i) all_indices)) = 552%nat.
Proof. vm_compute. reflexivity. Qed.

(** X22: the program.  [main] builds the state space, traverses it from
    the start state and dumps the transitions; it returns, with any
    fuel from 273 on.  The dump has 552 lines: they are the transitions
    that the traversal has visited, each one once, and each has a legal
    current state and a visited counter from 1 to the maximal depth
    that the traversal prints. *)
Theorem main_dumps_what_was_visited :
  exists (r : Run) (os : list Transition),
    (forall fuel, (273 <= fuel)%nat -> main fuel = Some (r, os)) /\
    os ≡ₚ filter (fun t => 0 < Transition.Visited t) (space r) /\
    length os = 552%nat /\
    Forall (fun t => legal (Transition.CurrentState t) /\
                     1 <= Transition.Visited t <= maxDepth r) os.
Proof.
  destruct program_run as (t0 & rs & rm & re & _ & _ & _ & _ & Hrun & _ & He).
  pose proof Hrun as Hrec. rewrite StartTraversal_unfold in Hrec.
  assert (Hd : 0 < 1) by lia.
  pose proof (RecTraverse_settles _ _ _ _ _ Hd Hrec) as Hs.
  pose proof (ready_settles _ _ first_run_ready Hs) as (Hlen & _).
  pose proof (tracing_settles _ _ _ (tracing_first_run table) Hs) as Htr.
  pose proof (RecTraverse_deepens _ _ _ _ _ Hrec) as (_ & Hb & _).
  specialize (Hb bounded_first_run_table).
  assert (Hp : reverse (filter (fun t => 0 < Transition.Visited t)
                          (entries (space re) all_states))
               ≡ₚ filter (fun t => 0 < Transition.Visited t) (space re)).
  { rewrite reverse_Permutation. apply filter_Permutation.
    apply entries_all_states, Hlen. }
  eexists re, _. split; [|split; [exact Hp|split]].
  - intros fuel Hle. unfold main.
    rewrite Searcher_new_table, bind_Some_eq.
    rewrite (StartTraversal_fuel_mono _ _ _ _ Hle Hrun), bind_Some_eq.
    rewrite (DumpTransitions_entries _ Hlen). reflexivity.
  - rewrite Hp, (space_of_sim _ _ Hlen He). exact fast_end_visited.
  - rewrite Hp. apply Forall_forall. intros t Ht.
    apply list_elem_of_filter in Ht as [Hv Hin].
    split; [|split; [lia|]].
    + apply list_elem_of_lookup in Hin as [k Hk].
      assert (H : at_index (space re) (Z.of_nat k) = Some t).
      { unfold at_index. destruct (Z.ltb_spec (Z.of_nat k) 0); [lia|].
        rewrite Nat2Z.id. exact Hk. }
      destruct (tracing_at_index _ _ _ _ Htr H) as (t1 & H1 & E).
      rewrite E. apply (table_at_index _ _ H1).
    + unfold bounded in Hb. rewrite Forall_forall in Hb.
      exact (Hb t Hin).
Qed.

(** * The visited counters are depths of paths *)

Lemma path_to_step (R : State -> State -> Prop) (start s s' : State) (n : Z) :
  path_to R start n s -> R s s' -> path_to R start (n + 1) s'.
Proof.
  intros (l & Hn & Hh & Hl & Hc) HR.
  apply last_Some in Hl as [l' ->].
  exists (l' ++ [s; s']). split; [|split; [|split]].
  - rewrite length_app in *. simpl in *. lia.
  - destruct l'; simpl in *; exact Hh.
  - change (l' ++ [s; s']) with (l' ++ [s] ++ [s']).
    rewrite app_assoc. apply last_snoc.
  - apply chain_snoc; assumption.
Qed.

Lemma path_to_impl (R R' : State -> State -> Prop) (start s : State) (n : Z) :
  (forall x y, R x y -> R' x y) -> path_to R start n s -> path_to R' start n s.
Proof.
  intros H (l & Hn & Hh & Hl & Hc). exists l.
  repeat split; try assumption. exact (chain_impl _ _ _ H Hc).
Qed.

Lemma record_visit_justified (sp : list Transition) (start : State)
    (index depth : Z) (t : Transition) (r r1 : Run) :
  0 < depth ->
  justified sp start r ->
  path_to (link sp) start depth (Transition.CurrentState t) ->
  record_visit index depth t r = Some r1 ->
  justified sp start r1.
Proof.
  intros Hd Hj Hp Hrv. apply record_visit_space in Hrv as [Hi Hs].
  intros i t' Ht' Hv. rewrite Hs in Ht'.
  destruct (decide (index = i)) as [<- | Hne].
  - pose proof (at_index_Some _ _ _ Ht') as Hr. rewrite length_insert in Hr.
    rewrite (at_index_insert_eq _ _ _ Hr) in Ht'. injection Ht' as <-.
    exact Hp.
  - rewrite (at_index_insert_ne _ _ _ _ Hi Hne) in Ht'. exact (Hj i t' Ht' Hv).
Qed.

Section visit_justified.

Variable sp : list Transition.
Hypothesis sp_indexed : indexed_space sp.
Variable start : State.
Variable rec : Z -> Z -> Run -> option Run.
Variable depth : Z.
Hypothesis rec_settles :
  forall j r r', rec j (depth + 1) r = Some r' -> settles r r'.
Hypothesis rec_justified :
  forall j r r',
    tracing sp r -> justified sp start r ->
    rec j (depth + 1) r = Some r' ->
    (forall t, at_index (space r) j = Some t ->
       path_to (link sp) start (depth + 1) (Transition.CurrentState t)) ->
    justified sp start r'.

Lemma dispatch_justified (s cur : State) (r : Run) (f : flow) :
  tracing sp r -> justified sp start r ->
  path_to (link sp) start depth cur -> link sp cur s ->
  dispatch rec s depth r = Some f ->
  justified sp start (flow_run f).
Proof.
  intros Hr Hj Hp Hlink. unfold dispatch.
  destruct (State.IllegalP s); [intros [= <-]; exact Hj|].
  destruct (State.GoalP s); [intros [= <-]; exact Hj|].
  destruct (ComputeIndex s) as [j|] eqn:Hj'; simpl; [|discriminate].
  destruct (rec j (depth + 1) r) as [r'|] eqn:E; simpl; [|discriminate].
  intros [= <-]. simpl. apply (rec_justified _ _ _ Hr Hj E).
  intros t Ht. destruct (tracing_at_index _ _ _ _ Hr Ht) as (t0 & H0 & Et).
  assert (Hcur : Transition.CurrentState t = s).
  { rewrite Et. change (Transition.CurrentState (Transition.SetVisited _ t0))
      with (Transition.CurrentState t0).
    apply (ComputeIndex_inj _ _ j); [apply sp_indexed, H0 | exact Hj']. }
  rewrite Hcur. exact (path_to_step _ _ _ _ _ Hp Hlink).
Qed.

Lemma pencil_body_justified (index p : Z) (r : Run) (f : flow) (t : Transition) :
  tracing sp r -> justified sp start r ->
  at_index (space r) index = Some t ->
  path_to (link sp) start depth (Transition.CurrentState t) ->
  pencil_body rec index depth p r = Some f ->
  justified sp start (flow_run f).
Proof.
  intros Hr Hj Ht Hp. unfold pencil_body. rewrite Ht, bind_Some_eq.
  destruct (Transition.NextState p t) as [n|] eqn:Hn; simpl; [|discriminate].
  destruct (dispatch rec n depth r) as [f1|] eqn:E1; simpl; [|discriminate].
  pose proof (dispatch_settles rec depth rec_settles _ _ _ E1) as S1.
  apply (dispatch_justified n (Transition.CurrentState t)) in E1;
    [|exact Hr | exact Hj | exact Hp | eapply tracing_link; eauto].
  destruct f1 as [r1|r1]; simpl in E1, S1; [intros [= <-]; exact E1|].
  destruct (settles_at_index _ _ _ _ S1 Ht) as (t1 & Ht1 & Hnd).
  rewrite Ht1, bind_Some_eq.
  destruct (Transition.AltNextValidP p t1) as [[|]|] eqn:Hv; simpl;
    [| |discriminate].
  - destruct (Transition.AltNextState p t1) as [a|] eqn:Ha; simpl; [|discriminate].
    intros E2.
    pose proof (tracing_settles _ _ _ Hr S1) as Hr1.
    apply (dispatch_justified a (Transition.CurrentState t1)) in E2;
      [exact E2 | exact Hr1 | exact E1 | | eapply tracing_link; eauto].
    rewrite (no_deeper_CurrentState _ _ Hnd). exact Hp.
  - intros [= <-]. exact E1.
Qed.

Lemma for_pencils_justified (index : Z) (pencils : list Z) :
  forall (r r' : Run) (t : Transition),
    tracing sp r -> justified sp start r ->
    at_index (space r) index = Some t ->
    path_to (link sp) start depth (Transition.CurrentState t) ->
    for_pencils (pencil_body rec index depth) pencils r = Some r' ->
    justified sp start r'.
Proof.
  induction pencils as [|p rest IH]; intros r r' t Hr Hj Ht Hp.
  { intros [= <-]. exact Hj. }
  rewrite for_pencils_cons.
  destruct (pencil_body rec index depth p r) as [f|] eqn:E; simpl; [|discriminate].
  pose proof (pencil_body_settles rec depth rec_settles _ _ _ _ E) as S1.
  apply (pencil_body_justified _ _ _ _ t Hr Hj Ht Hp) in E.
  destruct f as [r1|r1]; simpl in E, S1; [intros [= <-]; exact E|].
  destruct (settles_at_index _ _ _ _ S1 Ht) as (t1 & Ht1 & Hnd).
  apply (IH _ _ t1 (tracing_settles _ _ _ Hr S1) E Ht1).
  rewrite (no_deeper_CurrentState _ _ Hnd). exact Hp.
Qed.

End visit_justified.

Lemma RecTraverse_justified (sp : list Transition) (start : State) (fuel : nat) :
  indexed_space sp ->
  forall (index depth : Z) (r r' : Run),
    0 < depth -> tracing sp r -> justified sp start r ->
    RecTraverse fuel index depth r = Some r' ->
    (forall t, at_index (space r) index = Some t ->
       path_to (link sp) start depth (Transition.CurrentState t)) ->
    justified sp start r'.
Proof.
  intros Hidx.
  induction fuel as [|fuel IH]; intros index depth r r' Hd Hr Hj; [discriminate|].
  rewrite RecTraverse_S.
  destruct (at_index (space r) index) as [t|] eqn:Ht; simpl; [|discriminate].
  destruct (_ && _) eqn:Hpruned; [intros [= <-] _; exact Hj|].
  destruct (record_visit index depth t r) as [r1|] eqn:Erv; simpl; [|discriminate].
  intros H Hp. specialize (Hp t eq_refl).
  pose proof (record_visit_justified _ _ _ _ _ _ _ Hd Hj Hp Erv) as Hj1.
  apply (record_visit_spec _ _ _ _ _ Ht Hpruned Hd) in Erv as (S1 & Ht1 & _).
  apply (for_pencils_justified sp Hidx start (RecTraverse fuel) depth) with
    (t := Transition.SetVisited depth t) in H; try assumption.
  - intros j r0 r0' Hrec. apply RecTraverse_settles in Hrec; [exact Hrec | lia].
  - intros j r0 r0' Hr0 Hj0 Hrec Hp0.
    apply (IH j (depth + 1) r0 r0'); [lia | assumption..].
  - exact (tracing_settles _ _ _ Hr S1).
Qed.

Lemma justified_first_run_table (start : State) :
  justified table start (first_run table).
Proof.
  intros i t Ht Hv. simpl in Ht. apply table_not_visited in Ht.
  unfold Transition.Visited in Ht. lia.
Qed.

(** X25: every visited counter is the depth of a real path.  On the
    state space that the constructor builds, in the traversal from a
    legal start state, every transition with a positive visited counter
    [d] has a current state that is reached from the start state by a
    list of [d] states, the first one the start state, the last one that
    state, each one a move of the puzzle from the one before. *)
Theorem visited_states_are_reached (sp : list Transition) (start : State)
    (fuel : nat) (index : Z) (r : Run) :
  Searcher_new = Some sp ->
  legal start ->
  ComputeIndex start = Some index ->
  RecTraverse fuel index 1 (first_run sp) = Some r ->
  forall i t,
    at_index (space r) i = Some t -> 0 < Transition.Visited t ->
    exists l,
      Z.of_nat (length l) = Transition.Visited t /\
      head l = Some start /\
      last l = Some (Transition.CurrentState t) /\
      chain move l.
Proof.
  rewrite Searcher_new_table. intros [= <-] Hl Hi H i t Ht Hv.
  assert (Hd : 0 < 1) by lia.
  pose proof (RecTraverse_justified table start fuel table_indexed_space
                index 1 (first_run table) r Hd (tracing_first_run table)
                (justified_first_run_table start) H) as Hj.
  apply (path_to_impl (link table)); [exact table_link_move|].
  refine (Hj _ i t Ht Hv).
  intros t0 Ht0.
  assert (Hc : Transition.CurrentState t0 = start).
  { apply (ComputeIndex_inj _ _ index); [|exact Hi].
    apply (table_at_index index t0 Ht0). }
  rewrite Hc. exists [start]. repeat split. constructor.
Qed.

Lemma visited_states_are_reached_witness :
  exists r,
    StartTraversal 273 table = Some r /\
    forall i t,
      at_index (space r) i = Some t -> 0 < Transition.Visited t ->
      exists l,
        Z.of_nat (length l) = Transition.Visited t /\
        head l = Some (mkState 0 3 false false false) /\
        last l = Some (Transition.CurrentState t) /\
        chain move l.
Proof.
  destruct program_run as (t0 & rs & rm & re & _ & _ & _ & _ & Hrun & _).
  exists re. split; [exact Hrun|].
  apply (visited_states_are_reached table
           (mkState 0 3 false false false) 273 start_index re);
    [exact Searcher_new_table | unfold legal, MAZEPOINT_COUNT; simpl; lia
    | reflexivity | rewrite <- StartTraversal_unfold; exact Hrun].
Defined.

(** * The shortest solution *)

(** A move of the puzzle is a transition of the state space of the
    program. *)
Lemma move_table_link (s s' : State) : move s s' -> link table s s'.
Proof.
  intros [box H].
  assert (Hgen : exists p trs trs' path,
            (p = 0 \/ p = 1) /\ legal s /\ current trs = s /\
            DetermineNextStates p trs = Some (trs', path) /\
            (Transition.NextState p trs' = Some s' \/
             (path = PATH_LUGNUT /\ Transition.AltNextState p trs' = Some s'))).
  { destruct H as [p trs trs' path Hp Hl Hc _ Hd Hn | p trs trs' Hp Hl Hc _ Hd Ha];
      [exists p, trs, trs', path | exists p, trs, trs', PATH_LUGNUT]; auto 10. }
  destruct Hgen as (p & trs & trs' & path & Hp & Hl & Hc & Hd & Hs').
  destruct (table_entry s p Hl Hp)
    as (i & t & n & a & path' & Hi & _ & Ht & He & Hcur & _ & Hn & Hv & Ha).
  exists i, t, p. split; [exact Ht|]. split; [exact Hcur|].
  pose proof (DetermineNextStates_frame 0 p trs Hp) as Hf.
  rewrite Hc in Hf. specialize (Hf Hl).
  fold (DetermineNextStates p trs) in Hf.
  rewrite Hd, He, bind_Some_eq in Hf. simpl in Hf.
  destruct (store p n a trs) as [t3|] eqn:Hs3; [|discriminate].
  injection Hf as -> ->.
  apply store_spec in Hs3 as (N3 & _ & _ & A3).
  destruct Hs' as [Hs' | [Hlug Hs']].
  - left. congruence.
  - right.
    pose proof (outcomes_all_evaluate choice_at_55 choice_at_55_checked
                  p s _ Hp Hl He) as [H55 Hnot].
    simpl in H55, Hnot.
    destruct (decide (State.Pencil p s = Some 55)) as [E|E];
      [|destruct (Hnot E) as [Hne _]; contradiction].
    destruct (H55 E) as (_ & _ & [x ->] & _).
    destruct A3 as [A3 _]. rewrite (Ha x eq_refl).
    split; [exact Hv|]. congruence.
Qed.

Lemma move_legal (s s' : State) : move s s' -> legal s.
Proof. intros [box [? ? ? ? ? Hl|? ? ? ? Hl]]; exact Hl. Qed.

Lemma legal_not_IllegalP_GoalP (s : State) :
  legal s -> State.IllegalP s = false /\ State.GoalP s = false.
Proof.
  unfold legal, State.IllegalP, State.GoalP, ILLEGAL_MAZEPOINT, GOAL_MAZEPOINT,
    MAZEPOINT_COUNT.
  intros [H0 H1]. rewrite !orb_false_iff, !Z.eqb_neq. lia.
Qed.

Lemma link_successors (p : Z) (t : Transition) (s : State) :
  Transition.NextState p t = Some s \/
  (Transition.AltNextValidP p t = Some true /\
   Transition.AltNextState p t = Some s) ->
  In s (successors t).
Proof.
  intros H. pose proof (accessor_pencil _ _ _ H) as Hp.
  unfold successors.
  destruct Hp as [-> | ->]; destruct H as [H | [Hv H]];
    simpl in H; injection H as <-.
  - left. reflexivity.
  - simpl in Hv. injection Hv as ->. right. left. reflexivity.
  - apply in_or_app. right. apply in_or_app. right. left. reflexivity.
  - simpl in Hv. injection Hv as ->.
    apply in_or_app. right. apply in_or_app. right. right. left. reflexivity.
Qed.

Lemma closed_at_checked : forallb closed_at all_indices = true.
Proof. vm_compute. reflexivity. Qed.

Lemma goal_not_before_37_checked :
  forallb goal_not_before_37 all_indices = true.
Proof. vm_compute. reflexivity. Qed.

(** The final run of the program holds the transitions of the state
    space of the constructor, the visited counters apart. *)
Lemma fast_end_cells (i : Z) (t : Transition) :
  Fast.cells fast_end !! i = Some t ->
  exists t0, at_index table i = Some t0 /\
             t = Transition.SetVisited (visited t) t0.
Proof.
  destruct program_run as (t1 & rs & rm & re & _ & _ & _ & _ & Hrun & _ & He).
  rewrite StartTraversal_unfold in Hrun.
  assert (Hd : 0 < 1) by lia.
  pose proof (RecTraverse_settles _ _ _ _ _ Hd Hrun) as Hs.
  pose proof (tracing_settles _ _ _ (tracing_first_run table) Hs) as Htr.
  destruct He as [He _]. rewrite <- He. apply tracing_at_index, Htr.
Qed.

(** The transition of a state that was seen in the run of the program,
    with the next states of a move among its successors. *)
Lemma move_in_final_run (s s' : State) :
  0 < final_depth s -> move s s' ->
  exists i te,
    0 <= i < TotalStates /\
    Fast.cells fast_end !! i = Some te /\
    visited te = final_depth s /\
    In s' (successors te).
Proof.
  intros Hd Hm. apply move_table_link in Hm as (i & t & p & Ht & Hc & H).
  destruct (table_at_index _ _ Ht) as [_ Hi]. rewrite Hc in Hi.
  unfold final_depth in Hd |- *. rewrite Hi, bind_Some_eq in Hd |- *.
  destruct (Fast.cells fast_end !! i) as [te|] eqn:Hte; simpl in Hd; [|lia].
  destruct (fast_end_cells _ _ Hte) as (t0 & Ht0 & E).
  assert (t0 = t) as -> by congruence.
  pose proof (at_index_Some _ _ _ Ht) as Hr. rewrite length_table in Hr.
  exists i, te. split; [exact Hr|]. split; [exact Hte|].
  split; [reflexivity|].
  rewrite E. change (successors (Transition.SetVisited (visited te) t))
    with (successors t). exact (link_successors _ _ _ H).
Qed.

(** A move from a state that was seen leads to a state that was seen,
    at most one deeper. *)
Lemma move_final_depth (s s' : State) :
  0 < final_depth s -> move s s' -> legal s' ->
  0 < final_depth s' <= final_depth s + 1.
Proof.
  intros Hd Hm Hl.
  destruct (move_in_final_run s s' Hd Hm) as (i & te & Hr & Hte & Hv & Hin).
  pose proof closed_at_checked as Hall. rewrite forallb_forall in Hall.
  specialize (Hall i (all_indices_spec i Hr)).
  unfold closed_at in Hall. rewrite Hte in Hall.
  destruct (Z.ltb_spec 0 (visited te)); [|lia].
  rewrite forallb_forall in Hall. specialize (Hall s' Hin).
  destruct (legal_not_IllegalP_GoalP s' Hl) as [Hni Hng].
  rewrite Hni, Hng in Hall. cbn [orb] in Hall.
  apply andb_true_iff in Hall as [H3 H4].
  apply Z.ltb_lt in H3. apply Z.leb_le in H4. lia.
Qed.

(** A state that was seen and has a move to a goal was first seen at
    depth 37 or deeper. *)
Lemma move_goal_depth (s g : State) :
  0 < final_depth s -> move s g -> State.GoalP g = true ->
  37 <= final_depth s.
Proof.
  intros Hd Hm Hg.
  destruct (move_in_final_run s g Hd Hm) as (i & te & Hr & Hte & Hv & Hin).
  pose proof goal_not_before_37_checked as Hall. rewrite forallb_forall in Hall.
  specialize (Hall i (all_indices_spec i Hr)).
  unfold goal_not_before_37 in Hall. rewrite Hte in Hall.
  destruct (Z.ltb_spec 0 (visited te)); [|lia].
  assert (He : existsb State.GoalP (successors te) = true)
    by (apply existsb_exists; eauto).
  rewrite He in Hall. cbn [andb] in Hall. apply Z.leb_le in Hall. lia.
Qed.

(** The last state of a path was first seen at a depth that is at most
    the length of the path. *)
Lemma chain_final_depth (l : list State) :
  chain move l ->
  forall (s1 s : State) (d : Z),
    head l = Some s1 -> 0 < final_depth s1 <= d ->
    last l = Some s -> legal s ->
    0 < final_depth s <= d - 1 + Z.of_nat (length l).
Proof.
  induction 1 as [|x|x x' l Hm Hc IH]; intros s1 s d Hh Hd Hl Hleg.
  - discriminate.
  - injection Hh as <-. injection Hl as <-. simpl. lia.
  - injection Hh as <-.
    assert (Hx' : legal x').
    { destruct l as [|y l].
      - injection Hl as <-. exact Hleg.
      - inversion Hc; subst. eapply move_legal; eassumption. }
    pose proof (move_final_depth x x' ltac:(lia) Hm Hx') as Hd'.
    specialize (IH x' s (d + 1) eq_refl ltac:(lia) Hl Hleg).
    simpl length in *. lia.
Qed.

Lemma final_depth_start : final_depth (mkState 0 3 false false false) = 1.
Proof. vm_compute. reflexivity. Qed.

Lemma shortest_solution_printed :
  existsb (fun o => bool_decide (o = StackTrace 37 shortest_solution))
    (Fast.printed fast_end) = true.
Proof. vm_compute. reflexivity. Qed.

(** X23: the answer of the program.  From the start state of the
    program (pencil 0 on box 1, pencil 1 on box 7, nothing moved, rule
    60 off) the puzzle has a solution of 37 states, which the program
    prints as a stack trace, and it has no shorter one: every list of
    states that begins with the start state, goes on by moves of the
    puzzle and ends one move from the goal has at least 37 states.  So
    the bound 37 in [Searcher::DumpStackTrace] lets the shortest
    solutions through and nothing else. *)
Theorem shortest_solution_has_37_states :
  (exists sp r,
     Searcher_new = Some sp /\
     StartTraversal 273 sp = Some r /\
     In (StackTrace 37 shortest_solution) (output r) /\
     length shortest_solution = 37%nat /\
     is_solution (mkState 0 3 false false false) shortest_solution) /\
  (forall trace,
     is_solution (mkState 0 3 false false false) trace ->
     (37 <= length trace)%nat).
Proof.
  split.
  - destruct program_run as (t1 & rs & rm & re & _ & _ & _ & _ & Hrun & _ & He).
    exists table, re. split; [exact Searcher_new_table|]. split; [exact Hrun|].
    assert (Hin : In (StackTrace 37 shortest_solution) (output re)).
    { destruct He as (_ & _ & _ & ->).
      pose proof shortest_solution_printed as H.
      apply existsb_exists in H as (o & Hin & Ho).
      apply bool_decide_eq_true in Ho. subst o. exact Hin. }
    split; [exact Hin|]. split; [reflexivity|].
    rewrite StartTraversal_unfold in Hrun.
    destruct (RecTraverse_traces table 273 table_indexed_space start_index 1
                (first_run table) re ltac:(lia) (tracing_first_run table) Hrun)
      as (t & Ht & Himp).
    assert (Hc : Transition.CurrentState t = mkState 0 3 false false false).
    { apply (ComputeIndex_inj _ _ start_index); [|reflexivity].
      apply (table_at_index start_index t Ht). }
    rewrite Hc in Himp. simpl in Himp.
    destruct Himp as (_ & new & O & F); [intros _; constructor|].
    rewrite O, app_nil_r in Hin. rewrite Forall_forall in F.
    apply list_elem_of_In in Hin.
    pose proof (solution_printed _ _ (F _ Hin)) as (_ & _ & Hsol).
    exact Hsol.
  - intros trace (Hh & Hc & s & g & Hl & Hg & Hgoal).
    pose proof (chain_final_depth trace Hc _ s 1 Hh) as H.
    rewrite final_depth_start in H.
    specialize (H ltac:(lia) Hl (move_legal _ _ Hg)).
    pose proof (move_goal_depth s g ltac:(lia) Hg Hgoal). lia.
Qed.

(** X26: the visited counters that the program leaves are the
    distances from the start state.  In the state space after the
    traversal of the program, the visited counter of a legal state is
    positive exactly when the state is reached from the start state by
    moves of the puzzle, and then it is the number of states of a
    shortest path: no path from the start state to the state has fewer
    states, and one has exactly as many. *)
Theorem visited_counters_are_distances :
  exists sp r,
    Searcher_new = Some sp /\
    StartTraversal 273 sp = Some r /\
    forall (s : State) (i : Z),
      ComputeIndex s = Some i ->
      exists t,
        at_index (space r) i = Some t /\
        (forall l,
           head l = Some (mkState 0 3 false false false) ->
           chain move l -> last l = Some s ->
           0 < Transition.Visited t <= Z.of_nat (length l)) /\
        (0 < Transition.Visited t ->
         exists l,
           Z.of_nat (length l) = Transition.Visited t /\
           head l = Some (mkState 0 3 false false false) /\
           last l = Some s /\ chain move l).
Proof.
  destruct program_run as (t1 & rs & rm & re & _ & _ & _ & _ & Hrun & _ & He).
  exists table, re. split; [exact Searcher_new_table|]. split; [exact Hrun|].
  intros s i Hi.
  destruct (ComputeIndex_value _ _ Hi) as [Hl _].
  destruct (ComputeIndex_legal s Hl) as (i' & Hi' & Hr).
  assert (i' = i) as -> by congruence.
  pose proof Hrun as Hrec. rewrite StartTraversal_unfold in Hrec.
  assert (Hd : 0 < 1) by lia.
  pose proof (RecTraverse_settles _ _ _ _ _ Hd Hrec) as Hs.
  pose proof (ready_settles _ _ first_run_ready Hs) as (Hlen & _).
  destruct (at_index_is_Some (space re) i) as [t Ht]; [lia|].
  exists t. split; [exact Ht|].
  assert (Hfd : final_depth s = Transition.Visited t).
  { unfold final_depth. rewrite Hi, bind_Some_eq.
    destruct He as [He _]. rewrite <- He, Ht. reflexivity. }
  split.
  - intros l Hh Hc Hlast.
    pose proof (chain_final_depth l Hc _ s 1 Hh) as H.
    rewrite final_depth_start in H.
    specialize (H ltac:(lia) Hlast Hl). lia.
  - intros Hv.
    pose proof (RecTraverse_justified table (mkState 0 3 false false false)
                  273 table_indexed_space start_index 1 (first_run table) re
                  Hd (tracing_first_run table)
                  (justified_first_run_table _) Hrec) as Hj.
    assert (Hp : path_to (link table) (mkState 0 3 false false false)
                   (visited t) (Transition.CurrentState t)).
    { refine (Hj _ i t Ht Hv). intros t0 Ht0.
      assert (Hc : Transition.CurrentState t0 = mkState 0 3 false false false).
      { apply (ComputeIndex_inj _ _ start_index); [|reflexivity].
        apply (table_at_index start_index t0 Ht0). }
      rewrite Hc. exists [mkState 0 3 false false false].
      repeat split. constructor. }
    assert (Hcur : Transition.CurrentState t = s).
    { pose proof (tracing_settles _ _ _ (tracing_first_run table) Hs) as Htr.
      destruct (tracing_at_index _ _ _ _ Htr Ht) as (t0 & Ht0 & E).
      rewrite E. change (Transition.CurrentState (Transition.SetVisited _ t0))
        with (Transition.CurrentState t0).
      apply (ComputeIndex_inj _ _ i); [|exact Hi].
      apply (table_at_index i t0 Ht0). }
    rewrite Hcur in Hp.
    exact (path_to_impl _ _ _ _ _ table_link_move Hp).
Qed.

Lemma embrace_not_seen (m0 m1 : bool) :
  final_depth (mkState 7 7 false m0 m1) = 0.
Proof. destruct m0, m1; vm_compute; reflexivity. Qed.

Lemma embrace_state (s : State) :
  embrace s ->
  legal s /\
  s = mkState 7 7 false (pencilMoved0 s) (pencilMoved1 s).
Proof.
  intros (H0 & H1 & Hr).
  assert (Hl : legal s)
    by (apply (both_on_boxes_legal s 26 26); try assumption; discriminate).
  split; [exact Hl|]. destruct Hl as [L0 L1].
  rewrite (Pencil_raw 0 s (or_introl eq_refl) L0) in H0.
  rewrite (Pencil_raw 1 s (or_intror eq_refl) L1) in H1.
  apply GetMazePointIndex_iff in H0, H1.
  destruct s as [p0 p1 r m0 m1]. unfold State.raw in *. simpl in *.
  injection H0 as <-. injection H1 as <-. subst r. reflexivity.
Qed.

(** X28: the deadly embrace is out of reach.  No list of moves of the
    puzzle from the start state of the program leads to a state with
    both pencils on box 26 and rule 60 off, and so no move from a state
    that is reached gives an illegal state: the traversal of the program
    has nothing illegal to report. *)
Theorem deadly_embrace_is_not_reached (l : list State) (s : State) :
  head l = Some (mkState 0 3 false false false) ->
  chain move l ->
  last l = Some s ->
  ~ embrace s /\
  (forall s', move s s' -> State.IllegalP s' = false).
Proof.
  intros Hh Hc Hl.
  assert (Hne : ~ embrace s).
  { intros He. destruct (embrace_state s He) as [Hleg Hs].
    pose proof (chain_final_depth l Hc _ s 1 Hh) as H.
    rewrite final_depth_start in H.
    specialize (H ltac:(lia) Hl Hleg).
    rewrite Hs, embrace_not_seen in H. lia. }
  split; [exact Hne|]. intros s' Hm.
  pose proof (move_legal _ _ Hm) as Hleg.
  apply move_table_link in Hm as (i & t & p & Ht & Hcur & H).
  pose proof (accessor_pencil _ _ _ H) as Hp.
  destruct (table_at_index _ _ Ht) as [_ Hi]. rewrite Hcur in Hi.
  destruct (table_entry s p Hleg Hp)
    as (i' & t' & n & a & path & Hi' & _ & Ht' & He & _ & _ & Hn & Hv & Ha).
  assert (i' = i) as -> by congruence.
  assert (t' = t) as -> by congruence.
  pose proof (outcomes_all_evaluate next_kind next_kind_checked
                p s _ Hp Hleg He) as (Hill & _ & _ & _ & Halt).
  simpl in Hill, Halt.
  destruct H as [H | [Hvalid H]].
  - assert (s' = n) as -> by congruence.
    destruct (State.IllegalP n); [|reflexivity].
    exfalso. apply Hne, Hill. reflexivity.
  - rewrite Hvalid in Hv. injection Hv as Hv. symmetry in Hv.
    apply bool_decide_eq_true in Hv as [x ->].
    rewrite (Ha x eq_refl) in H. injection H as ->. simpl in Halt.
    apply (legal_not_IllegalP_GoalP _ Halt).
Qed.

Lemma deadly_embrace_is_not_reached_witness :
  ~ embrace (mkState 1 3 false true false) /\
  (forall s', move (mkState 1 3 false true false) s' ->
     State.IllegalP s' = false).
Proof.
  apply (deadly_embrace_is_not_reached
           [mkState 0 3 false false false; mkState 1 3 false true false]).
  - reflexivity.
  - constructor; [|constructor].
    exists 1. apply (produces_next _ _ _ 0 (fresh (mkState 0 3 false false false))
                       (default Transition.new
                          (fst <$> DetermineNextStates 0
                                     (fresh (mkState 0 3 false false false))))
                       PATH_YES);
      [left; reflexivity | unfold legal, MAZEPOINT_COUNT; simpl; lia
      | reflexivity | reflexivity | vm_compute; reflexivity
      | vm_compute; reflexivity].
  - reflexivity.
Defined.
